(** * thom: scheduler, notifier, model adapter, filesystem port and planner agent

    A shallow embedding of the control-flow core of the runtime
    (src/scheduler.ts, src/drivers/llm.ts, src/drivers/fs-port.ts,
    src/actors/builder-agent.ts) together with the properties stated about
    it.  Asynchronous functions are modelled by their suspension points: the
    synchronous stretch between two [await]s is one transition, and whatever
    the environment does while a function is suspended is an explicit input
    of the transition system. *)

From Stdlib Require Import List String Ascii Bool Arith Lia Wf_nat.
From Stdlib Require Import DecimalString.
Import ListNotations.
Local Open Scope string_scope.
Local Open Scope list_scope.

(* ====================================================================== *)
(** * Notifier (src/scheduler.ts, class Notifier) *)
(* ====================================================================== *)

Module Notifier.

Section Waiters.

(** [W] is the type of the resolver callbacks stored in [waitQueue].  Every
    call of [wait] creates a fresh promise and hence a fresh resolver, so
    the JavaScript [Set] never merges two entries and iterates in insertion
    order: it is a list. *)
Variable W : Type.

Record t : Type := mk {
  waitQueue : list W;
  hasPendingSignal : bool
}.

Definition init : t := mk [] false.

(** [wait()]: the boolean tells whether the returned promise is already
    resolved ([Promise.resolve()]) or whether [res] was parked. *)
Definition wait (res : W) (n : t) : t * bool :=
  if hasPendingSignal n
  then (mk (waitQueue n) false, true)
  else (mk (waitQueue n ++ [res]) (hasPendingSignal n), false).

(** [signal()]: returns the resolvers that were called. *)
Definition signal (n : t) : t * list W :=
  let pending :=
    if Nat.eqb (List.length (waitQueue n)) 0 then true
    else hasPendingSignal n in
  (mk [] pending, waitQueue n).

(** [k] consecutive calls of [signal()]; collects every resolver called. *)
Fixpoint signals (k : nat) (n : t) : t * list W :=
  match k with
  | O => (n, [])
  | S k' =>
      let (n1, woken1) := signal n in
      let (n2, woken2) := signals k' n1 in
      (n2, woken1 ++ woken2)
  end.

End Waiters.

Arguments mk {W}.
Arguments waitQueue {W}.
Arguments hasPendingSignal {W}.
Arguments init {W}.
Arguments wait {W}.
Arguments signal {W}.
Arguments signals {W}.

End Notifier.

(* ====================================================================== *)
(** * Scheduler (src/scheduler.ts, class Scheduler) *)
(* ====================================================================== *)

Module Scheduler.

Inductive Lane : Type := LDomain | LUi.
Inductive Prio : Type := PHigh | PMedium | PLow.

Definition LANES : list Lane := [LDomain; LUi].
Definition PRIOS : list Prio := [PHigh; PMedium; PLow].

(** A task is its [id]; what [run] does is seen from the scheduler as the
    inputs that arrive while the task is in flight and as the way the
    returned promise settles. *)
Record Task : Type := mkTask { id : string }.

Record PrioCells : Type := mkCells {
  high : list Task;
  medium : list Task;
  low : list Task
}.

Record Queue : Type := mkQueue {
  domain : PrioCells;
  ui : PrioCells
}.

Definition emptyCells : PrioCells := mkCells [] [] [].
Definition emptyQueue : Queue := mkQueue emptyCells emptyCells.

Definition lane (q : Queue) (l : Lane) : PrioCells :=
  match l with LDomain => domain q | LUi => ui q end.

Definition prio (c : PrioCells) (p : Prio) : list Task :=
  match p with PHigh => high c | PMedium => medium c | PLow => low c end.

(** [this.queue[lane][priority]] *)
Definition cell (q : Queue) (l : Lane) (p : Prio) : list Task :=
  prio (lane q l) p.

Definition setPrio (c : PrioCells) (p : Prio) (ts : list Task) : PrioCells :=
  match p with
  | PHigh => mkCells ts (medium c) (low c)
  | PMedium => mkCells (high c) ts (low c)
  | PLow => mkCells (high c) (medium c) ts
  end.

Definition setCell (q : Queue) (l : Lane) (p : Prio) (ts : list Task) : Queue :=
  match l with
  | LDomain => mkQueue (setPrio (domain q) p ts) (ui q)
  | LUi => mkQueue (domain q) (setPrio (ui q) p ts)
  end.

(** The inner loop of [getNext]: [for (const priority of PRIOS)]. *)
Fixpoint scanPrios (q : Queue) (l : Lane) (ps : list Prio)
  : option (Lane * Prio) :=
  match ps with
  | [] => None
  | p :: ps' =>
      if negb (Nat.eqb (List.length (cell q l p)) 0) then Some (l, p)
      else scanPrios q l ps'
  end.

(** The outer loop of [getNext]: [for (const lane of LANES)]. *)
Fixpoint scanLanes (q : Queue) (ls : list Lane) : option (Lane * Prio) :=
  match ls with
  | [] => None
  | l :: ls' =>
      match scanPrios q l PRIOS with
      | Some r => Some r
      | None => scanLanes q ls'
      end
  end.

Definition getNext (q : Queue) : option (Lane * Prio) := scanLanes q LANES.

Inductive Status : Type := running | idle | stopped.

(** Records handed to the log sink by [tick] (time stamps left out). *)
Inductive LogEvent : Type :=
  | LStart
  | LEnd
  | LError (message : string).

Record LogRec : Type := mkLog {
  event : LogEvent;
  taskId : string;
  priority : Prio;
  logLane : Lane
}.

(** Where one activation of the asynchronous [start()] is suspended. *)
Inductive Pc : Type :=
  | InTask (task : Task) (l : Lane) (p : Prio)  (* tick: [await task.run()] *)
  | TickReturned (worked : bool)                (* start: [await this.tick()] *)
  | Waiting                                     (* parked in the notifier *)
  | Woken                                       (* [wait()] promise resolved *)
  | Exited.                                     (* the while loop was left *)

Record t : Type := mk {
  status : Status;
  queue : Queue;
  notifier : Notifier.t nat;
  loops : list Pc;
  log : list LogRec
}.

(** [new Scheduler(logger)] *)
Definition init : t := mk idle emptyQueue Notifier.init [] [].

Fixpoint setNth {A : Type} (i : nat) (x : A) (l : list A) : list A :=
  match l, i with
  | [], _ => []
  | _ :: l', O => x :: l'
  | y :: l', S i' => y :: setNth i' x l'
  end.

Definition setPc (i : nat) (pc : Pc) (s : t) : t :=
  mk (status s) (queue s) (notifier s) (setNth i pc (loops s)) (log s).

Definition setStatus (st : Status) (s : t) : t :=
  mk st (queue s) (notifier s) (loops s) (log s).

Definition addLog (r : LogRec) (s : t) : t :=
  mk (status s) (queue s) (notifier s) (loops s) (log s ++ [r]).

(** Calling a parked resolver resolves the promise its activation awaits. *)
Definition wakeOne (ls : list Pc) (i : nat) : list Pc :=
  match nth_error ls i with
  | Some Waiting => setNth i Woken ls
  | _ => ls
  end.

(** [this.notifier.signal()] *)
Definition signal (s : t) : t :=
  let (n', woken) := Notifier.signal (notifier s) in
  mk (status s) (queue s) n' (fold_left wakeOne woken (loops s)) (log s).

(** [enqueue({task, priority, lane})] *)
Definition enqueue (task : Task) (p : Prio) (l : Lane) (s : t) : t :=
  signal (mk (status s) (setCell (queue s) l p (cell (queue s) l p ++ [task]))
             (notifier s) (loops s) (log s)).

(** [stop()] *)
Definition stop (s : t) : t := signal (setStatus stopped s).

(** [tick()] up to its first suspension, called by activation [i]. *)
Definition tickSync (i : nat) (s : t) : t :=
  match getNext (queue s) with
  | None => setPc i (TickReturned false) s
  | Some (l, p) =>
      match cell (queue s) l p with
      | task :: rest =>
          setPc i (InTask task l p)
            (addLog (mkLog LStart (id task) p l)
               (mk (status s) (setCell (queue s) l p rest)
                   (notifier s) (loops s) (log s)))
      | [] => setPc i Exited s  (* [shift()!] on an empty cell: tick rejects *)
      end
  end.

(** The test of the [while] loop followed by the call of [tick]. *)
Definition loopHead (i : nat) (s : t) : t :=
  match status s with
  | running => tickSync i s
  | _ => setPc i Exited s
  end.

Inductive StartResult : Type :=
  | Started (s : t)
  | Thrown (message : string).

(** [start()] up to its first suspension. *)
Definition start (s : t) : StartResult :=
  match status s with
  | running => Started s
  | stopped => Thrown "cannot restart"
  | idle =>
      let i := List.length (loops s) in
      Started (loopHead i
                 (mk running (queue s) (notifier s) (loops s ++ [Exited]) (log s)))
  end.

(** The promise of [task.run()] awaited by activation [i] settles; [err] is
    the message of the error it was rejected with, if any. *)
Definition settle (i : nat) (err : option string) (s : t) : t :=
  match nth_error (loops s) i with
  | Some (InTask task l p) =>
      let ev := match err with None => LEnd | Some m => LError m end in
      setPc i (TickReturned true) (addLog (mkLog ev (id task) p l) s)
  | _ => s
  end.

(** Activation [i] continues after the promise it awaits is resolved. *)
Definition resume (i : nat) (s : t) : t :=
  match nth_error (loops s) i with
  | Some (TickReturned worked) =>
      if negb worked && match status s with running => true | _ => false end
      then
        let s1 := setStatus idle s in
        let (n', now) := Notifier.wait i (notifier s1) in
        setPc i (if now then Woken else Waiting)
          (mk (status s1) (queue s1) n' (loops s1) (log s1))
      else loopHead i s
  | Some Woken =>
      loopHead i
        (match status s with idle => setStatus running s | _ => s end)
  | _ => s
  end.

(** Everything that can happen to a scheduler. *)
Inductive Action : Type :=
  | AStart
  | AStop
  | AEnqueue (task : Task) (p : Prio) (l : Lane)
  | ASettle (i : nat) (err : option string)
  | AResume (i : nat).

Definition step (s : t) (a : Action) : t :=
  match a with
  | AStart => match start s with Started s' => s' | Thrown _ => s end
  | AStop => stop s
  | AEnqueue task p l => enqueue task p l s
  | ASettle i err => settle i err s
  | AResume i => resume i s
  end.

Definition run (s : t) (acts : list Action) : t := fold_left step acts s.

(** Ids of the tasks whose [run] was called, in call order. *)
Definition started (lg : list LogRec) : list string :=
  map taskId (filter (fun r => match event r with LStart => true | _ => false end) lg).

(** All queued tasks in the order lanes and priorities are scanned. *)
Definition flatten (q : Queue) : list Task :=
  flat_map (fun l => flat_map (fun p => cell q l p) PRIOS) LANES.

(** One dequeue as [tick] does it, without the loop around it. *)
Definition dequeue (q : Queue) : option (Task * Queue) :=
  match getNext q with
  | None => None
  | Some (l, p) =>
      match cell q l p with
      | task :: rest => Some (task, setCell q l p rest)
      | [] => None
      end
  end.

(** [n] dequeues in a row. *)
Fixpoint drain (n : nat) (q : Queue) : list Task :=
  match n with
  | O => []
  | S n' =>
      match dequeue q with
      | None => []
      | Some (task, q') => task :: drain n' q'
      end
  end.

(** Position of a cell in the scan order of [getNext]. *)
Definition rank (l : Lane) (p : Prio) : nat :=
  (match l with LDomain => 0 | LUi => 3 end)
  + (match p with PHigh => 0 | PMedium => 1 | PLow => 2 end).

End Scheduler.

(* ====================================================================== *)
(** * Shared contracts (src/events.ts, src/effect.ts, src/ui-messages.ts) *)
(* ====================================================================== *)

(** Strings are sequences of code units; [String.length] and [substring]
    are JavaScript's [length] and [slice(0, n)]. *)
Definition nl : string := String (ascii_of_nat 10) EmptyString.
Definition dq : string := String (ascii_of_nat 34) EmptyString.
Definition slice0 (n : nat) (s : string) : string := substring 0 n s.
Definition decimal (n : nat) : string := NilEmpty.string_of_uint (Nat.to_uint n).

(** A value of type [unknown], kept as its JSON text. *)
Record Json : Type := mkJson { jsonText : string }.

(** src/events.ts *)
Inductive Event : Type :=
  | EStart (sessionId : string)
  | TokenChunk (text target reqId : string)
  | LlmComplete (target reqId : string)
  | LlmCanceled (target reqId : string)
  | LlmError (error target reqId : string)
  | UserInput (text target : string) (reqId : option string)
  | ToolResult (target tool : string) (reqId : option string)
               (ok : bool) (data : string).

Inductive Tools : Type := fs | http.

(** The two argument shapes of the planner contract ([FsArgs], [HttpArgs]). *)
Inductive ToolArgs : Type :=
  | FsArgsOf (op path : string) (content : option string)
  | HttpArgsOf (url method : string) (headers body : option Json).

(** src/effect.ts *)
Inductive Effect : Type :=
  | LlmGenerate (prompt target : string)
  | ToolCall (tool : Tools) (args : ToolArgs) (target : string).

Inductive DeliverableKind : Type := KPath | KUrl | KText | KCode.
Inductive StatusKind : Type := SInterrupted | SMaxSteps.
Inductive Phase : Type := PhLlm | PhPlanner | PhTool | PhRuntime.
Inductive StopReason : Type := RFinal | RError | RInterrupted | RMaxSteps.

(** src/ui-messages.ts: the fifteen kinds of [AgentUiEvent]. *)
Inductive AgentUiEvent : Type :=
  | SessionStart (sessionId agentId : string) (at_ : nat)
  | UserTurn (agentId requestId text : string)
  | PlanningStart (agentId requestId : string)
  | StepEv (step : nat) (goal : string) (say : option string)
  | ActionEv (step : nat) (tool : Tools) (toolcallId : string)
             (args : ToolArgs) (say : option string)
  | Observation (tool : string) (ok : bool) (data : string)
  | DeliverableEv (step : nat) (kind : DeliverableKind) (value : string)
                  (meta : option Json) (say : option string)
  | FinalEv (step : nat) (summary : string)
            (deliverables : list (DeliverableKind * string))
  | StatusEv (status : StatusKind)
  | ErrorEv (phase : Phase) (message : string)
  | PlanningStop (agentId requestId : string) (reason : StopReason)
                 (detail : option string)
  | LlmStart (target requestId promptPreview : string)
  | StreamToken (target token : string)
  | StreamDone (target : string)
  | LlmEnd (target requestId : string) (durationMs : nat) (tokens : option nat).

(** What is handed to a [dispatch] callback: an internal event (it has a
    [type]) or a presentation event (it has a [kind]). *)
Inductive Dispatched : Type :=
  | DEvent (e : Event)
  | DUi (u : AgentUiEvent).

(** JavaScript truthiness of a string: [s ? ... : ...]. *)
Definition nonEmpty (s : string) : bool :=
  match s with EmptyString => false | _ => true end.

(** Truthiness of a [string | null] or of an optional string property. *)
Definition truthy (o : option string) : bool :=
  match o with Some s => nonEmpty s | None => false end.

(** [...(x ? { x } : {})]: the property is present only when truthy. *)
Definition spread (o : option string) : option string :=
  if truthy o then o else None.

(* ====================================================================== *)
(** * Model-call adapter (src/drivers/llm.ts, class LlmAdapter) *)
(* ====================================================================== *)

Module LlmAdapter.

(** What iterating [llm.generate(prompt)] produces: finitely many chunks and
    then either the end of the stream or a thrown error ([failure] is its
    message, or its string form when it has none). *)
Record Generation : Type := mkGen {
  chunks : list string;
  failure : option string
}.

(** The model port. *)
Definition LlmPort : Type := string -> Generation.

(** A task handed to [scheduler.enqueue] and what running it dispatches. *)
Record Scheduled (R : Type) : Type := mkScheduled {
  before : list Dispatched;      (* dispatched by the call itself *)
  task : Scheduler.Task;
  taskLane : Scheduler.Lane;
  taskPrio : Scheduler.Prio;
  during : list Dispatched;      (* dispatched while the task runs *)
  after : list Dispatched;       (* dispatched once the task has settled *)
  result : R
}.
Arguments mkScheduled {R}.
Arguments before {R}.
Arguments task {R}.
Arguments taskLane {R}.
Arguments taskPrio {R}.
Arguments during {R}.
Arguments after {R}.
Arguments result {R}.

(** The [for await] loop of [run]: [tokenCount++] and two dispatches per chunk. *)
Fixpoint streamChunks (target reqId : string) (cs : list string)
         (tokenCount : nat) (out : list Dispatched) : nat * list Dispatched :=
  match cs with
  | [] => (tokenCount, out)
  | chunk :: cs' =>
      streamChunks target reqId cs' (S tokenCount)
        (out ++ [DEvent (TokenChunk chunk target reqId);
                 DUi (StreamToken target chunk)])
  end.

(** [run(prompt, target)]; [reqId] and [durationMs] stand for the values
    obtained from the clock and the random generator. *)
Definition run (llm : LlmPort) (reqId : string) (durationMs : nat)
           (prompt target : string) : Scheduled unit :=
  let g := llm prompt in
  let (tokenCount, streamed) := streamChunks target reqId (chunks g) 0 [] in
  let tail :=
    match failure g with
    | None =>
        [DUi (StreamDone target);
         DEvent (LlmComplete target reqId);
         DUi (LlmEnd target reqId durationMs (Some tokenCount))]
    | Some err =>
        let msg := if nonEmpty err then err else "unknown error" in
        [DEvent (LlmError msg target reqId);
         DUi (StreamDone target);
         DUi (LlmEnd target reqId durationMs (Some tokenCount))]
    end in
  mkScheduled
    [DUi (LlmStart target reqId (slice0 160 prompt))]
    (Scheduler.mkTask reqId) Scheduler.LDomain Scheduler.PMedium
    (streamed ++ tail) [] tt.

(** The loop of [runOnce]: [buf += chunk]. *)
Fixpoint gather (cs : list string) (buf : string) : string :=
  match cs with
  | [] => buf
  | chunk :: cs' => gather cs' (buf ++ chunk)
  end.

(** The white space of [/\s/] among the code units below 256: tab to
    carriage return, space and no-break space.  The other white space of
    [/\s/] (U+1680, U+2000 to U+200A, U+2028, U+2029, U+202F, U+205F, U+3000
    and U+FEFF) lies outside the alphabet of the strings used here. *)
Definition isSpace (c : ascii) : bool :=
  let n := nat_of_ascii c in
  (Nat.eqb n 32) || (Nat.leb 9 n && Nat.leb n 13) || (Nat.eqb n 160).

(** Number of maximal runs of white space in a string. *)
Fixpoint spaceRuns (inRun : bool) (s : string) : nat :=
  match s with
  | EmptyString => 0
  | String c s' =>
      if isSpace c
      then (if inRun then 0 else 1) + spaceRuns true s'
      else spaceRuns false s'
  end.

(** [buf.split(/\s+/).length] *)
Definition splitCount (buf : string) : nat := S (spaceRuns false buf).

Inductive Outcome : Type :=
  | Resolved (text : string)
  | Rejected (error : string).

(** [runOnce(prompt, target)] *)
Definition runOnce (llm : LlmPort) (reqId : string) (durationMs : nat)
           (prompt target : string) : Scheduled Outcome :=
  let g := llm prompt in
  let buf := gather (chunks g) "" in
  match failure g with
  | Some e =>
      mkScheduled
        [DUi (LlmStart target reqId (slice0 160 prompt))]
        (Scheduler.mkTask reqId) Scheduler.LDomain Scheduler.PMedium
        []
        [DUi (LlmEnd target reqId durationMs None)]
        (Rejected e)
  | None =>
      mkScheduled
        [DUi (LlmStart target reqId (slice0 160 prompt))]
        (Scheduler.mkTask reqId) Scheduler.LDomain Scheduler.PMedium
        []
        [DUi (LlmEnd target reqId durationMs
                (Some (if Nat.eqb (String.length buf) 0 then 0
                       else splitCount buf)))]
        (Resolved buf)
  end.

(** Everything one call dispatches, in order. *)
Definition dispatched {R : Type} (s : Scheduled R) : list Dispatched :=
  before s ++ during s ++ after s.

(** The text of a list of pieces put end to end. *)
Fixpoint glue (cs : list string) : string :=
  match cs with
  | [] => EmptyString
  | c :: cs' => String.append c (glue cs')
  end.

(** The [token] of each [stream-token] event, in order. *)
Fixpoint tokens (ds : list Dispatched) : list string :=
  match ds with
  | [] => []
  | DUi (StreamToken _ token) :: ds' => token :: tokens ds'
  | _ :: ds' => tokens ds'
  end.

End LlmAdapter.

(* ====================================================================== *)
(** * Filesystem port (src/drivers/fs-port.ts, class FsPort) *)
(* ====================================================================== *)

Module FsPort.

Local Open Scope string_scope.

(** ** POSIX [node:path]: [join] and [resolve] *)

(** The pieces of a path between its slashes. *)
Fixpoint splitSlash (s : string) (cur : string) : list string :=
  match s with
  | EmptyString => [cur]
  | String c s' =>
      if Ascii.eqb c "/"%char then cur :: splitSlash s' ""
      else splitSlash s' (cur ++ String c EmptyString)
  end.

(** One segment pushed on the (reversed) stack of kept segments. *)
Definition pushSegment (allowAboveRoot : bool) (acc : list string)
           (seg : string) : list string :=
  if String.eqb seg "" || String.eqb seg "." then acc
  else if String.eqb seg ".." then
    match acc with
    | [] => if allowAboveRoot then [".."] else []
    | top :: rest =>
        if String.eqb top ".."
        then (if allowAboveRoot then ".." :: acc else acc)
        else rest
    end
  else seg :: acc.

(** Resolution of [.] and [..] segments. *)
Definition normalizeSegments (allowAboveRoot : bool) (p : string) : list string :=
  rev (fold_left (pushSegment allowAboveRoot) (splitSlash p "") []).

Definition isAbsolute (p : string) : bool :=
  match p with String c _ => Ascii.eqb c "/"%char | EmptyString => false end.

Fixpoint endsWithSlash (p : string) : bool :=
  match p with
  | EmptyString => false
  | String c EmptyString => Ascii.eqb c "/"%char
  | String _ p' => endsWithSlash p'
  end.

(** [path.normalize] *)
Definition normalize (p : string) : string :=
  if negb (nonEmpty p) then "."
  else
    let body := String.concat "/" (normalizeSegments (negb (isAbsolute p)) p) in
    if negb (nonEmpty body) then
      (if isAbsolute p then "/" else if endsWithSlash p then "./" else ".")
    else
      let body' := if endsWithSlash p then body ++ "/" else body in
      if isAbsolute p then "/" ++ body' else body'.

(** [path.join(...parts)] *)
Definition join (parts : list string) : string :=
  match filter nonEmpty parts with
  | [] => "."
  | kept => normalize (String.concat "/" kept)
  end.

(** [path.resolve(p)], the working directory [cwd] being an absolute path. *)
Definition resolve (cwd : string) (p : string) : string :=
  let abs := if isAbsolute p then p else cwd ++ "/" ++ p in
  "/" ++ String.concat "/" (normalizeSegments false abs).

(** ** The directory tree the port works on

    A tree of directories and regular files: no symbolic links, no limit on
    the length of a name or of a path, and every entry readable and
    writable.  The texts of the errors are those of [node:fs] on Linux. *)

Record FS : Type := mkFS {
  dirs : list string;                (* directories besides the root [/] *)
  files : list (string * string)     (* path and content of each file *)
}.

Definition isDir (t : FS) (p : string) : bool :=
  String.eqb p "/" || existsb (String.eqb p) (dirs t).

Fixpoint lookupFile (fl : list (string * string)) (p : string) : option string :=
  match fl with
  | [] => None
  | (q, c) :: fl' => if String.eqb q p then Some c else lookupFile fl' p
  end.

Fixpoint putFile (fl : list (string * string)) (p c : string)
  : list (string * string) :=
  match fl with
  | [] => [(p, c)]
  | (q, d) :: fl' =>
      if String.eqb q p then (p, c) :: fl' else (q, d) :: putFile fl' p c
  end.

Definition isFile (t : FS) (p : string) : bool :=
  match lookupFile (files t) p with Some _ => true | None => false end.

(** Outcome of a call to [node:fs]: the value, or the thrown message. *)
Inductive Io (A : Type) : Type :=
  | Done (a : A)
  | Raised (message : string).
Arguments Done {A}.
Arguments Raised {A}.

(** The absolute paths of a directory and of all its ancestors, top first. *)
Fixpoint ancestors (prefix : string) (segs : list string) : list string :=
  match segs with
  | [] => []
  | seg :: segs' =>
      let here := prefix ++ "/" ++ seg in
      here :: ancestors here segs'
  end.

(** One of the directories a path goes through is a regular file. *)
Definition underFile (t : FS) (p : string) : bool :=
  existsb (isFile t) (removelast (ancestors "" (normalizeSegments false p))).

(** [fs.readFile(p, "utf8")] *)
Definition readFile (t : FS) (p : string) : Io string :=
  if isDir t p then Raised "EISDIR: illegal operation on a directory, read"
  else match lookupFile (files t) p with
       | Some c => Done c
       | None =>
           if underFile t p
           then Raised ("ENOTDIR: not a directory, open '" ++ p ++ "'")
           else Raised ("ENOENT: no such file or directory, open '" ++ p ++ "'")
       end.

(** [fs.mkdir(target, { recursive: true })], directory by directory. *)
Fixpoint mkdirAll (t : FS) (target : string) (paths : list string) : Io FS :=
  match paths with
  | [] => Done t
  | p :: paths' =>
      if isFile t p
      then match paths' with
           | [] => Raised ("EEXIST: file already exists, mkdir '" ++ target ++ "'")
           | _ => Raised ("ENOTDIR: not a directory, mkdir '" ++ target ++ "'")
           end
      else if isDir t p then mkdirAll t target paths'
      else mkdirAll (mkFS (dirs t ++ [p])%list (files t)) target paths'
  end.

Definition mkdir (t : FS) (p : string) : Io FS :=
  mkdirAll t p (ancestors "" (normalizeSegments false p)).

(** The directory a path lies in. *)
Definition dirname (p : string) : string :=
  "/" ++ String.concat "/" (removelast (normalizeSegments false p)).

Definition storeFile (t : FS) (p : string) (f : option string -> string) : Io FS :=
  if isDir t p
  then Raised ("EISDIR: illegal operation on a directory, open '" ++ p ++ "'")
  else if underFile t p
  then Raised ("ENOTDIR: not a directory, open '" ++ p ++ "'")
  else if negb (isDir t (dirname p))
  then Raised ("ENOENT: no such file or directory, open '" ++ p ++ "'")
  else Done (mkFS (dirs t) (putFile (files t) p (f (lookupFile (files t) p)))).

(** [fs.writeFile(p, content, "utf8")] *)
Definition writeFile (t : FS) (p content : string) : Io FS :=
  storeFile t p (fun _ => content).

(** [fs.appendFile(p, content, "utf8")] *)
Definition appendFile (t : FS) (p content : string) : Io FS :=
  storeFile t p (fun old => match old with Some c => c ++ content | None => content end).

(** ** The port *)

(** The destructured argument object [{ op, path, content }]. *)
Record Args : Type := mkArgs {
  op : string;
  path : string;
  content : option string
}.

Record ToolOut : Type := mkOut { ok : bool; data : string }.

Section Port.

Variable cwd : string.   (* [process.cwd()], absolute *)
Variable root : string.  (* [this.root] *)

(** [safe(p)]: the full path, or the message of the error thrown. *)
Definition safe (p : string) : Io string :=
  let full := resolve cwd (join [root; p]) in
  if negb (String.prefix (resolve cwd root) full)
  then Raised "path escapes workspace"
  else Done full.

(** [String(content ?? "")] *)
Definition text (c : option string) : string :=
  match c with Some s => s | None => "" end.

(** [run(args)]: the tree afterwards and the result object. *)
Definition run (args : Args) (t : FS) : FS * ToolOut :=
  if String.eqb (op args) "read" then
    match safe (path args) with
    | Raised m => (t, mkOut false m)
    | Done full =>
        match readFile t full with
        | Done c => (t, mkOut true c)
        | Raised m => (t, mkOut false m)
        end
    end
  else if String.eqb (op args) "write" then
    match mkdir t (resolve cwd (join [root; path args; ".."])) with
    | Raised m => (t, mkOut false m)
    | Done t1 =>
        match safe (path args) with
        | Raised m => (t1, mkOut false m)
        | Done full =>
            match writeFile t1 full (text (content args)) with
            | Done t2 => (t2, mkOut true "ok")
            | Raised m => (t1, mkOut false m)
            end
        end
    end
  else if String.eqb (op args) "append" then
    match safe (path args) with
    | Raised m => (t, mkOut false m)
    | Done full =>
        match appendFile t full (text (content args)) with
        | Done t1 => (t1, mkOut true "ok")
        | Raised m => (t, mkOut false m)
        end
    end
  else (t, mkOut false "unsupported fs op").

(** The path resolved for an argument path. *)
Definition fullPath (p : string) : string := resolve cwd (join [root; p]).

(** A path lies in the root directory when it is the root or below it. *)
Definition insideRoot (full : string) : bool :=
  let r := resolve cwd root in
  String.eqb r "/" || String.eqb full r || String.prefix (r ++ "/") full.

End Port.

End FsPort.

(* ====================================================================== *)
(** * Planner agent (src/actors/builder-agent.ts, class BuilderAgent) *)
(* ====================================================================== *)

Module BuilderAgent.

Local Open Scope string_scope.

(** The validated planner contract ([PlannerMsg], [PlannerTurn]). *)
Inductive PlannerMsg : Type :=
  | MStep (step : nat) (goal : string) (say : option string)
  | MAction (step : nat) (toolcall_id : string) (tool : Tools)
            (args : ToolArgs) (say : option string)
  | MDeliverable (step : nat) (kind : DeliverableKind) (value : string)
                 (meta : option Json) (say : option string)
  | MFinal (step : nat) (summary : string)
           (deliverables : list (DeliverableKind * string)).

Record PlannerTurn : Type := mkTurn { message : PlannerMsg }.

Inductive Role : Type := system | user | assistant.

(** [m.role.toUpperCase()] *)
Definition upper (r : Role) : string :=
  match r with
  | system => "SYSTEM"
  | user => "USER"
  | assistant => "ASSISTANT"
  end.

Record Entry : Type := mkEntry { role : Role; content : string }.

Definition MAX_STEPS : nat := 12.
Definition MAX_REPAIRS : nat := 2.

(** What the agent does to the outside world, in order: events handed to
    [onUpdate], effects handed to [submitEffect], and calls of [llmOnce]
    (each call is given the next number, by which its promise is known). *)
Inductive Out : Type :=
  | OUi (u : AgentUiEvent)
  | OEffect (e : Effect)
  | OLlmOnce (call : nat) (prompt target : string).

(** Where an activation of [loop()] waits for the model. *)
Inductive Await : Type :=
  | AwaitRaw                                   (* [await this.llmOnce(prompt, id)] *)
  | AwaitRepair (i : nat) (lastErr : string).  (* [raw = await ask(lastErr)] *)

Record Agent : Type := mkAgent {
  id : string;
  interrupted : bool;
  steps : nat;
  currentReqId : option string;
  convo : list Entry;
  out : list Out;                   (* everything done so far *)
  pending : list (nat * Await);     (* suspended activations, newest first *)
  nextCall : nat
}.

Section Planner.

(** The text of the system prompt. *)
Variable SYSTEM : string.

(** [PlannerTurn.parse(JSON.parse(raw))]: the validated turn, or the hint
    computed from the error ([JSON.stringify(err.issues, null, 2)] or the
    error's message). *)
Variable parseTurn : string -> PlannerTurn + string.

(** [JSON.stringify(turn.message)] *)
Variable stringify : PlannerMsg -> string.

(** [String.prototype.trim] *)
Variable trim : string -> string.

(** [new BuilderAgent(id, submitEffect, llmOnce, onUpdate)] *)
Definition init (agentId : string) : Agent :=
  mkAgent agentId false 0 None [mkEntry system SYSTEM] [] [] 0.

Definition emit (o : Out) (a : Agent) : Agent :=
  mkAgent (id a) (interrupted a) (steps a) (currentReqId a) (convo a)
          (out a ++ [o])%list (pending a) (nextCall a).

(** [this.onUpdate(evt)] *)
Definition onUpdate (u : AgentUiEvent) (a : Agent) : Agent := emit (OUi u) a.

(** [this.submitEffect(e)] *)
Definition submitEffect (e : Effect) (a : Agent) : Agent := emit (OEffect e) a.

(** [this.convo.push({ role, content })] *)
Definition push (r : Role) (c : string) (a : Agent) : Agent :=
  mkAgent (id a) (interrupted a) (steps a) (currentReqId a)
          (convo a ++ [mkEntry r c])%list (out a) (pending a) (nextCall a).

Definition setReq (r : option string) (a : Agent) : Agent :=
  mkAgent (id a) (interrupted a) (steps a) r (convo a) (out a)
          (pending a) (nextCall a).

Definition setSteps (n : nat) (a : Agent) : Agent :=
  mkAgent (id a) (interrupted a) n (currentReqId a) (convo a) (out a)
          (pending a) (nextCall a).

Definition setInterrupted (b : bool) (a : Agent) : Agent :=
  mkAgent (id a) b (steps a) (currentReqId a) (convo a) (out a)
          (pending a) (nextCall a).

(** [this.llmOnce(prompt, this.id)], awaited at [w]. *)
Definition llmOnce (prompt : string) (w : Await) (a : Agent) : Agent :=
  let a1 := emit (OLlmOnce (nextCall a) prompt (id a)) a in
  mkAgent (id a1) (interrupted a1) (steps a1) (currentReqId a1) (convo a1)
          (out a1) ((nextCall a, w) :: pending a1) (S (nextCall a)).

(** [emitPlanningStop(reason, detail)] *)
Definition emitPlanningStop (reason : StopReason) (detail : option string)
           (a : Agent) : Agent :=
  match currentReqId a with
  | Some r =>
      if nonEmpty r
      then setReq None (onUpdate (PlanningStop (id a) r reason (spread detail)) a)
      else a
  | None => a
  end.

(** What [emitPlanningStop] adds to the trace: nothing unless a request
    id is held and is not the empty string. *)
Definition stopEvents (a : Agent) (reason : StopReason) (detail : option string)
  : list Out :=
  match currentReqId a with
  | Some r =>
      if nonEmpty r then [OUi (PlanningStop (id a) r reason (spread detail))]
      else []
  | None => []
  end.

(** [interrupt()] *)
Definition interrupt (a : Agent) : Agent := setInterrupted true a.

(** [this.convo.map(m => `${m.role.toUpperCase()}: ${m.content}`).join("\n\n")] *)
Definition render (c : list Entry) : string :=
  String.concat (nl ++ nl)
    (map (fun m => upper (role m) ++ ": " ++ content m) c).

Definition envelope : string :=
  "{" ++ dq ++ "schema_version" ++ dq ++ ":1," ++ dq ++ "message" ++ dq ++ ":{...}}".

Definition loopPrompt (c : list Entry) : string :=
  render c ++ nl ++ nl ++ "Return ONLY JSON: " ++ envelope
  ++ " matching the schema exactly.".

Definition repairMsg (repairHint : string) : string :=
  "Your last response was invalid." ++ nl
  ++ "Validation error(s):" ++ nl ++ repairHint ++ nl ++ nl
  ++ "Re-emit ONLY a correct JSON object: " ++ envelope ++ ". No extra text.".

Definition repairPrompt (c : list Entry) : string :=
  render c ++ nl ++ nl ++ "Return ONLY JSON matching the schema.".

(** [loop()] up to its first suspension. *)
Definition loop (a : Agent) : Agent :=
  if interrupted a then
    emitPlanningStop RInterrupted None (onUpdate (StatusEv SInterrupted) a)
  else if Nat.leb MAX_STEPS (steps a) then
    emitPlanningStop RMaxSteps
      (Some ("Reached " ++ decimal MAX_STEPS ++ " planner steps"))
      (onUpdate (StatusEv SMaxSteps) a)
  else
    let a1 := setSteps (S (steps a)) a in
    llmOnce (loopPrompt (convo a1)) AwaitRaw a1.

(** [handleMessage(msg)] *)
Definition handleMessage (msg : PlannerMsg) (a : Agent) : Agent :=
  match msg with
  | MStep step goal say =>
      loop (onUpdate (StepEv step goal (spread say)) a)
  | MAction step toolcall_id tool args say =>
      submitEffect (ToolCall tool args (id a))
        (onUpdate (ActionEv step tool toolcall_id args (spread say)) a)
  | MDeliverable step kind value meta say =>
      loop (onUpdate (DeliverableEv step kind value meta (spread say)) a)
  | MFinal step summary deliverables =>
      emitPlanningStop RFinal None
        (onUpdate (FinalEv step (trim summary) deliverables) a)
  end.

(** The handler of a failed planner round: [kind: "error", phase: "planner"]
    followed by [emitPlanningStop("error", message)]. *)
Definition plannerError (message : string) (a : Agent) : Agent :=
  emitPlanningStop RError (Some message)
    (onUpdate (ErrorEv PhPlanner message) a).

(** The rest of [loop()] once [parseOrRepair] has returned [turn]. *)
Definition accepted (turn : PlannerTurn) (a : Agent) : Agent :=
  handleMessage (message turn)
    (push assistant (stringify (message turn)) a).

(** [parseOrRepair] has thrown [new Error(lastErr || "unknown validation
    error")]: the [catch] of [loop()]. *)
Definition exhausted (lastErr : string) (a : Agent) : Agent :=
  plannerError
    ("planner output invalid: "
     ++ (if nonEmpty lastErr then lastErr else "unknown validation error")) a.

(** The callback [ask] given to [parseOrRepair], called at iteration [i]. *)
Definition ask (i : nat) (repairHint : string) (a : Agent) : Agent :=
  let a1 := push user (repairMsg repairHint) a in
  llmOnce (repairPrompt (convo a1)) (AwaitRepair i repairHint) a1.

(** One iteration of the [for] loop of [parseOrRepair], entered with
    counter [i] and text [raw], up to the next suspension. *)
Definition parseOrRepair (i : nat) (lastErr raw : string) (a : Agent) : Agent :=
  if Nat.leb i MAX_REPAIRS then
    match parseTurn raw with
    | inl turn => accepted turn a
    | inr hint =>
        let lastErr' := slice0 2000 hint in
        if Nat.eqb i MAX_REPAIRS then exhausted lastErr' a
        else ask i lastErr' a
    end
  else exhausted lastErr a.

Fixpoint lookup (c : nat) (p : list (nat * Await)) : option Await :=
  match p with
  | [] => None
  | (k, w) :: p' => if Nat.eqb k c then Some w else lookup c p'
  end.

Fixpoint remove (c : nat) (p : list (nat * Await)) : list (nat * Await) :=
  match p with
  | [] => []
  | (k, w) :: p' => if Nat.eqb k c then p' else (k, w) :: remove c p'
  end.

Definition setPending (p : list (nat * Await)) (a : Agent) : Agent :=
  mkAgent (id a) (interrupted a) (steps a) (currentReqId a) (convo a) (out a)
          p (nextCall a).

(** The promise of call [c] is resolved with [text].  When [parseOrRepair]
    returns or throws, [loop()] continues two promise hops later; nothing
    between the resolution and that continuation reads or writes the agent,
    so the hops are part of this one transition. *)
Definition llmResolved (c : nat) (text : string) (a : Agent) : Agent :=
  match lookup c (pending a) with
  | None => a
  | Some AwaitRaw =>
      parseOrRepair 0 "" text (setPending (remove c (pending a)) a)
  | Some (AwaitRepair i lastErr) =>
      parseOrRepair (S i) lastErr text (setPending (remove c (pending a)) a)
  end.

(** The promise of call [c] is rejected; [message] is
    [String(e?.message ?? e)]. *)
Definition llmRejected (c : nat) (message : string) (a : Agent) : Agent :=
  match lookup c (pending a) with
  | None => a
  | Some AwaitRaw =>
      plannerError message (setPending (remove c (pending a)) a)
  | Some (AwaitRepair _ _) =>
      plannerError ("planner output invalid: " ++ message)
        (setPending (remove c (pending a)) a)
  end.

(** [on(event)], at clock reading [now]. *)
Definition on (event : Event) (now : nat) (a : Agent) : Agent :=
  match event with
  | UserInput text target reqId =>
      if String.eqb target (id a) then
        let requestId :=
          match reqId with Some r => r | None => "turn-" ++ decimal now end in
        let a1 := setReq (Some requestId) a in
        let a2 := push user text a1 in
        let a3 := setInterrupted false (setSteps 0 a2) in
        let a4 := onUpdate (UserTurn (id a) requestId text) a3 in
        let a5 := onUpdate (PlanningStart (id a) requestId) a4 in
        loop a5
      else a
  | ToolResult target tool _ ok data =>
      if String.eqb target (id a) then
        let truncated := slice0 2000 data in
        let a1 :=
          push user
            ("TOOL(" ++ tool ++ ") -> " ++ (if ok then "ok" else "error")
             ++ nl ++ truncated) a in
        let a2 := onUpdate (Observation tool ok truncated) a1 in
        loop a2
      else a
  | LlmError error target _ =>
      if String.eqb target (id a) then
        emitPlanningStop RError (Some error)
          (onUpdate (ErrorEv PhLlm error) a)
      else a
  | _ => a
  end.

(** Everything that can happen to an agent. *)
Inductive Input : Type :=
  | IOn (event : Event) (now : nat)
  | IInterrupt
  | ILlmResolved (call : nat) (text : string)
  | ILlmRejected (call : nat) (message : string).

Definition step (a : Agent) (i : Input) : Agent :=
  match i with
  | IOn event now => on event now a
  | IInterrupt => interrupt a
  | ILlmResolved c text => llmResolved c text a
  | ILlmRejected c message => llmRejected c message a
  end.

Definition run (a : Agent) (inputs : list Input) : Agent :=
  fold_left step inputs a.

End Planner.

(** The presentation events of a trace. *)
Fixpoint uiEvents (o : list Out) : list AgentUiEvent :=
  match o with
  | [] => []
  | OUi u :: o' => u :: uiEvents o'
  | _ :: o' => uiEvents o'
  end.

(** The numbers of the model calls of a trace. *)
Fixpoint modelCalls (o : list Out) : list nat :=
  match o with
  | [] => []
  | OLlmOnce c _ _ :: o' => c :: modelCalls o'
  | _ :: o' => modelCalls o'
  end.

Definition isPlanningStop (u : AgentUiEvent) : bool :=
  match u with PlanningStop _ _ _ _ => true | _ => false end.

(** Reading a trace of presentation events turn by turn: [active] is the
    request id of the turn opened by the last [user-turn] event and not
    yet closed by a [planning-stop].  The result is [None] as soon as a
    [planning-stop] appears that does not close the open turn. *)
Fixpoint turns (active : option string) (us : list AgentUiEvent)
  : option (option string) :=
  match us with
  | [] => Some active
  | UserTurn _ r _ :: us' => turns (Some r) us'
  | PlanningStop _ r _ _ :: us' =>
      match active with
      | Some r' => if String.eqb r r' then turns None us' else None
      | None => None
      end
  | _ :: us' => turns active us'
  end.

Definition isUserTurn (u : AgentUiEvent) : bool :=
  match u with UserTurn _ _ _ => true | _ => false end.

(** Outputs that neither open nor close a turn. *)
Definition neutral (o : Out) : bool :=
  match o with
  | OUi (UserTurn _ _ _) => false
  | OUi (PlanningStop _ _ _ _) => false
  | _ => true
  end.

(** A request id [req] held by the agent and a trace [o] agree when the
    trace reads turn by turn and, if [req] is a non-empty id, the turn left
    open by the trace is the one of [req]. *)
Definition agree (req : option string) (o : list Out) : Prop :=
  match turns None (uiEvents o) with
  | Some active => truthy req = true -> active = req
  | None => False
  end.

Definition disciplined (a : Agent) : Prop := agree (currentReqId a) (out a).

(** Number of turns left open: one or none. *)
Definition openTurns (active : option string) : nat :=
  match active with Some _ => 1 | None => 0 end.

(** The inputs by which the model answers calls [c], [c + 1], ... *)
Fixpoint answers (c : nat) (texts : list string) : list Input :=
  match texts with
  | [] => []
  | text :: texts' => ILlmResolved c text :: answers (S c) texts'
  end.

Definition isStepEv (u : AgentUiEvent) : bool :=
  match u with StepEv _ _ _ => true | _ => false end.

(** An agent whose only business, besides the activations in [p], is a
    round of [loop()] awaiting the first text of call [c], the step counter
    standing at [k]. *)
Definition awaitingRound (b : Agent) (c k : nat) (p : list (nat * Await)) : Prop :=
  interrupted b = false
  /\ steps b = k
  /\ pending b = (c, AwaitRaw) :: p
  /\ nextCall b = S c.

(** A text that validates as a [step] message. *)
Definition stepText (parseTurn : string -> PlannerTurn + string) (text : string)
  : Prop :=
  exists step goal say, parseTurn text = inl (mkTurn (MStep step goal say)).

(** The request id a [UserInput] event opens a turn with. *)
Definition requestIdOf (reqId : option string) (now : nat) : string :=
  match reqId with
  | Some r => r
  | None => String.append "turn-" (decimal now)
  end.

(** Stand-ins for the library functions the agent is parameterised by, to
    run it on concrete inputs. *)
Module Sample.

(** A validator that accepts nothing. *)
Definition rejectAll : string -> PlannerTurn + string :=
  fun _ => inr "Unexpected token".

(** A validator for a model that always plans one more step. *)
Definition alwaysStep : string -> PlannerTurn + string :=
  fun _ => inl (mkTurn (MStep 1 "plan" None)).

Definition stringify : PlannerMsg -> string := fun _ => "{}".

Definition trim : string -> string := fun s => s.

Definition SYSTEM : string := "You are a self-building agent.".

End Sample.

End BuilderAgent.

(* ====================================================================== *)
(** * Event-stream framing (src/drivers/sse.ts) *)
(* ====================================================================== *)

Module Sse.

Local Open Scope string_scope.

(** The blank line that ends a frame. *)
Definition separator : string := String.append nl nl.

(** [s.indexOf(needle)] *)
Fixpoint indexOf (needle s : string) : option nat :=
  if String.prefix needle s then Some 0
  else match s with
       | EmptyString => None
       | String _ s' => option_map S (indexOf needle s')
       end.

(** [s.slice(n)] *)
Fixpoint sliceFrom (n : nat) (s : string) : string :=
  match n, s with
  | O, _ => s
  | S n', String _ s' => sliceFrom n' s'
  | S _, EmptyString => EmptyString
  end.

(** The inner [while] loop: the frames cut off the front of [buf] and what
    is left of it.  Every turn of the loop shortens [buf], so [fuel] turns
    are enough when [fuel] is the length of [buf]. *)
Fixpoint cutFrames (fuel : nat) (buf : string) : list string * string :=
  match fuel with
  | O => ([], buf)
  | S fuel' =>
      match indexOf separator buf with
      | None => ([], buf)
      | Some idx =>
          let chunk := slice0 idx buf in
          let (chunks, rest) := cutFrames fuel' (sliceFrom (idx + 2) buf) in
          (chunk :: chunks, rest)
      end
  end.

(** The inner loop run on [buf]. *)
Definition cut (buf : string) : list string * string :=
  cutFrames (String.length buf) buf.

Record State : Type := mkState {
  yielded : list string;   (* what the generator has yielded so far *)
  buf : string
}.

(** One turn of the outer loop: [piece] is the text decoded from the bytes
    just read. *)
Definition read (st : State) (piece : string) : State :=
  let (chunks, rest) := cut (buf st ++ piece) in
  mkState (yielded st ++ chunks)%list rest.

(** [sseToAsyncIterable(stream)]: everything the generator yields when the
    stream delivers the pieces [pieces] and then ends. *)
Definition sseToAsyncIterable (pieces : list string) : list string :=
  let st := fold_left read pieces (mkState [] "") in
  (yielded st ++ (if nonEmpty (buf st) then [buf st] else []))%list.

End Sse.

(* ====================================================================== *)
(** * HTTP port (src/drivers/http-port.ts, class HttpPort) *)
(* ====================================================================== *)

Module HttpPort.

Local Open Scope string_scope.

(** The destructured argument object [{ url, method, headers, body }];
    [None] is a missing property. *)
Record Args : Type := mkArgs {
  url : option string;
  method : option string;
  headers : option Json;
  body : option Json
}.

(** What is handed to [fetch]. *)
Record Request : Type := mkRequest {
  reqUrl : string;
  reqMethod : string;
  reqHeaders : Json;
  reqBody : option string        (* [None] is [null] *)
}.

(** What [fetch] followed by [res.text()] comes to: a response with its
    [ok] flag and its text, or the message of the error thrown. *)
Inductive Fetched : Type :=
  | Responded (ok : bool) (text : string)
  | Failed (message : string).

(** [/^https?:\/\//.test(url)] *)
Definition hasScheme (u : string) : bool :=
  String.prefix "http://" u || String.prefix "https://" u.

Section Port.

Variable fetch : Request -> Fetched.

(** [body ? JSON.stringify(body) : null] *)
Variable bodyText : option Json -> option string.

(** [run(args)]: the requests issued and the result object. *)
Definition run (args : Args) : list Request * FsPort.ToolOut :=
  (* a missing [url] is tested as the text "undefined" *)
  let u := match url args with Some u => u | None => "undefined" end in
  if negb (hasScheme u) then ([], FsPort.mkOut false "invalid url")
  else
    let req :=
      mkRequest u
        (match method args with Some m => m | None => "GET" end)
        (match headers args with Some h => h | None => mkJson "{}" end)
        (bodyText (body args)) in
    match fetch req with
    | Responded ok text => ([req], FsPort.mkOut ok text)
    | Failed message => ([req], FsPort.mkOut false message)
    end.

End Port.

End HttpPort.

(* ====================================================================== *)
(** * Tool-call adapter (src/runtime/tools-adapter.ts, class ToolsAdapter) *)
(* ====================================================================== *)

Module ToolsAdapter.

Local Open Scope string_scope.

Section Adapter.

(** What the ports act on. *)
Variable World : Type.

(** src/drivers/tools-port.ts *)
Record ToolPort : Type := mkPort {
  name : string;
  run : ToolArgs -> World -> World * FsPort.ToolOut
}.

(** [Map<string, ToolPort>] *)
Definition Registry : Type := list (string * ToolPort).

(** [registry.get(key)] *)
Fixpoint get (key : string) (reg : Registry) : option ToolPort :=
  match reg with
  | [] => None
  | (k, port) :: reg' => if String.eqb k key then Some port else get key reg'
  end.

(** [registry.set(key, port)] *)
Fixpoint set (key : string) (port : ToolPort) (reg : Registry) : Registry :=
  match reg with
  | [] => [(key, port)]
  | (k, p) :: reg' =>
      if String.eqb k key then (key, port) :: reg'
      else (k, p) :: set key port reg'
  end.

(** [register(port)] *)
Definition register (port : ToolPort) (reg : Registry) : Registry :=
  set (name port) port reg.

(** The value of type [Tools] as the string it is. *)
Definition toolName (t : Tools) : string :=
  match t with fs => "fs" | http => "http" end.

(** What [submit] does: nothing, or one event dispatched at once, or one
    task enqueued, whose [run] changes the world and dispatches one event. *)
Inductive Submitted : Type :=
  | Ignored
  | Dispatch (e : Event)
  | Enqueue (task : Scheduler.Task) (lane : Scheduler.Lane)
            (prio : Scheduler.Prio) (body : World -> World * Event).

(** [submit(eff)], at clock reading [now]. *)
Definition submit (reg : Registry) (now : nat) (eff : Effect) : Submitted :=
  match eff with
  | LlmGenerate _ _ => Ignored
  | ToolCall tool args target =>
      match get (toolName tool) reg with
      | None =>
          Dispatch (ToolResult target (toolName tool) None false "unknown tool")
      | Some port =>
          Enqueue
            (Scheduler.mkTask ("tool-" ++ toolName tool ++ "-" ++ decimal now))
            Scheduler.LDomain Scheduler.PMedium
            (fun w =>
               let (w', out) := run port args w in
               (w', ToolResult target (toolName tool) None
                      (FsPort.ok out) (FsPort.data out)))
      end
  end.

(** The effect of [submit] on the scheduler and the events dispatched
    before it returns. *)
Definition perform (sub : Submitted) (s : Scheduler.t) : Scheduler.t * list Event :=
  match sub with
  | Ignored => (s, [])
  | Dispatch e => (s, [e])
  | Enqueue task lane prio _ => (Scheduler.enqueue task prio lane s, [])
  end.

End Adapter.

Arguments mkPort {World}.
Arguments name {World}.
Arguments run {World}.
Arguments get {World}.
Arguments set {World}.
Arguments register {World}.
Arguments Ignored {World}.
Arguments Dispatch {World}.
Arguments Enqueue {World}.
Arguments submit {World}.
Arguments perform {World}.

(** The filesystem port as a tool port: [run] destructures [op], [path] and
    [content] from whatever argument object it is given. *)
Definition fsPort (cwd root : string) : ToolPort FsPort.FS :=
  mkPort "fs"
    (fun args t =>
       match args with
       | FsArgsOf op path content =>
           FsPort.run cwd root (FsPort.mkArgs op path content) t
       | HttpArgsOf _ _ _ _ =>
           (* no [op]: none of the three comparisons holds *)
           (t, FsPort.mkOut false "unsupported fs op")
       end).

End ToolsAdapter.

(* ====================================================================== *)
(** * Router (router.ts, class Router) *)
(* ====================================================================== *)

Module Router.

Local Open Scope string_scope.

Section Actors.

(** The state of an actor object; [on] is its event handler. *)
Variable A : Type.
Variable on : Event -> A -> A.

(** [Map<ActorId, Actor>]: the actor objects by id. *)
Definition Actors : Type := list (string * A).

Fixpoint get (id : string) (actors : Actors) : option A :=
  match actors with
  | [] => None
  | (k, a) :: actors' => if String.eqb k id then Some a else get id actors'
  end.

Fixpoint set (id : string) (a : A) (actors : Actors) : Actors :=
  match actors with
  | [] => [(id, a)]
  | (k, b) :: actors' =>
      if String.eqb k id then (id, a) :: actors'
      else (k, b) :: set id a actors'
  end.

(** [register(actor)] for an actor whose [id] is [id]. *)
Definition register (id : string) (a : A) (actors : Actors) : Actors :=
  set id a actors.

(** [evt.target], for the variants that have one. *)
Definition targetOf (evt : Event) : option string :=
  match evt with
  | EStart _ => None
  | TokenChunk _ target _ => Some target
  | LlmComplete target _ => Some target
  | LlmCanceled target _ => Some target
  | LlmError _ target _ => Some target
  | UserInput _ target _ => Some target
  | ToolResult target _ _ _ _ => Some target
  end.

Inductive Dispatched : Type :=
  | Delivered (actors : Actors)
  | Thrown (message : string).

(** [dispatch(evt)]: the actors afterwards, the addressed one having
    handled the event, or the error thrown. *)
Definition dispatch (evt : Event) (actors : Actors) : Dispatched :=
  match targetOf evt with
  | None => Delivered actors
  | Some target =>
      match get target actors with
      | None => Thrown ("Actor not found: " ++ target)
      | Some a => Delivered (set target (on evt a) actors)
      end
  end.

End Actors.

Arguments get {A}.
Arguments set {A}.
Arguments register {A}.
Arguments Delivered {A}.
Arguments Thrown {A}.
Arguments dispatch {A}.

End Router.

(* ====================================================================== *)
(** * Runtime life cycle (src/runtime.ts, class Runtime) *)
(* ====================================================================== *)

Module Runtime.

Inductive Status : Type := idle | running.

(** The two fields [start()] and [stop()] work on. *)
Record t : Type := mk {
  status : Status;
  scheduler : Scheduler.t
}.

(** [start()]: the promise returned by [scheduler.start()] is dropped, a
    rejection included. *)
Definition start (r : t) : t :=
  match status r with
  | running => r
  | idle => mk running (Scheduler.step (scheduler r) Scheduler.AStart)
  end.

(** [stop()] *)
Definition stop (r : t) : t :=
  match status r with
  | running => mk idle (Scheduler.stop (scheduler r))
  | idle => r
  end.

End Runtime.

(* ====================================================================== *)
(** * Model port of the Responses API (drivers/openai-port.ts) *)
(* ====================================================================== *)

Module OpenAIPort.

Local Open Scope string_scope.

(** What the port makes of the [data] of a line: the outcome of
    [JSON.parse(data)] and of the tests on the event, in their order. *)
Inductive Reading : Type :=
  | Unparsable                        (* [JSON.parse] throws: the line is skipped *)
  | ProviderError (message : string)  (* an [error] or [response.failed] event *)
  | Delta (text : string)             (* one of the four forms of a text delta *)
  | Lifecycle.                        (* anything else *)

(** What [fetch] comes to. *)
Inductive Response : Type :=
  | Unreachable (message : string)    (* [fetch] throws *)
  | Refused (status : nat) (detail : string)
                                      (* [!res.ok || !res.body]; [detail] is
                                         [await res.text().catch(() => "")] *)
  | Streaming (pieces : list string) (failure : option string).
                                      (* the texts decoded from the reads, and
                                         the error of the read that throws
                                         after them, if one does *)

(** How the processing of some lines or frames ends: it goes on, the
    generator returns, or it throws. *)
Inductive Stop : Type :=
  | Go
  | Return
  | Raise (message : string).

Inductive Line : Type :=
  | Skip
  | Done
  | Throw (message : string)
  | Yield (text : string).

(** [frame.split("\n")] *)
Fixpoint splitLines (s : string) (cur : string) : list string :=
  match s with
  | EmptyString => [cur]
  | String c s' =>
      if Ascii.eqb c (ascii_of_nat 10) then cur :: splitLines s' ""
      else splitLines s' (cur ++ String c EmptyString)
  end.

Section Port.

(** [String.prototype.trim] *)
Variable trim : string -> string.

Variable interpret : string -> Reading.

(** The body of the [for] loop over the lines of a frame. *)
Definition readLine (rawLine : string) : Line :=
  let line := trim rawLine in
  if negb (String.prefix "data:" line) then Skip
  else
    let data := trim (Sse.sliceFrom 5 line) in
    if negb (nonEmpty data) then Skip
    else if String.eqb data "[DONE]" then Done
    else match interpret data with
         | Unparsable => Skip
         | ProviderError message => Throw message
         | Delta text => Yield text
         | Lifecycle => Skip
         end.

(** The [for] loop over the lines of a frame: what is yielded, and how the
    loop is left. *)
Fixpoint readLines (ls : list string) : list string * Stop :=
  match ls with
  | [] => ([], Go)
  | rawLine :: ls' =>
      match readLine rawLine with
      | Skip => readLines ls'
      | Done => ([], Return)
      | Throw message => ([], Raise message)
      | Yield text => let (ys, st) := readLines ls' in (text :: ys, st)
      end
  end.

Definition readFrame (frame : string) : list string * Stop :=
  readLines (splitLines frame "").

(** The inner [while] loop: frames are cut off the front of [buf] and read
    one after the other; [fuel] turns are enough when [fuel] is the length
    of [buf]. *)
Fixpoint pump (fuel : nat) (buf : string) : list string * Stop * string :=
  match fuel with
  | O => ([], Go, buf)
  | S fuel' =>
      match Sse.indexOf Sse.separator buf with
      | None => ([], Go, buf)
      | Some sep =>
          let frame := slice0 sep buf in
          let buf' := Sse.sliceFrom (sep + 2) buf in
          match readFrame frame with
          | (ys, Go) =>
              let '(ys', st, rest) := pump fuel' buf' in
              ((ys ++ ys')%list, st, rest)
          | (ys, st) => (ys, st, buf')
          end
      end
  end.

(** The outer loop over the reads. *)
Fixpoint readAll (pieces : list string) (buf : string) : list string * Stop :=
  match pieces with
  | [] => ([], Go)
  | piece :: pieces' =>
      let buf1 := buf ++ piece in
      match pump (String.length buf1) buf1 with
      | (ys, Go, rest) =>
          let (ys', st) := readAll pieces' rest in ((ys ++ ys')%list, st)
      | (ys, st, _) => (ys, st)
      end
  end.

(** What the consumer of the generator gets when the reading ended with
    [res] and the stream with [failure]. *)
Definition finish (res : list string * Stop) (failure : option string)
  : LlmAdapter.Generation :=
  match snd res with
  | Go => LlmAdapter.mkGen (fst res) failure
  | Return => LlmAdapter.mkGen (fst res) None
  | Raise message => LlmAdapter.mkGen (fst res) (Some message)
  end.

(** [generate(prompt)], given what [fetch] comes to: the texts yielded and
    the error thrown, if any.  The entries written to the log are left
    out. *)
Definition generate (r : Response) : LlmAdapter.Generation :=
  match r with
  | Unreachable message => LlmAdapter.mkGen [] (Some message)
  | Refused status detail =>
      LlmAdapter.mkGen []
        (Some ("OpenAI HTTP " ++ decimal status
               ++ (if nonEmpty detail then ": " ++ detail else "")))
  | Streaming pieces failure => finish (readAll pieces "") failure
  end.

(** Frames read one after the other, until one makes the generator return
    or throw. *)
Fixpoint readFrames (frames : list string) : list string * Stop :=
  match frames with
  | [] => ([], Go)
  | frame :: frames' =>
      match readFrame frame with
      | (ys, Go) =>
          let (ys', st) := readFrames frames' in ((ys ++ ys')%list, st)
      | (ys, st) => (ys, st)
      end
  end.

End Port.

End OpenAIPort.

(* ====================================================================== *)
(** * Presentation helpers (ui-messages.ts) *)
(* ====================================================================== *)

Module UiMessages.

Section Units.

(** A string as the sequence of its UTF-16 code units; [ellipsis] is the
    code unit U+2026. *)
Variable unit : Type.
Variable ellipsis : unit.

(** [truncate(value, max)], for [max] a natural number. *)
Definition truncate (value : list unit) (max : nat) : list unit :=
  if Nat.leb (List.length value) max then value
  else (firstn max value ++ [ellipsis])%list.

(** [truncate(value)]: [max] defaults to 1000. *)
Definition truncateDefault (value : list unit) : list unit :=
  truncate value 1000.

End Units.

Arguments truncate {unit}.
Arguments truncateDefault {unit}.

End UiMessages.

(* ====================================================================== *)
(** * Runs and measures used to state properties *)
(* ====================================================================== *)

Module Runs.

(** Activation [i] of the scheduler loop serving tasks one after the other:
    the promise of the task in flight settles (with the error given, if
    any) and the activation continues. *)
Definition serve (i : nat) (outcomes : list (option string))
  : list Scheduler.Action :=
  flat_map (fun err => [Scheduler.ASettle i err; Scheduler.AResume i]) outcomes.

(** Records of finished tasks ([end] or [error]) in a log. *)
Definition finished (lg : list Scheduler.LogRec) : list string :=
  map Scheduler.taskId
    (filter (fun r => match Scheduler.event r with
                      | Scheduler.LStart => false
                      | _ => true
                      end) lg).

(** The model calls a suspended activation of the agent's loop can still
    make by itself: the repairs it has left. *)
Definition repairsLeft (w : BuilderAgent.Await) : nat :=
  match w with
  | BuilderAgent.AwaitRaw => BuilderAgent.MAX_REPAIRS
  | BuilderAgent.AwaitRepair i _ => BuilderAgent.MAX_REPAIRS - S i
  end.

Definition owed (p : list (nat * BuilderAgent.Await)) : nat :=
  list_sum (map (fun kw => repairsLeft (snd kw)) p).

(** An upper bound on the model calls an agent can make before the next
    user input: those its suspended activations still owe, and a full round
    for every step left in the budget. *)
Definition budget (a : BuilderAgent.Agent) : nat :=
  owed (BuilderAgent.pending a)
  + (BuilderAgent.MAX_STEPS - BuilderAgent.steps a)
    * S BuilderAgent.MAX_REPAIRS.

(** Inputs that open a user turn of the agent [id]. *)
Definition opensTurn (id : string) (i : BuilderAgent.Input) : bool :=
  match i with
  | BuilderAgent.IOn (UserInput _ target _) _ => String.eqb target id
  | _ => false
  end.

(** The model calls an agent has made. *)
Definition calls (a : BuilderAgent.Agent) : nat :=
  List.length (BuilderAgent.modelCalls (BuilderAgent.out a)).

(** The model calls of a turn in which every round uses all its repairs. *)
Definition fullTurn : nat :=
  BuilderAgent.MAX_STEPS * S BuilderAgent.MAX_REPAIRS.

(** The user turns of the agent [id] that a sequence of inputs opens. *)
Definition userTurns (id : string) (inputs : list BuilderAgent.Input) : nat :=
  List.length (filter (opensTurn id) inputs).

(** What the agent [id] does addresses [id] itself: the tool calls it
    submits and the model calls it makes name it as their target, and it
    submits no effect of the [LlmGenerate] kind. *)
Definition addressed (id : string) (o : BuilderAgent.Out) : Prop :=
  match o with
  | BuilderAgent.OUi _ => True
  | BuilderAgent.OEffect (ToolCall _ _ target) => target = id
  | BuilderAgent.OEffect (LlmGenerate _ _) => False
  | BuilderAgent.OLlmOnce _ _ target => target = id
  end.

(** What holds between an agent and the same agent later, when no user
    turn was opened in between and [k] is what the model calls made in
    between were allowed to add: the transcript and the trace have only
    grown, no entry of the system role was added, what was done addresses
    the agent itself, calls and budget together
    have grown by [k] at most, and an agent that was interrupted still is,
    with the same step counter. *)
Definition advance (k : nat) (a a' : BuilderAgent.Agent) : Prop :=
  BuilderAgent.id a' = BuilderAgent.id a
  /\ (exists more,
         BuilderAgent.convo a' = (BuilderAgent.convo a ++ more)%list
         /\ Forall (fun e => BuilderAgent.role e <> BuilderAgent.system) more)
  /\ (exists more,
         BuilderAgent.out a' = (BuilderAgent.out a ++ more)%list
         /\ Forall (addressed (BuilderAgent.id a)) more)
  /\ calls a' + budget a' <= calls a + budget a + k
  /\ (BuilderAgent.interrupted a = true ->
      BuilderAgent.interrupted a' = true
      /\ BuilderAgent.steps a' = BuilderAgent.steps a
      /\ calls a' + owed (BuilderAgent.pending a')
         <= calls a + owed (BuilderAgent.pending a) + k).

(** How the runtime wires the agent to the adapters (the constructor of
    [Runtime] in src/runtime.ts): [llmOnce] is [LlmAdapter.runOnce], whose
    promise settles call [c] of the agent. *)
Definition settled (c : nat) (o : LlmAdapter.Outcome) : BuilderAgent.Input :=
  match o with
  | LlmAdapter.Resolved text => BuilderAgent.ILlmResolved c text
  | LlmAdapter.Rejected e => BuilderAgent.ILlmRejected c e
  end.

Definition isStreamDone (d : Dispatched) : bool :=
  match d with DUi (StreamDone _) => true | _ => false end.

Definition isLlmEnd (d : Dispatched) : bool :=
  match d with DUi (LlmEnd _ _ _ _) => true | _ => false end.

(** The internal events that end a generation. *)
Definition isTerminal (d : Dispatched) : bool :=
  match d with
  | DEvent (LlmComplete _ _) => true
  | DEvent (LlmError _ _ _) => true
  | _ => false
  end.

(** The [text] of each internal [TokenChunk] event, in order. *)
Fixpoint chunkTexts (ds : list Dispatched) : list string :=
  match ds with
  | [] => []
  | DEvent (TokenChunk text _ _) :: ds' => text :: chunkTexts ds'
  | _ :: ds' => chunkTexts ds'
  end.

End Runs.

(* ====================================================================== *)
(** * Properties of the notifier *)
(* ====================================================================== *)

Section NotifierFacts.

Context {W : Type}.
Implicit Types (n : Notifier.t W) (res : W).

Lemma signal_without_waiter n :
  Notifier.waitQueue n = [] ->
  Notifier.signal n = (Notifier.mk [] true, []).
Proof.
  intros Hq. unfold Notifier.signal. rewrite Hq. reflexivity.
Qed.

Lemma signals_without_waiter k n :
  Notifier.waitQueue n = [] ->
  Notifier.signals (S k) n = (Notifier.mk [] true, []).
Proof.
  revert n. induction k as [|k IH]; intros n Hq.
  - cbn [Notifier.signals].
    rewrite (signal_without_waiter n Hq). reflexivity.
  - change (Notifier.signals (S (S k)) n)
      with (let (n1, woken1) := Notifier.signal n in
            let (n2, woken2) := Notifier.signals (S k) n1 in
            (n2, woken1 ++ woken2)).
    rewrite (signal_without_waiter n Hq).
    rewrite (IH (Notifier.mk [] true) eq_refl). reflexivity.
Qed.

Lemma signal_with_waiter_keeps_flag n :
  Notifier.waitQueue n <> [] ->
  Notifier.hasPendingSignal (fst (Notifier.signal n))
  = Notifier.hasPendingSignal n.
Proof.
  intros Hq. unfold Notifier.signal.
  destruct (Notifier.waitQueue n) as [|w q]; [congruence|reflexivity].
Qed.

End NotifierFacts.



(* ====================================================================== *)
(** * Properties of the scheduler *)
(* ====================================================================== *)

Section SchedulerFacts.

Import Scheduler.

(** The cell [(l, p)] is the first non-empty one: the cells scanned before
    it are literally empty in the goal. *)
Ltac first_cell l p rest :=
  exists l, p, rest; cbn; repeat rewrite app_nil_r;
  repeat split; try reflexivity;
  intros [] [] H; cbn in H; try lia; reflexivity.

Lemma cell_setCell_same q l p ts : cell (setCell q l p ts) l p = ts.
Proof. destruct l, p; reflexivity. Qed.

Lemma cell_setCell_other q l p ts l' p' :
  (l', p') <> (l, p) -> cell (setCell q l p ts) l' p' = cell q l' p'.
Proof. destruct l, p, l', p'; intros H; try reflexivity; congruence. Qed.

(** What [getNext] returns, cell by cell in scan order. *)
Lemma dequeue_flatten q :
  match flatten q with
  | [] => getNext q = None /\ dequeue q = None
  | task :: ts =>
      exists l p rest,
        getNext q = Some (l, p)
        /\ cell q l p = task :: rest
        /\ (forall l' p', rank l' p' < rank l p -> cell q l' p' = [])
        /\ dequeue q = Some (task, setCell q l p rest)
        /\ flatten (setCell q l p rest) = ts
  end.
Proof.
  destruct q as [[dh dm dl] [uh um ul]].
  unfold flatten, dequeue, getNext.
  destruct dh as [|t dh]; [|first_cell LDomain PHigh dh].
  destruct dm as [|t dm]; [|first_cell LDomain PMedium dm].
  destruct dl as [|t dl]; [|first_cell LDomain PLow dl].
  destruct uh as [|t uh]; [|first_cell LUi PHigh uh].
  destruct um as [|t um]; [|first_cell LUi PMedium um].
  destruct ul as [|t ul]; [|first_cell LUi PLow ul].
  cbn. split; reflexivity.
Qed.

(** Draining a queue yields its tasks cell after cell, each cell in
    enqueue order. *)
Lemma drain_flatten n :
  forall q, List.length (flatten q) = n -> drain n q = flatten q.
Proof.
  induction n as [|n IH]; intros q Hlen.
  - destruct (flatten q); [reflexivity|discriminate].
  - pose proof (dequeue_flatten q) as H.
    destruct (flatten q) as [|task ts] eqn:Hf; [discriminate|].
    destruct H as (l & p & rest & _ & _ & _ & Hdq & Hrest).
    cbn [drain]. rewrite Hdq. f_equal.
    rewrite IH; [exact Hrest|].
    rewrite Hrest. cbn in Hlen. lia.
Qed.

(** The synchronous part of [tick] performs exactly [dequeue]. *)
Lemma tickSync_dequeue i s task q' :
  dequeue (queue s) = Some (task, q') ->
  exists l p,
    getNext (queue s) = Some (l, p)
    /\ queue (tickSync i s) = q'
    /\ log (tickSync i s) = log s ++ [mkLog LStart (id task) p l]
    /\ loops (tickSync i s) = setNth i (InTask task l p) (loops s).
Proof.
  unfold dequeue, tickSync.
  destruct (getNext (queue s)) as [[l p]|]; [|discriminate].
  destruct (cell (queue s) l p) as [|t rest]; [discriminate|].
  intros H. injection H as <- <-. exists l, p. repeat split.
Qed.

Lemma signal_queue s : queue (signal s) = queue s.
Proof. unfold signal. destruct (Notifier.signal (notifier s)). reflexivity. Qed.

Lemma signal_status s : status (signal s) = status s.
Proof. unfold signal. destruct (Notifier.signal (notifier s)). reflexivity. Qed.

Lemma signal_log s : log (signal s) = log s.
Proof. unfold signal. destruct (Notifier.signal (notifier s)). reflexivity. Qed.

Lemma enqueue_cell task p l s :
  cell (queue (enqueue task p l s)) l p = cell (queue s) l p ++ [task].
Proof. unfold enqueue. rewrite signal_queue. cbn. apply cell_setCell_same. Qed.

Lemma enqueue_other task p l s l' p' :
  (l', p') <> (l, p) ->
  cell (queue (enqueue task p l s)) l' p' = cell (queue s) l' p'.
Proof.
  intros H. unfold enqueue. rewrite signal_queue. cbn.
  apply cell_setCell_other. exact H.
Qed.

End SchedulerFacts.

(** C2.  Whenever a task is queued, [getNext] designates the first non-empty
    cell in the order domain before ui and, inside a lane, high before
    medium before low ([rank] numbers the cells in that order); [tick]
    removes the head of that cell and calls its [run]; [enqueue] adds at the
    tail of a cell, so that a cell is served first in, first out, and
    draining a queue runs its tasks cell after cell in that order.  Tasks A
    (low), B (high) and C (medium) enqueued in that order on one lane are run
    in the order B, C, A, whether the loop is started afterwards or was
    already asleep on the notifier. *)
Theorem C2_dequeue_order :
  forall (s : Scheduler.t) (i : nat),
    Scheduler.flatten (Scheduler.queue s) <> [] ->
    (exists l p task rest,
        Scheduler.getNext (Scheduler.queue s) = Some (l, p)
        /\ Scheduler.cell (Scheduler.queue s) l p = task :: rest
        /\ (forall l' p',
               Scheduler.rank l' p' < Scheduler.rank l p ->
               Scheduler.cell (Scheduler.queue s) l' p' = [])
        /\ Scheduler.queue (Scheduler.tickSync i s)
           = Scheduler.setCell (Scheduler.queue s) l p rest
        /\ Scheduler.log (Scheduler.tickSync i s)
           = Scheduler.log s
             ++ [Scheduler.mkLog Scheduler.LStart (Scheduler.id task) p l])
    /\ (forall task p l,
           Scheduler.cell (Scheduler.queue (Scheduler.enqueue task p l s)) l p
           = Scheduler.cell (Scheduler.queue s) l p ++ [task])
    /\ Scheduler.drain (List.length (Scheduler.flatten (Scheduler.queue s)))
                       (Scheduler.queue s)
       = Scheduler.flatten (Scheduler.queue s)
    /\ (forall l A B C,
           Scheduler.started
             (Scheduler.log
                (Scheduler.run Scheduler.init
                   [Scheduler.AEnqueue A Scheduler.PLow l;
                    Scheduler.AEnqueue B Scheduler.PHigh l;
                    Scheduler.AEnqueue C Scheduler.PMedium l;
                    Scheduler.AStart;
                    Scheduler.ASettle 0 None; Scheduler.AResume 0;
                    Scheduler.ASettle 0 None; Scheduler.AResume 0;
                    Scheduler.ASettle 0 None; Scheduler.AResume 0]))
           = [Scheduler.id B; Scheduler.id C; Scheduler.id A]
           /\ Scheduler.started
                (Scheduler.log
                   (Scheduler.run Scheduler.init
                      [Scheduler.AStart; Scheduler.AResume 0;
                       Scheduler.AEnqueue A Scheduler.PLow l;
                       Scheduler.AEnqueue B Scheduler.PHigh l;
                       Scheduler.AEnqueue C Scheduler.PMedium l;
                       Scheduler.AResume 0;
                       Scheduler.ASettle 0 None; Scheduler.AResume 0;
                       Scheduler.ASettle 0 None; Scheduler.AResume 0;
                       Scheduler.ASettle 0 None; Scheduler.AResume 0]))
              = [Scheduler.id B; Scheduler.id C; Scheduler.id A]).
Proof.
  intros s i Hne.
  split; [|split; [|split]].
  - pose proof (dequeue_flatten (Scheduler.queue s)) as H.
    destruct (Scheduler.flatten (Scheduler.queue s)) as [|task ts];
      [congruence|].
    destruct H as (l & p & rest & Hnext & Hcell & Hbefore & Hdq & _).
    destruct (tickSync_dequeue i s task _ Hdq) as (l0 & p0 & Hnext' & Hq & Hlog & _).
    rewrite Hnext in Hnext'. injection Hnext' as <- <-.
    exists l, p, task, rest. repeat split; assumption.
  - intros task p l. apply enqueue_cell.
  - apply drain_flatten. reflexivity.
  - intros l A B C. destruct l; split; reflexivity.
Qed.

Lemma C2_dequeue_order_witness :
  let s := Scheduler.enqueue (Scheduler.mkTask "A") Scheduler.PLow
             Scheduler.LUi Scheduler.init in
  Scheduler.flatten (Scheduler.queue s) <> []
  /\ Scheduler.drain 1 (Scheduler.queue s) = [Scheduler.mkTask "A"].
Proof.
  assert (Hne : Scheduler.flatten
                  (Scheduler.queue
                     (Scheduler.enqueue (Scheduler.mkTask "A") Scheduler.PLow
                        Scheduler.LUi Scheduler.init)) <> [])
    by (vm_compute; discriminate).
  split; [exact Hne|].
  exact (proj1 (proj2 (proj2 (C2_dequeue_order _ 0 Hne)))).
Defined.

Section StoppedFacts.

Import Scheduler.

Lemma Lane_Prio_dec (x y : Lane * Prio) : {x = y} + {x <> y}.
Proof. repeat decide equality. Qed.

Lemma started_app lg1 lg2 : started (lg1 ++ lg2) = started lg1 ++ started lg2.
Proof. unfold started. rewrite filter_app, map_app. reflexivity. Qed.

Lemma loopHead_stopped i s :
  status s = stopped -> loopHead i s = setPc i Exited s.
Proof. intros H. unfold loopHead. rewrite H. reflexivity. Qed.

(** No transition leaves [stopped], starts a task or removes one from a cell. *)
Lemma step_stopped s a :
  status s = stopped ->
  status (step s a) = stopped
  /\ started (log (step s a)) = started (log s)
  /\ (forall l p, exists more, cell (queue (step s a)) l p = cell (queue s) l p ++ more).
Proof.
  intros Hs. destruct a as [| |task p l|i err|i]; cbn [step].
  - unfold start. rewrite Hs. repeat split; trivial.
    intros l p. exists []. now rewrite app_nil_r.
  - unfold stop. rewrite signal_status, signal_log, signal_queue. cbn.
    repeat split. intros l p. exists []. now rewrite app_nil_r.
  - unfold enqueue at 1 2.
    rewrite signal_status, signal_log. cbn. repeat split; trivial.
    intros l' p'.
    destruct (Lane_Prio_dec (l', p') (l, p)) as [E|N].
    + injection E as -> ->. exists [task]. apply enqueue_cell.
    + exists []. rewrite app_nil_r. now apply enqueue_other.
  - unfold settle.
    destruct (nth_error (loops s) i) as [[task l p|w| | |]|];
      try (repeat split; trivial; intros l0 p0; exists []; now rewrite app_nil_r).
    unfold setPc, addLog. cbn [log status queue]. rewrite started_app.
    destruct err; cbn; rewrite app_nil_r; repeat split; trivial;
      intros l0 p0; exists []; now rewrite app_nil_r.
  - unfold resume.
    destruct (nth_error (loops s) i) as [[task l p|w| | |]|];
      try (repeat split; trivial; intros l0 p0; exists []; now rewrite app_nil_r).
    + rewrite Hs, andb_false_r, (loopHead_stopped i s Hs). cbn.
      repeat split; trivial. intros l0 p0; exists []; now rewrite app_nil_r.
    + rewrite Hs, (loopHead_stopped i s Hs). cbn.
      repeat split; trivial. intros l0 p0; exists []; now rewrite app_nil_r.
Qed.

Lemma run_stopped acts :
  forall s,
    status s = stopped ->
    status (run s acts) = stopped
    /\ started (log (run s acts)) = started (log s)
    /\ (forall l p, exists more, cell (queue (run s acts)) l p = cell (queue s) l p ++ more).
Proof.
  induction acts as [|a acts IH]; intros s Hs.
  - repeat split; trivial. intros l p. exists []. now rewrite app_nil_r.
  - destruct (step_stopped s a Hs) as (H1 & H2 & H3).
    destruct (IH (step s a) H1) as (K1 & K2 & K3).
    change (run s (a :: acts)) with (run (step s a) acts). repeat split.
    + exact K1.
    + now rewrite K2.
    + intros l p. destruct (K3 l p) as [m2 E2], (H3 l p) as [m1 E1].
      exists (m1 ++ m2). now rewrite E2, E1, app_assoc.
Qed.

Lemma nth_error_setNth_same {A} (l : list A) i x y :
  nth_error l i = Some y -> nth_error (setNth i x l) i = Some x.
Proof.
  revert i. induction l as [|z l IH]; intros [|i] H; cbn in *;
    try discriminate; auto.
Qed.

Lemma nth_error_setNth_other {A} (l : list A) i j x :
  i <> j -> nth_error (setNth i x l) j = nth_error l j.
Proof.
  revert i j. induction l as [|z l IH]; intros [|i] [|j] H; cbn;
    try reflexivity; try congruence.
  apply IH. congruence.
Qed.

Lemma wakeOne_keeps_woken ls j i :
  nth_error ls i = Some Woken -> nth_error (wakeOne ls j) i = Some Woken.
Proof.
  intros H. unfold wakeOne.
  destruct (nth_error ls j) as [[ | | | | ]|] eqn:E; trivial.
  destruct (Nat.eq_dec j i) as [->|N].
  - congruence.
  - now rewrite nth_error_setNth_other.
Qed.

Lemma wake_keeps_woken woken :
  forall ls i,
    nth_error ls i = Some Woken ->
    nth_error (fold_left wakeOne woken ls) i = Some Woken.
Proof.
  induction woken as [|j woken IH]; intros ls i H; cbn; trivial.
  apply IH. now apply wakeOne_keeps_woken.
Qed.

(** A parked activation whose resolver is called is woken. *)
Lemma wake_parked woken :
  forall ls i,
    In i woken ->
    nth_error ls i = Some Waiting ->
    nth_error (fold_left wakeOne woken ls) i = Some Woken.
Proof.
  induction woken as [|j woken IH]; intros ls i Hin H; [contradiction|].
  cbn [fold_left].
  destruct (Nat.eq_dec j i) as [->|N].
  - apply wake_keeps_woken. unfold wakeOne. rewrite H.
    now apply nth_error_setNth_same with (y := Waiting).
  - destruct Hin as [->|Hin]; [congruence|].
    apply IH; trivial. unfold wakeOne.
    destruct (nth_error ls j) as [[ | | | | ]|] eqn:E; trivial.
    now rewrite nth_error_setNth_other.
Qed.

End StoppedFacts.

(** C5.  [stopped] is terminal.  [start()] on a stopped scheduler throws
    "cannot restart" and changes nothing.  After [stop()], whatever happens
    next (further [start], [stop] and [enqueue] calls, task promises
    settling, suspended activations of the loop continuing), the status
    stays [stopped], no further task is started, and every task queued at
    the time of [stop()] is still in its cell.  In particular an activation
    parked on the notifier is woken by [stop()], finds the status different
    from [idle] when it continues, and leaves the loop without a tick; so
    does an activation that an earlier [signal()] had already woken. *)
Theorem C5_stopped_is_terminal :
  forall (s : Scheduler.t) (acts : list Scheduler.Action) (i : nat),
    Scheduler.status (Scheduler.stop s) = Scheduler.stopped
    /\ Scheduler.start (Scheduler.stop s) = Scheduler.Thrown "cannot restart"
    /\ Scheduler.step (Scheduler.stop s) Scheduler.AStart = Scheduler.stop s
    /\ (let s' := Scheduler.run (Scheduler.stop s) acts in
        Scheduler.status s' = Scheduler.stopped
        /\ Scheduler.start s' = Scheduler.Thrown "cannot restart"
        /\ Scheduler.started (Scheduler.log s')
           = Scheduler.started (Scheduler.log s)
        /\ forall l p, exists more,
             Scheduler.cell (Scheduler.queue s') l p
             = Scheduler.cell (Scheduler.queue s) l p ++ more)
    /\ (nth_error (Scheduler.loops s) i = Some Scheduler.Waiting ->
        In i (Notifier.waitQueue (Scheduler.notifier s)) ->
        let s1 := Scheduler.stop s in
        let s2 := Scheduler.resume i s1 in
        nth_error (Scheduler.loops s1) i = Some Scheduler.Woken
        /\ nth_error (Scheduler.loops s2) i = Some Scheduler.Exited
        /\ Scheduler.status s2 = Scheduler.stopped
        /\ Scheduler.queue s2 = Scheduler.queue s
        /\ Scheduler.log s2 = Scheduler.log s)
    /\ (nth_error (Scheduler.loops s) i = Some Scheduler.Woken ->
        let s2 := Scheduler.resume i (Scheduler.stop s) in
        nth_error (Scheduler.loops s2) i = Some Scheduler.Exited
        /\ Scheduler.status s2 = Scheduler.stopped
        /\ Scheduler.queue s2 = Scheduler.queue s
        /\ Scheduler.log s2 = Scheduler.log s).
Proof.
  intros s acts i.
  assert (Hst : Scheduler.status (Scheduler.stop s) = Scheduler.stopped).
  { unfold Scheduler.stop. now rewrite signal_status. }
  assert (Hthrow : Scheduler.start (Scheduler.stop s)
                   = Scheduler.Thrown "cannot restart").
  { unfold Scheduler.start. now rewrite Hst. }
  split; [exact Hst|]. split; [exact Hthrow|].
  split; [cbn [Scheduler.step]; now rewrite Hthrow|].
  split.
  { cbv zeta.
    destruct (run_stopped acts (Scheduler.stop s) Hst) as (H1 & H2 & H3).
    unfold Scheduler.stop in H2, H3 at 2.
    rewrite signal_log in H2. rewrite signal_queue in H3.
    split; [exact H1|]. split; [unfold Scheduler.start; now rewrite H1|].
    split; assumption. }
  assert (Hleave : nth_error (Scheduler.loops (Scheduler.stop s)) i
                   = Some Scheduler.Woken ->
                   let s2 := Scheduler.resume i (Scheduler.stop s) in
                   nth_error (Scheduler.loops s2) i = Some Scheduler.Exited
                   /\ Scheduler.status s2 = Scheduler.stopped
                   /\ Scheduler.queue s2 = Scheduler.queue s
                   /\ Scheduler.log s2 = Scheduler.log s).
  { intros Hwoken. cbv zeta.
    unfold Scheduler.resume. rewrite Hwoken, Hst.
    rewrite (loopHead_stopped i _ Hst).
    unfold Scheduler.setPc. cbn [Scheduler.loops Scheduler.status
                                 Scheduler.queue Scheduler.log].
    split; [now apply nth_error_setNth_same with (y := Scheduler.Woken)|].
    split; [exact Hst|].
    unfold Scheduler.stop. now rewrite signal_queue, signal_log. }
  split.
  - intros Hpc Hin. cbv zeta.
    assert (Hwoken : nth_error (Scheduler.loops (Scheduler.stop s)) i
                     = Some Scheduler.Woken).
    { unfold Scheduler.stop, Scheduler.signal. cbn.
      now apply wake_parked. }
    split; [exact Hwoken|]. exact (Hleave Hwoken).
  - intros Hpc. apply Hleave.
    unfold Scheduler.stop, Scheduler.signal. cbn.
    now apply wake_keeps_woken.
Qed.

Lemma C5_stopped_is_terminal_witness :
  let s := Scheduler.run Scheduler.init [Scheduler.AStart; Scheduler.AResume 0] in
  nth_error (Scheduler.loops s) 0 = Some Scheduler.Waiting
  /\ In 0 (Notifier.waitQueue (Scheduler.notifier s))
  /\ nth_error (Scheduler.loops (Scheduler.resume 0 (Scheduler.stop s))) 0
     = Some Scheduler.Exited.
Proof.
  cbv zeta.
  assert (H1 : nth_error
                 (Scheduler.loops
                    (Scheduler.run Scheduler.init
                       [Scheduler.AStart; Scheduler.AResume 0])) 0
               = Some Scheduler.Waiting) by reflexivity.
  assert (H2 : In 0 (Notifier.waitQueue
                       (Scheduler.notifier
                          (Scheduler.run Scheduler.init
                             [Scheduler.AStart; Scheduler.AResume 0]))))
    by (vm_compute; left; reflexivity).
  split; [exact H1|]. split; [exact H2|].
  pose proof (C5_stopped_is_terminal
                (Scheduler.run Scheduler.init
                   [Scheduler.AStart; Scheduler.AResume 0])
                [Scheduler.AEnqueue (Scheduler.mkTask "late")
                   Scheduler.PHigh Scheduler.LDomain]
                0) as H.
  destruct H as (_ & _ & _ & _ & Hrace & _).
  exact (proj1 (proj2 (Hrace H1 H2))).
Defined.

(* ====================================================================== *)
(** * Properties of the model-call adapter *)
(* ====================================================================== *)

Section LlmFacts.

Import LlmAdapter.
Local Open Scope string_scope.

Lemma tokens_app ds1 ds2 : tokens (ds1 ++ ds2)%list = (tokens ds1 ++ tokens ds2)%list.
Proof.
  induction ds1 as [|d ds1 IH]; [reflexivity|].
  destruct d as [e|u]; cbn; [exact IH|].
  destruct u; cbn; try exact IH. now rewrite IH.
Qed.

(** The streaming loop counts the chunks and emits one token per chunk. *)
Lemma streamChunks_tokens target reqId cs :
  forall n out,
    fst (streamChunks target reqId cs n out) = n + List.length cs
    /\ tokens (snd (streamChunks target reqId cs n out))
       = (tokens out ++ cs)%list.
Proof.
  induction cs as [|c cs IH]; intros n out; cbn [streamChunks].
  - cbn. split; [lia|now rewrite app_nil_r].
  - destruct (IH (S n) (out ++ [DEvent (TokenChunk c target reqId);
                                DUi (StreamToken target c)])%list)
      as [H1 H2].
    rewrite H1, H2. split; [cbn; lia|].
    rewrite tokens_app. cbn. now rewrite <- app_assoc.
Qed.

Lemma append_empty_r (s : string) : s ++ "" = s.
Proof. induction s as [|c s IH]; cbn; [reflexivity|now rewrite IH]. Qed.

Lemma append_assoc (s1 s2 s3 : string) : (s1 ++ s2) ++ s3 = s1 ++ (s2 ++ s3).
Proof. induction s1 as [|c s1 IH]; cbn; [reflexivity|now rewrite IH]. Qed.

Lemma concat_empty_glue cs : String.concat "" cs = glue cs.
Proof.
  induction cs as [|c cs IH]; [reflexivity|].
  destruct cs as [|c' cs].
  - cbn. now rewrite append_empty_r.
  - change (String.concat "" (c :: c' :: cs))
      with (c ++ "" ++ String.concat "" (c' :: cs)).
    rewrite IH. reflexivity.
Qed.

Lemma gather_glue cs : forall buf, gather cs buf = buf ++ glue cs.
Proof.
  induction cs as [|c cs IH]; intros buf; cbn.
  - now rewrite append_empty_r.
  - rewrite IH. apply append_assoc.
Qed.

End LlmFacts.

(** C8.  When the model port hands the same chunks, without error, to the
    streaming adapter [run] and to the buffering adapter [runOnce], the
    [stream-token] events of [run] carry exactly these chunks in order, and
    their tokens put end to end are the string [runOnce] resolves to;
    [runOnce] dispatches no [stream-token] event, only [llm-start] and
    [llm-end]. *)
Theorem C8_stream_equals_buffer :
  forall (llm1 llm2 : LlmAdapter.LlmPort) (reqId1 reqId2 : string)
         (ms1 ms2 : nat) (prompt target : string) (cs : list string),
    llm1 prompt = LlmAdapter.mkGen cs None ->
    llm2 prompt = LlmAdapter.mkGen cs None ->
    let streamed := LlmAdapter.run llm1 reqId1 ms1 prompt target in
    let buffered := LlmAdapter.runOnce llm2 reqId2 ms2 prompt target in
    LlmAdapter.tokens (LlmAdapter.dispatched streamed) = cs
    /\ LlmAdapter.result buffered
       = LlmAdapter.Resolved
           (String.concat "" (LlmAdapter.tokens (LlmAdapter.dispatched streamed)))
    /\ LlmAdapter.tokens (LlmAdapter.dispatched buffered) = []
    /\ exists n,
         LlmAdapter.dispatched buffered
         = [DUi (LlmStart target reqId2 (slice0 160 prompt));
            DUi (LlmEnd target reqId2 ms2 (Some n))].
Proof.
  intros llm1 llm2 reqId1 reqId2 ms1 ms2 prompt target cs H1 H2 streamed buffered.
  assert (Hs : LlmAdapter.tokens (LlmAdapter.dispatched streamed) = cs).
  { subst streamed. unfold LlmAdapter.run, LlmAdapter.dispatched.
    rewrite H1. cbn [LlmAdapter.chunks LlmAdapter.failure].
    destruct (LlmAdapter.streamChunks target reqId1 cs 0 []) as [n out] eqn:E.
    pose proof (streamChunks_tokens target reqId1 cs 0 []) as [_ Ht].
    rewrite E in Ht. cbn [snd] in Ht.
    cbn [LlmAdapter.before LlmAdapter.during LlmAdapter.after].
    rewrite !tokens_app, Ht. cbn. now rewrite !app_nil_r. }
  split; [exact Hs|].
  rewrite Hs. subst buffered. unfold LlmAdapter.runOnce, LlmAdapter.dispatched.
  rewrite H2. cbn [LlmAdapter.chunks LlmAdapter.failure LlmAdapter.result
                   LlmAdapter.before LlmAdapter.during LlmAdapter.after].
  split; [|split].
  - rewrite gather_glue, concat_empty_glue. reflexivity.
  - reflexivity.
  - eexists. reflexivity.
Qed.

Lemma C8_stream_equals_buffer_witness :
  let llm := fun _ : string => LlmAdapter.mkGen ["{"; "ok"; "}"] None in
  llm "p" = LlmAdapter.mkGen ["{"; "ok"; "}"] None
  /\ LlmAdapter.result (LlmAdapter.runOnce llm "r2" 5 "p" "agent#1")
     = LlmAdapter.Resolved
         (String.concat ""
            (LlmAdapter.tokens
               (LlmAdapter.dispatched (LlmAdapter.run llm "r1" 3 "p" "agent#1")))).
Proof.
  split; [reflexivity|].
  exact (proj1 (proj2
           (C8_stream_equals_buffer
              (fun _ => LlmAdapter.mkGen ["{"; "ok"; "}"] None)
              (fun _ => LlmAdapter.mkGen ["{"; "ok"; "}"] None)
              "r1" "r2" 3 5 "p" "agent#1" ["{"; "ok"; "}"] eq_refl eq_refl))).
Defined.

(* ====================================================================== *)
(** * Behaviour of the filesystem port *)
(* ====================================================================== *)

Section FsFacts.

Import FsPort.
Local Open Scope string_scope.

Variables cwd root : string.

(** [read] and [append] check the path before they touch the tree. *)
Lemma read_append_rejected (args : Args) (t : FS) :
  op args = "read" \/ op args = "append" ->
  String.prefix (resolve cwd root) (fullPath cwd root (path args)) = false ->
  run cwd root args t = (t, mkOut false "path escapes workspace").
Proof.
  intros Hop Hout. unfold run, safe. unfold fullPath in Hout.
  destruct Hop as [-> | ->]; cbn [String.eqb Ascii.eqb Bool.eqb];
    rewrite Hout; reflexivity.
Qed.

End FsFacts.

(** C7.  The port rooted at [/work/app] is asked to write outside its root.
    A path into the sibling directory [/work/app-data] passes the check of
    [safe], which compares strings and not directories: the file is written
    and the call reports success.  A path into [/work/other] is rejected by
    [safe], but only after [mkdir] has created [/work/other].  Reading and
    appending go through the same check and reach a file in the sibling
    directory [/work/app-secrets]. *)
Theorem C7_fs_port_escapes_root :
  let cwd := "/work/app" in
  let root := "/work/app" in
  let tree := FsPort.mkFS ["/work"; "/work/app"] [] in
  (FsPort.fullPath cwd root "../app-data/x.txt" = "/work/app-data/x.txt"
   /\ FsPort.insideRoot cwd root (FsPort.fullPath cwd root "../app-data/x.txt")
      = false
   /\ FsPort.run cwd root (FsPort.mkArgs "write" "../app-data/x.txt" (Some "pwn")) tree
      = (FsPort.mkFS ["/work"; "/work/app"; "/work/app-data"]
                     [("/work/app-data/x.txt", "pwn")],
         FsPort.mkOut true "ok"))
  /\ (FsPort.fullPath cwd root "../other/x.txt" = "/work/other/x.txt"
      /\ FsPort.insideRoot cwd root (FsPort.fullPath cwd root "../other/x.txt")
         = false
      /\ FsPort.run cwd root (FsPort.mkArgs "write" "../other/x.txt" (Some "pwn")) tree
         = (FsPort.mkFS ["/work"; "/work/app"; "/work/other"] [],
            FsPort.mkOut false "path escapes workspace"))
  /\ (let secrets :=
         FsPort.mkFS ["/work"; "/work/app"; "/work/app-secrets"]
                     [("/work/app-secrets/key", "s3cret")] in
      FsPort.insideRoot cwd root (FsPort.fullPath cwd root "../app-secrets/key")
      = false
      /\ FsPort.run cwd root (FsPort.mkArgs "read" "../app-secrets/key" None) secrets
         = (secrets, FsPort.mkOut true "s3cret")
      /\ FsPort.run cwd root (FsPort.mkArgs "append" "../app-secrets/key" (Some "!")) secrets
         = (FsPort.mkFS ["/work"; "/work/app"; "/work/app-secrets"]
                        [("/work/app-secrets/key", "s3cret!")],
            FsPort.mkOut true "ok"))
  /\ FsPort.insideRoot cwd root (FsPort.fullPath cwd root "notes/x.txt") = true.
Proof.
  cbv zeta. repeat split; vm_compute; reflexivity.
Qed.

(* ====================================================================== *)
(** * Properties of the planner agent *)
(* ====================================================================== *)

Section SliceFacts.

Local Open Scope string_scope.

Lemma slice0_length s : forall n,
  String.length (slice0 n s) = Nat.min n (String.length s).
Proof.
  unfold slice0.
  induction s as [|c s IH]; intros [|n]; cbn; try reflexivity.
  now rewrite IH.
Qed.

Lemma slice0_short s : forall n, String.length s <= n -> slice0 n s = s.
Proof.
  unfold slice0.
  induction s as [|c s IH]; intros [|n] H; cbn in *; try reflexivity; try lia.
  rewrite IH; [reflexivity|lia].
Qed.

Lemma slice0_prefix s : forall n, String.prefix (slice0 n s) s = true.
Proof.
  unfold slice0.
  induction s as [|c s IH]; intros [|n]; cbn; try reflexivity.
  destruct (ascii_dec c c) as [_|N]; [apply IH|congruence].
Qed.

End SliceFacts.

Section AgentFacts.

Import BuilderAgent.
Local Open Scope string_scope.

Lemma uiEvents_app o1 o2 :
  uiEvents (o1 ++ o2)%list = (uiEvents o1 ++ uiEvents o2)%list.
Proof.
  induction o1 as [|o o1 IH]; [reflexivity|].
  destruct o; cbn; now rewrite IH.
Qed.

Lemma modelCalls_app o1 o2 :
  modelCalls (o1 ++ o2)%list = (modelCalls o1 ++ modelCalls o2)%list.
Proof.
  induction o1 as [|o o1 IH]; [reflexivity|].
  destruct o; cbn; now rewrite IH.
Qed.

Lemma emitPlanningStop_out reason detail a :
  out (emitPlanningStop reason detail a)
  = (out a ++ stopEvents a reason detail)%list.
Proof.
  unfold emitPlanningStop, stopEvents.
  destruct (currentReqId a) as [r|]; [|now rewrite app_nil_r].
  destruct (nonEmpty r); [reflexivity|now rewrite app_nil_r].
Qed.

Lemma emitPlanningStop_frame reason detail a :
  let a' := emitPlanningStop reason detail a in
  id a' = id a /\ interrupted a' = interrupted a /\ steps a' = steps a
  /\ convo a' = convo a /\ pending a' = pending a /\ nextCall a' = nextCall a.
Proof.
  unfold emitPlanningStop.
  destruct (currentReqId a) as [r|]; [|repeat split].
  destruct (nonEmpty r); repeat split.
Qed.

Lemma emitPlanningStop_req reason detail a :
  currentReqId (emitPlanningStop reason detail a)
  = if truthy (currentReqId a) then None else currentReqId a.
Proof.
  unfold emitPlanningStop, truthy.
  destruct (currentReqId a) as [r|] eqn:E; [|now rewrite E].
  destruct (nonEmpty r); [reflexivity|exact E].
Qed.

Lemma loop_convo a : convo (loop a) = convo a.
Proof.
  unfold loop.
  destruct (interrupted a).
  - now destruct (emitPlanningStop_frame RInterrupted None
                    (onUpdate (StatusEv SInterrupted) a)) as (_ & _ & _ & H & _).
  - destruct (Nat.leb MAX_STEPS (steps a)); [|reflexivity].
    now destruct (emitPlanningStop_frame RMaxSteps
                    (Some ("Reached " ++ decimal MAX_STEPS ++ " planner steps"))
                    (onUpdate (StatusEv SMaxSteps) a)) as (_ & _ & _ & H & _).
Qed.

Lemma loop_out a : exists more, out (loop a) = (out a ++ more)%list.
Proof.
  unfold loop.
  destruct (interrupted a).
  - rewrite emitPlanningStop_out. cbn [onUpdate emit out].
    rewrite <- app_assoc. eexists. reflexivity.
  - destruct (Nat.leb MAX_STEPS (steps a)).
    + rewrite emitPlanningStop_out. cbn [onUpdate emit out].
      rewrite <- app_assoc. eexists. reflexivity.
    + cbn. eexists. reflexivity.
Qed.

(** A round that starts with the flag set. *)
Lemma loop_interrupted a :
  interrupted a = true ->
  loop a = emitPlanningStop RInterrupted None (onUpdate (StatusEv SInterrupted) a).
Proof. intros H. unfold loop. now rewrite H. Qed.

(** A round that starts with the budget used up. *)
Lemma loop_max_steps a :
  interrupted a = false ->
  MAX_STEPS <= steps a ->
  loop a = emitPlanningStop RMaxSteps
             (Some ("Reached " ++ decimal MAX_STEPS ++ " planner steps"))
             (onUpdate (StatusEv SMaxSteps) a).
Proof.
  intros H1 H2. unfold loop. rewrite H1.
  apply Nat.leb_le in H2. now rewrite H2.
Qed.

(** A round that reaches the model. *)
Lemma loop_calls a :
  interrupted a = false ->
  steps a < MAX_STEPS ->
  loop a = llmOnce (loopPrompt (convo a)) AwaitRaw (setSteps (S (steps a)) a).
Proof.
  intros H1 H2. unfold loop. rewrite H1.
  apply Nat.leb_gt in H2. now rewrite H2.
Qed.

End AgentFacts.

(** C10.  When the agent handles a [ToolResult] addressed to it, the payload
    is cut to its first 2000 code units; the transcript gains exactly one
    [user] entry, whose text ends with the cut payload, and the
    [observation] event that follows carries the same cut payload.  A
    payload of at most 2000 code units is passed on unchanged. *)
Theorem C10_tool_payload_truncated :
  forall (a : BuilderAgent.Agent) (tool : string) (reqId : option string)
         (ok : bool) (data : string) (now : nat),
    let a' := BuilderAgent.on (ToolResult (BuilderAgent.id a) tool reqId ok data) now a in
    let truncated := slice0 2000 data in
    BuilderAgent.convo a'
    = BuilderAgent.convo a
      ++ [BuilderAgent.mkEntry BuilderAgent.user
            (String.append "TOOL("
               (String.append tool
                  (String.append ") -> "
                     (String.append (if ok then "ok" else "error")
                        (String.append nl truncated)))))]
    /\ (exists more,
           BuilderAgent.out a'
           = BuilderAgent.out a
             ++ BuilderAgent.OUi (Observation tool ok truncated) :: more)
    /\ String.length truncated = Nat.min 2000 (String.length data)
    /\ String.prefix truncated data = true
    /\ (String.length data <= 2000 -> truncated = data).
Proof.
  intros a tool reqId ok data now a' truncated. subst a' truncated.
  unfold BuilderAgent.on. rewrite String.eqb_refl.
  split; [|split; [|split; [|split]]].
  - rewrite loop_convo. reflexivity.
  - match goal with |- context [BuilderAgent.loop ?x] =>
      destruct (loop_out x) as [more Hmore] end.
    exists more. rewrite Hmore. cbn [BuilderAgent.onUpdate BuilderAgent.emit
      BuilderAgent.push BuilderAgent.out].
    now rewrite <- app_assoc.
  - apply slice0_length.
  - apply slice0_prefix.
  - apply slice0_short.
Qed.

Section TurnDiscipline.

Import BuilderAgent.
Local Open Scope string_scope.

Variable parseTurn : string -> PlannerTurn + string.
Variable stringify : PlannerMsg -> string.
Variable trim : string -> string.

Lemma turns_app us1 : forall active us2,
  turns active (us1 ++ us2)%list
  = match turns active us1 with
    | Some active' => turns active' us2
    | None => None
    end.
Proof.
  induction us1 as [|u us1 IH]; intros active us2; [reflexivity|].
  destruct u; cbn; try apply IH.
  destruct active as [r'|]; [|reflexivity].
  destruct (String.eqb requestId r'); [apply IH|reflexivity].
Qed.

(** A trace that reads turn by turn has no more stops than turns. *)
Lemma turns_count us : forall active active',
  turns active us = Some active' ->
  List.length (filter isPlanningStop us) + openTurns active'
  <= List.length (filter isUserTurn us) + openTurns active.
Proof.
  induction us as [|u us IH]; intros active active' H.
  - cbn in H. injection H as <-. cbn. lia.
  - destruct u; cbn in H |- *; try (apply IH; exact H).
    + apply IH in H. unfold openTurns in *. destruct active; lia.
    + destruct active as [r'|]; [|discriminate].
      destruct (String.eqb requestId r'); [|discriminate].
      apply IH in H. unfold openTurns in *. lia.
Qed.

Lemma agree_neutral req o x :
  neutral x = true -> agree req o -> agree req (o ++ [x])%list.
Proof.
  unfold agree. intros Hx. rewrite uiEvents_app, turns_app.
  destruct (turns None (uiEvents o)) as [active|]; [|trivial].
  destruct x as [u| |]; cbn; trivial.
  destruct u; cbn; trivial; discriminate.
Qed.

Lemma agree_stop r o aid reason detail :
  nonEmpty r = true ->
  agree (Some r) o ->
  agree None (o ++ [OUi (PlanningStop aid r reason detail)])%list.
Proof.
  unfold agree. intros Hr. rewrite uiEvents_app, turns_app.
  destruct (turns None (uiEvents o)) as [active|]; [|trivial].
  intros H. rewrite (H Hr). cbn. rewrite String.eqb_refl.
  cbn. discriminate.
Qed.

Lemma agree_turn req r o aid text :
  agree req o -> agree (Some r) (o ++ [OUi (UserTurn aid r text)])%list.
Proof.
  unfold agree. rewrite uiEvents_app, turns_app.
  destruct (turns None (uiEvents o)) as [active|]; [|trivial].
  cbn. trivial.
Qed.

Create HintDb turn discriminated.

Lemma disciplined_emit o a :
  neutral o = true -> disciplined a -> disciplined (emit o a).
Proof. intros Ho H. unfold disciplined. cbn. now apply agree_neutral. Qed.

Lemma disciplined_onUpdate u a :
  neutral (OUi u) = true -> disciplined a -> disciplined (onUpdate u a).
Proof. apply disciplined_emit. Qed.

Lemma disciplined_push r c a : disciplined a -> disciplined (push r c a).
Proof. trivial. Qed.

Lemma disciplined_setSteps n a : disciplined a -> disciplined (setSteps n a).
Proof. trivial. Qed.

Lemma disciplined_setInterrupted b a :
  disciplined a -> disciplined (setInterrupted b a).
Proof. trivial. Qed.

Lemma disciplined_setPending p a : disciplined a -> disciplined (setPending p a).
Proof. trivial. Qed.

Lemma disciplined_llmOnce prompt w a :
  disciplined a -> disciplined (llmOnce prompt w a).
Proof.
  intros H. unfold disciplined, llmOnce. cbn. now apply agree_neutral.
Qed.

(** The guard of [emitPlanningStop] is what keeps the trace in step. *)
Lemma disciplined_emitPlanningStop reason detail a :
  disciplined a -> disciplined (emitPlanningStop reason detail a).
Proof.
  intros H. unfold emitPlanningStop.
  destruct (currentReqId a) as [r|] eqn:E; [|exact H].
  destruct (nonEmpty r) eqn:Hr; [|exact H].
  unfold disciplined in *. cbn. rewrite E in H. now apply agree_stop.
Qed.

#[local] Hint Resolve disciplined_emit disciplined_onUpdate disciplined_push
  disciplined_setSteps disciplined_setInterrupted disciplined_setPending
  disciplined_llmOnce disciplined_emitPlanningStop : turn.

Lemma disciplined_loop a : disciplined a -> disciplined (loop a).
Proof.
  intros H. unfold loop.
  destruct (interrupted a); [auto with turn|].
  destruct (Nat.leb MAX_STEPS (steps a)); auto with turn.
Qed.

#[local] Hint Resolve disciplined_loop : turn.

Lemma disciplined_submitEffect e a :
  disciplined a -> disciplined (submitEffect e a).
Proof. intros H. now apply disciplined_emit. Qed.

#[local] Hint Resolve disciplined_submitEffect : turn.

Lemma disciplined_handleMessage msg a :
  disciplined a -> disciplined (handleMessage trim msg a).
Proof. intros H. destruct msg; cbn [handleMessage]; auto 6 with turn. Qed.

Lemma disciplined_plannerError message a :
  disciplined a -> disciplined (plannerError message a).
Proof. intros H. unfold plannerError. auto with turn. Qed.

#[local] Hint Resolve disciplined_handleMessage disciplined_plannerError : turn.

Lemma disciplined_parseOrRepair i lastErr raw a :
  disciplined a ->
  disciplined (parseOrRepair parseTurn stringify trim i lastErr raw a).
Proof.
  intros H. unfold parseOrRepair, accepted, exhausted, ask.
  destruct (Nat.leb i MAX_REPAIRS); [|auto with turn].
  destruct (parseTurn raw) as [turn|hint]; [auto with turn|].
  destruct (Nat.eqb i MAX_REPAIRS); auto with turn.
Qed.

#[local] Hint Resolve disciplined_parseOrRepair : turn.

Lemma disciplined_on event now a : disciplined a -> disciplined (on event now a).
Proof.
  intros H. destruct event; cbn [on]; trivial.
  - destruct (String.eqb target (id a)); auto with turn.
  - destruct (String.eqb target (id a)); [|exact H].
    apply disciplined_loop.
    apply disciplined_onUpdate; [reflexivity|].
    unfold disciplined in *. cbn.
    now apply agree_turn with (req := currentReqId a).
  - destruct (String.eqb target (id a)); auto 6 with turn.
Qed.

Lemma disciplined_step a i :
  disciplined a -> disciplined (step parseTurn stringify trim a i).
Proof.
  intros H. destruct i as [event now| |c text|c message]; cbn [step].
  - now apply disciplined_on.
  - exact H.
  - unfold llmResolved.
    destruct (lookup c (pending a)) as [[|i lastErr]|]; auto with turn.
  - unfold llmRejected.
    destruct (lookup c (pending a)) as [[|i lastErr]|]; auto with turn.
Qed.

Lemma disciplined_run inputs : forall a,
  disciplined a -> disciplined (run parseTurn stringify trim a inputs).
Proof.
  induction inputs as [|i inputs IH]; intros a H; [exact H|].
  cbn [run fold_left]. apply IH. now apply disciplined_step.
Qed.

Lemma disciplined_init SYSTEM agentId : disciplined (init SYSTEM agentId).
Proof. unfold disciplined, agree. cbn. discriminate. Qed.

End TurnDiscipline.

(** C9.  Whatever inputs reach a fresh agent, in whatever order, its trace
    reads turn by turn: every [planning-stop] carries the request id of the
    latest [user-turn] and is the only one since that [user-turn], and none
    comes before the first [user-turn]; so there are never more stops than
    turns.  This rests on [emitPlanningStop]: without a current request id
    (none, or the empty string) it changes nothing, and with one it emits a
    single [planning-stop] for that id and clears it. *)
Theorem C9_one_stop_per_turn :
  forall (SYSTEM : string)
         (parseTurn : string -> BuilderAgent.PlannerTurn + string)
         (stringify : BuilderAgent.PlannerMsg -> string)
         (trim : string -> string)
         (agentId : string) (inputs : list BuilderAgent.Input),
    let a := BuilderAgent.run parseTurn stringify trim
               (BuilderAgent.init SYSTEM agentId) inputs in
    let us := BuilderAgent.uiEvents (BuilderAgent.out a) in
    (exists active, BuilderAgent.turns None us = Some active)
    /\ List.length (filter BuilderAgent.isPlanningStop us)
       <= List.length (filter BuilderAgent.isUserTurn us)
    /\ (forall b reason detail,
           truthy (BuilderAgent.currentReqId b) = false ->
           BuilderAgent.emitPlanningStop reason detail b = b)
    /\ (forall b reason detail r,
           BuilderAgent.currentReqId b = Some r ->
           nonEmpty r = true ->
           BuilderAgent.out (BuilderAgent.emitPlanningStop reason detail b)
           = BuilderAgent.out b
             ++ [BuilderAgent.OUi
                   (PlanningStop (BuilderAgent.id b) r reason (spread detail))]
           /\ BuilderAgent.currentReqId
                (BuilderAgent.emitPlanningStop reason detail b) = None).
Proof.
  intros SYSTEM parseTurn stringify trim agentId inputs a us.
  assert (H : BuilderAgent.disciplined a).
  { apply disciplined_run, disciplined_init. }
  unfold BuilderAgent.disciplined, BuilderAgent.agree in H. fold us in H.
  destruct (BuilderAgent.turns None us) as [active|] eqn:E; [|contradiction].
  split; [now exists active|]. split.
  - pose proof (turns_count us None active E) as Hc.
    unfold BuilderAgent.openTurns in Hc. destruct active; lia.
  - split.
    + intros b reason detail Hb. unfold BuilderAgent.emitPlanningStop.
      destruct (BuilderAgent.currentReqId b) as [r|]; [|reflexivity].
      cbn in Hb. now rewrite Hb.
    + intros b reason detail r Hb Hr. unfold BuilderAgent.emitPlanningStop.
      rewrite Hb, Hr. split; reflexivity.
Qed.

Section RoundFacts.

Import BuilderAgent.
Local Open Scope string_scope.

Variable parseTurn : string -> PlannerTurn + string.
Variable stringify : PlannerMsg -> string.
Variable trim : string -> string.

Abbreviation llmResolved := (llmResolved parseTurn stringify trim).
Abbreviation parseOrRepair := (parseOrRepair parseTurn stringify trim).

Lemma llmResolved_raw c text p a :
  pending a = (c, AwaitRaw) :: p ->
  llmResolved c text a = parseOrRepair 0 "" text (setPending p a).
Proof.
  intros H. unfold BuilderAgent.llmResolved. rewrite H.
  cbn [lookup remove]. now rewrite Nat.eqb_refl.
Qed.

Lemma llmResolved_repair c i lastErr text p a :
  pending a = (c, AwaitRepair i lastErr) :: p ->
  llmResolved c text a = parseOrRepair (S i) lastErr text (setPending p a).
Proof.
  intros H. unfold BuilderAgent.llmResolved. rewrite H.
  cbn [lookup remove]. now rewrite Nat.eqb_refl.
Qed.

(** An invalid text with repairs left: one more request to the model. *)
Lemma parseOrRepair_retry i lastErr raw hint a :
  i < MAX_REPAIRS ->
  parseTurn raw = inr hint ->
  parseOrRepair i lastErr raw a = ask i (slice0 2000 hint) a.
Proof.
  intros Hi Hp. unfold BuilderAgent.parseOrRepair. rewrite Hp.
  assert (H1 : Nat.leb i MAX_REPAIRS = true) by (apply Nat.leb_le; lia).
  assert (H2 : Nat.eqb i MAX_REPAIRS = false) by (apply Nat.eqb_neq; lia).
  now rewrite H1, H2.
Qed.

(** An invalid text with no repair left: the loop is left with an error. *)
Lemma parseOrRepair_give_up i lastErr raw hint a :
  i = MAX_REPAIRS ->
  parseTurn raw = inr hint ->
  parseOrRepair i lastErr raw a = exhausted (slice0 2000 hint) a.
Proof.
  intros -> Hp. unfold BuilderAgent.parseOrRepair. rewrite Hp. reflexivity.
Qed.

Lemma parseOrRepair_accept i lastErr raw turn a :
  i <= MAX_REPAIRS ->
  parseTurn raw = inl turn ->
  parseOrRepair i lastErr raw a = accepted stringify trim turn a.
Proof.
  intros Hi Hp. unfold BuilderAgent.parseOrRepair. rewrite Hp.
  apply Nat.leb_le in Hi. now rewrite Hi.
Qed.

(** A round whose first text and whose two repaired texts are all invalid. *)
Lemma three_invalid_texts a t0 t1 t2 h0 h1 h2 :
  interrupted a = false ->
  steps a < MAX_STEPS ->
  parseTurn t0 = inr h0 ->
  parseTurn t1 = inr h1 ->
  parseTurn t2 = inr h2 ->
  let c := nextCall a in
  let a' := run parseTurn stringify trim (loop a) (answers c [t0; t1; t2]) in
  let message :=
    "planner output invalid: "
    ++ (if nonEmpty (slice0 2000 h2) then slice0 2000 h2
        else "unknown validation error") in
  exists p0 p1 p2,
    out a'
    = (out a
       ++ [OLlmOnce c p0 (id a); OLlmOnce (S c) p1 (id a);
           OLlmOnce (S (S c)) p2 (id a); OUi (ErrorEv PhPlanner message)]
       ++ stopEvents a RError (Some message))%list
    /\ steps a' = S (steps a)
    /\ pending a' = pending a
    /\ nextCall a' = S (S (S c))
    /\ currentReqId a'
       = (if truthy (currentReqId a) then None else currentReqId a).
Proof.
  intros Hint Hsteps H0 H1 H2 c a' message. subst a' c message.
  rewrite (loop_calls a Hint Hsteps).
  cbn [answers run fold_left step].
  rewrite (llmResolved_raw (nextCall a) t0 (pending a)) by reflexivity.
  rewrite (parseOrRepair_retry 0 "" t0 h0) by (trivial; unfold MAX_REPAIRS; lia).
  erewrite (llmResolved_repair (S (nextCall a)) 0 _ t1 (pending a))
    by reflexivity.
  rewrite (parseOrRepair_retry 1 _ t1 h1) by (trivial; unfold MAX_REPAIRS; lia).
  erewrite (llmResolved_repair (S (S (nextCall a))) 1 _ t2 (pending a))
    by reflexivity.
  rewrite (parseOrRepair_give_up 2 _ t2 h2) by trivial.
  unfold exhausted, plannerError.
  rewrite emitPlanningStop_out, emitPlanningStop_req.
  match goal with |- context [emitPlanningStop ?r ?d ?x] =>
    destruct (emitPlanningStop_frame r d x) as (_ & _ & Hs & _ & Hp & Hn)
  end.
  rewrite Hs, Hp, Hn.
  do 3 eexists.
  split; [|split; [|split; [|split]]]; try reflexivity.
  cbn [onUpdate emit out ask llmOnce push setPending setSteps id
       currentReqId convo nextCall].
  rewrite <- !app_assoc. cbn [app].
  reflexivity.
Qed.

End RoundFacts.







Section StepBudget.

Import BuilderAgent.
Local Open Scope string_scope.

Variable parseTurn : string -> PlannerTurn + string.
Variable stringify : PlannerMsg -> string.
Variable trim : string -> string.

Abbreviation llmResolved := (llmResolved parseTurn stringify trim).
Abbreviation run := (run parseTurn stringify trim).

Lemma answers_app texts1 : forall c texts2,
  answers c (texts1 ++ texts2)%list
  = (answers c texts1 ++ answers (c + List.length texts1) texts2)%list.
Proof.
  induction texts1 as [|t texts1 IH]; intros c texts2; cbn.
  - now rewrite Nat.add_0_r.
  - rewrite IH. now rewrite <- plus_n_Sm.
Qed.

Lemma run_app inputs1 inputs2 a :
  run a (inputs1 ++ inputs2)%list = run (run a inputs1) inputs2.
Proof. unfold BuilderAgent.run. apply fold_left_app. Qed.

(** The start of a turn: the counter is reset and the first round calls
    the model. *)
Lemma turn_start a text reqId now :
  let r := requestIdOf reqId now in
  let a0 := on (UserInput text (id a) reqId) now a in
  awaitingRound a0 (nextCall a) 1 (pending a)
  /\ id a0 = id a
  /\ currentReqId a0 = Some r
  /\ exists prompt,
       out a0
       = (out a ++ [OUi (UserTurn (id a) r text);
                    OUi (PlanningStart (id a) r);
                    OLlmOnce (nextCall a) prompt (id a)])%list.
Proof.
  cbv zeta. unfold on. rewrite String.eqb_refl.
  rewrite loop_calls by (cbn; unfold MAX_STEPS; trivial; lia).
  unfold awaitingRound, requestIdOf. cbn.
  repeat split. eexists. rewrite <- !app_assoc. reflexivity.
Qed.

(** A round answered by a [step] message while the budget lasts: the step
    is shown and the next round calls the model. *)
Lemma one_round b c k p text :
  awaitingRound b c k p ->
  k < MAX_STEPS ->
  stepText parseTurn text ->
  let b1 := llmResolved c text b in
  awaitingRound b1 (S c) (S k) p
  /\ id b1 = id b
  /\ currentReqId b1 = currentReqId b
  /\ exists ev prompt,
       isStepEv ev = true
       /\ out b1 = (out b ++ [OUi ev; OLlmOnce (S c) prompt (id b)])%list.
Proof.
  intros (Hint & Hk & Hp & Hn) Hlt (step & goal & say & Hparse). cbv zeta.
  rewrite (llmResolved_raw parseTurn stringify trim c text p b Hp).
  rewrite (parseOrRepair_accept parseTurn stringify trim 0 "" text _ _
             (Nat.le_0_l _) Hparse).
  unfold accepted. cbn [message handleMessage].
  rewrite loop_calls by (cbn; trivial; lia).
  unfold awaitingRound. cbn. rewrite Hint, Hk, Hn.
  repeat split.
  exists (StepEv step goal (spread say)). eexists.
  split; [reflexivity|]. rewrite <- !app_assoc. reflexivity.
Qed.

(** As many such rounds as the budget allows. *)
Lemma rounds texts : forall b c k p,
  awaitingRound b c k p ->
  k + List.length texts <= MAX_STEPS ->
  Forall (stepText parseTurn) texts ->
  let b' := run b (answers c texts) in
  awaitingRound b' (c + List.length texts) (k + List.length texts) p
  /\ id b' = id b
  /\ currentReqId b' = currentReqId b
  /\ exists tr,
       out b' = (out b ++ tr)%list
       /\ modelCalls tr = seq (S c) (List.length texts)
       /\ List.length (uiEvents tr) = List.length texts
       /\ forallb isStepEv (uiEvents tr) = true.
Proof.
  induction texts as [|text texts IH]; intros b c k p Hb Hle Hall; cbv zeta.
  - cbn. rewrite !Nat.add_0_r.
    split; [exact Hb|]. split; [reflexivity|]. split; [reflexivity|].
    exists []. rewrite app_nil_r. repeat split.
  - inversion Hall as [|? ? Htext Hall']; subst.
    cbn [List.length] in Hle.
    destruct (one_round b c k p text Hb ltac:(lia) Htext)
      as (Hb1 & Hid1 & Hreq1 & ev & prompt & Hev & Hout1).
    destruct (IH _ _ _ _ Hb1 ltac:(lia) Hall')
      as (Hb' & Hid' & Hreq' & tr & Hout' & Hcalls & Hlen & Hsteps).
    cbn [answers BuilderAgent.run fold_left step List.length].
    fold (run (llmResolved c text b) (answers (S c) texts)).
    rewrite <- !plus_n_Sm. cbn [Nat.add] in Hb'.
    split; [exact Hb'|]. split; [congruence|]. split; [congruence|].
    exists (OUi ev :: OLlmOnce (S c) prompt (id b) :: tr).
    rewrite Hout', Hout1, <- app_assoc. cbn [app].
    split; [reflexivity|]. cbn [modelCalls uiEvents seq List.length forallb].
    rewrite Hcalls, Hlen, Hev, Hsteps. repeat split.
Qed.

(** The round after the last one allowed: the step is shown, then the
    agent stops. *)
Lemma last_round b c k p text :
  awaitingRound b c k p ->
  MAX_STEPS <= k ->
  stepText parseTurn text ->
  let b1 := llmResolved c text b in
  exists ev,
    isStepEv ev = true
    /\ out b1
       = (out b ++ [OUi ev; OUi (StatusEv SMaxSteps)]
          ++ stopEvents b RMaxSteps (Some "Reached 12 planner steps"))%list
    /\ pending b1 = p
    /\ steps b1 = k
    /\ nextCall b1 = S c
    /\ currentReqId b1
       = (if truthy (currentReqId b) then None else currentReqId b).
Proof.
  intros (Hint & Hk & Hp & Hn) Hle (step & goal & say & Hparse). cbv zeta.
  rewrite (llmResolved_raw parseTurn stringify trim c text p b Hp).
  rewrite (parseOrRepair_accept parseTurn stringify trim 0 "" text _ _
             (Nat.le_0_l _) Hparse).
  unfold accepted. cbn [message handleMessage].
  rewrite loop_max_steps by (cbn; trivial; lia).
  rewrite emitPlanningStop_out, emitPlanningStop_req.
  match goal with |- context [emitPlanningStop ?r ?d ?x] =>
    destruct (emitPlanningStop_frame r d x) as (_ & _ & Hs & _ & Hpe & Hne)
  end.
  rewrite Hs, Hpe, Hne.
  exists (StepEv step goal (spread say)).
  split; [reflexivity|].
  split; [|cbn; rewrite Hk, Hn; repeat split].
  cbn [onUpdate emit out push setPending].
  rewrite <- !app_assoc. reflexivity.
Qed.

End StepBudget.

(** The step budget of a user turn, whatever its request id.  A user turn
    in which every round is answered by a
    valid [step] message: the step counter is reset at the start of the turn
    and stands at 1 when the first round awaits the model; answered
    [MAX_STEPS] times, the agent makes exactly [MAX_STEPS] model calls,
    numbered consecutively, shows a step for each, and then emits the
    [status] event "max-steps" and awaits nothing more from the model.  A
    [planning-stop] with reason "max-steps" follows exactly when the request
    id of the turn is not the empty string. *)
Theorem C4_step_budget :
  forall (parseTurn : string -> BuilderAgent.PlannerTurn + string)
         (stringify : BuilderAgent.PlannerMsg -> string)
         (trim : string -> string)
         (a : BuilderAgent.Agent) (text : string) (reqId : option string)
         (now : nat) (texts : list string),
    List.length texts = BuilderAgent.MAX_STEPS ->
    Forall (BuilderAgent.stepText parseTurn) texts ->
    let r := BuilderAgent.requestIdOf reqId now in
    let a0 := BuilderAgent.on (UserInput text (BuilderAgent.id a) reqId) now a in
    let a' := BuilderAgent.run parseTurn stringify trim a0
                (BuilderAgent.answers (BuilderAgent.nextCall a) texts) in
    BuilderAgent.steps a0 = 1
    /\ exists tr stepEvs,
         BuilderAgent.out a' = BuilderAgent.out a ++ tr
         /\ BuilderAgent.modelCalls tr
            = seq (BuilderAgent.nextCall a) BuilderAgent.MAX_STEPS
         /\ List.length stepEvs = BuilderAgent.MAX_STEPS
         /\ forallb BuilderAgent.isStepEv stepEvs = true
         /\ BuilderAgent.uiEvents tr
            = [UserTurn (BuilderAgent.id a) r text;
               PlanningStart (BuilderAgent.id a) r]
              ++ stepEvs
              ++ [StatusEv SMaxSteps]
              ++ (if nonEmpty r
                  then [PlanningStop (BuilderAgent.id a) r RMaxSteps
                          (Some "Reached 12 planner steps")]
                  else [])
         /\ BuilderAgent.steps a' = BuilderAgent.MAX_STEPS
         /\ BuilderAgent.pending a' = BuilderAgent.pending a
         /\ BuilderAgent.nextCall a'
            = BuilderAgent.nextCall a + BuilderAgent.MAX_STEPS
         /\ BuilderAgent.currentReqId a'
            = (if nonEmpty r then None else Some r).
Proof.
  intros parseTurn stringify trim a text reqId now texts Hlen Hall r a0 a'.
  destruct (turn_start a text reqId now) as (H0 & Hid0 & Hreq0 & prompt0 & Hout0).
  fold r in Hreq0, Hout0. fold a0 in H0, Hid0, Hreq0, Hout0.
  split; [exact (proj1 (proj2 H0))|].
  destruct (exists_last (l := texts)) as (front & final & ->);
    [intros ->; discriminate|].
  rewrite length_app in Hlen. cbn in Hlen.
  apply Forall_app in Hall. destruct Hall as [Hfront Hfinal].
  inversion Hfinal as [|? ? Hfin _]; subst.
  assert (Hfl : List.length front = 11) by (unfold BuilderAgent.MAX_STEPS in Hlen; lia).
  destruct (rounds parseTurn stringify trim front a0 _ 1 _ H0
              ltac:(rewrite Hfl; unfold BuilderAgent.MAX_STEPS; lia) Hfront)
    as (Hb & Hidb & Hreqb & tr1 & Hout1 & Hcalls1 & Hlen1 & Hsteps1).
  rewrite Hfl in Hb, Hcalls1, Hlen1.
  subst a'. rewrite answers_app, run_app, Hfl.
  remember (BuilderAgent.run parseTurn stringify trim a0
              (BuilderAgent.answers (BuilderAgent.nextCall a) front)) as b eqn:Eb.
  cbn [BuilderAgent.answers BuilderAgent.run fold_left BuilderAgent.step].
  destruct (last_round parseTurn stringify trim b _ _ _ final Hb
              ltac:(unfold BuilderAgent.MAX_STEPS; lia) Hfin)
    as (ev & Hev & Hout & Hpend & Hst & Hnext & Hreq).
  rewrite Hout, Hpend, Hst, Hnext, Hreq, Hout1, Hout0.
  rewrite Hreqb, Hreq0.
  unfold BuilderAgent.stopEvents. rewrite Hreqb, Hreq0, Hidb, Hid0.
  exists ([BuilderAgent.OUi (UserTurn (BuilderAgent.id a) r text);
           BuilderAgent.OUi (PlanningStart (BuilderAgent.id a) r);
           BuilderAgent.OLlmOnce (BuilderAgent.nextCall a) prompt0
             (BuilderAgent.id a)]
          ++ tr1
          ++ [BuilderAgent.OUi ev; BuilderAgent.OUi (StatusEv SMaxSteps)]
          ++ (if nonEmpty r
              then [BuilderAgent.OUi
                      (PlanningStop (BuilderAgent.id a) r RMaxSteps
                         (Some "Reached 12 planner steps"))]
              else [])).
  exists (BuilderAgent.uiEvents tr1 ++ [ev]).
  split; [now rewrite <- !app_assoc|].
  split.
  { rewrite !modelCalls_app, Hcalls1. cbn [BuilderAgent.modelCalls app].
    destruct (nonEmpty r); cbn [BuilderAgent.modelCalls];
      now rewrite app_nil_r. }
  split; [rewrite length_app, Hlen1; reflexivity|].
  split; [rewrite forallb_app, Hsteps1; cbn; now rewrite Hev|].
  split.
  { rewrite !uiEvents_app. cbn [BuilderAgent.uiEvents app].
    rewrite <- !app_assoc. cbn [app].
    destruct (nonEmpty r); reflexivity. }
  split; [reflexivity|]. split; [reflexivity|].
  split; [unfold BuilderAgent.MAX_STEPS; lia|].
  unfold truthy. reflexivity.
Qed.

Lemma C4_step_budget_witness :
  let texts := repeat "next" 12 in
  List.length texts = BuilderAgent.MAX_STEPS
  /\ Forall (BuilderAgent.stepText BuilderAgent.Sample.alwaysStep) texts
  /\ exists tr,
       BuilderAgent.out
         (BuilderAgent.run BuilderAgent.Sample.alwaysStep
            BuilderAgent.Sample.stringify BuilderAgent.Sample.trim
            (BuilderAgent.on (UserInput "build it" "agent#1" (Some "user-1")) 0
               (BuilderAgent.init BuilderAgent.Sample.SYSTEM "agent#1"))
            (BuilderAgent.answers 0 texts))
       = tr
       /\ BuilderAgent.modelCalls tr = seq 0 12.
Proof.
  cbv zeta.
  assert (Hall : Forall (BuilderAgent.stepText BuilderAgent.Sample.alwaysStep)
                   (repeat "next" 12)).
  { apply Forall_forall. intros t _. now exists 1, "plan", None. }
  split; [reflexivity|]. split; [exact Hall|].
  destruct (C4_step_budget BuilderAgent.Sample.alwaysStep
              BuilderAgent.Sample.stringify BuilderAgent.Sample.trim
              (BuilderAgent.init BuilderAgent.Sample.SYSTEM "agent#1")
              "build it" (Some "user-1") 0 (repeat "next" 12) eq_refl Hall)
    as (_ & tr & stepEvs & Hout & Hcalls & _).
  exists tr. split; [exact Hout | exact Hcalls].
Defined.

(** C4.  The code at a user input whose request id is the empty string.
    [on] takes the empty string for the request id of the turn ([??] replaces
    only a missing id) and opens the turn with it; the model answers a [step]
    message twelve times; the agent makes its twelve calls, shows twelve
    steps and emits the [status] event "max-steps"; but [emitPlanningStop]
    takes the same empty id for no request, and no [planning-stop] with
    reason "max-steps" follows: the turn is never closed. *)
Lemma C4_counterexample :
  let a := BuilderAgent.run BuilderAgent.Sample.alwaysStep
             BuilderAgent.Sample.stringify BuilderAgent.Sample.trim
             (BuilderAgent.init BuilderAgent.Sample.SYSTEM "agent#1")
             (BuilderAgent.IOn (UserInput "build it" "agent#1" (Some "")) 0
              :: BuilderAgent.answers 0 (repeat "next" 12)) in
  BuilderAgent.modelCalls (BuilderAgent.out a) = seq 0 12
  /\ BuilderAgent.uiEvents (BuilderAgent.out a)
     = [UserTurn "agent#1" "" "build it"; PlanningStart "agent#1" ""]
       ++ repeat (StepEv 1 "plan" None) 12
       ++ [StatusEv SMaxSteps]
  /\ filter BuilderAgent.isPlanningStop (BuilderAgent.uiEvents (BuilderAgent.out a))
     = []
  /\ BuilderAgent.pending a = [].
Proof.
  cbv zeta. repeat split; vm_compute; reflexivity.
Qed.

(* ====================================================================== *)
(** * Properties of the event-stream framing *)
(* ====================================================================== *)

Section StringFacts.

Local Open Scope string_scope.

Lemma length_append (s t : string) :
  String.length (s ++ t) = String.length s + String.length t.
Proof. induction s as [|c s IH]; cbn; [reflexivity|now rewrite IH]. Qed.

Lemma prefix_refl_app (n x : string) : String.prefix n (n ++ x) = true.
Proof.
  induction n as [|c n IH]; cbn; [now destruct x|].
  destruct (ascii_dec c c); [exact IH|congruence].
Qed.

Lemma prefix_empty (s : string) : String.prefix "" s = true.
Proof. now destruct s. Qed.

(** A prefix test against a text at least as long as the needle does not
    look past that text. *)
Lemma prefix_app_long (n : string) : forall s x,
  String.length n <= String.length s ->
  String.prefix n (s ++ x) = String.prefix n s.
Proof.
  induction n as [|c n IH]; intros s x Hlen.
  - now rewrite !prefix_empty.
  - destruct s as [|d s]; cbn in Hlen; [lia|].
    cbn. destruct (ascii_dec c d); [apply IH; lia|reflexivity].
Qed.

Lemma prefix_length (n : string) : forall s,
  String.prefix n s = true -> String.length n <= String.length s.
Proof.
  induction n as [|c n IH]; intros s H; cbn; [lia|].
  destruct s as [|d s]; cbn in H; [discriminate|].
  destruct (ascii_dec c d); [|discriminate].
  apply IH in H. cbn. lia.
Qed.

Lemma prefix_split (n : string) : forall s,
  String.prefix n s = true -> s = n ++ Sse.sliceFrom (String.length n) s.
Proof.
  induction n as [|c n IH]; intros s H; [reflexivity|].
  destruct s as [|d s]; cbn in H; [discriminate|].
  destruct (ascii_dec c d) as [->|]; [|discriminate].
  cbn. f_equal. now apply IH.
Qed.

Lemma prefix_of_slice0 (n : string) : forall s k,
  String.prefix n (slice0 k s) = true -> String.prefix n s = true.
Proof.
  unfold slice0.
  induction n as [|c n IH]; intros s k H; [apply prefix_empty|].
  destruct s as [|d s]; destruct k as [|k]; cbn in H; try discriminate.
  cbn. destruct (ascii_dec c d); [|discriminate]. now apply IH with (k := k).
Qed.

Lemma slice0_app (s : string) : forall k x,
  k <= String.length s -> slice0 k (s ++ x) = slice0 k s.
Proof.
  unfold slice0.
  induction s as [|c s IH]; intros [|k] x H; cbn in *; try reflexivity; try lia.
  - now destruct x.
  - rewrite IH; [reflexivity|lia].
Qed.

Lemma sliceFrom_app (s : string) : forall k x,
  k <= String.length s -> Sse.sliceFrom k (s ++ x) = Sse.sliceFrom k s ++ x.
Proof.
  induction s as [|c s IH]; intros [|k] x H; cbn in *; try reflexivity; try lia.
  apply IH. lia.
Qed.

Lemma sliceFrom_length (s : string) : forall k,
  String.length (Sse.sliceFrom k s) = String.length s - k.
Proof.
  induction s as [|c s IH]; intros [|k]; cbn; try reflexivity. apply IH.
Qed.

End StringFacts.

Section IndexFacts.

Import Sse.
Local Open Scope string_scope.

Variable needle : string.
Hypothesis needle_not_empty : needle <> "".

Lemma indexOf_empty : indexOf needle "" = None.
Proof.
  cbn. destruct needle; [congruence|reflexivity].
Qed.

(** The text around the first occurrence. *)
Lemma indexOf_split s : forall i,
  indexOf needle s = Some i ->
  s = slice0 i s ++ needle ++ sliceFrom (i + String.length needle) s.
Proof.
  unfold slice0.
  induction s as [|c s IH]; intros i H.
  - rewrite indexOf_empty in H. discriminate.
  - cbn [indexOf] in H.
    destruct (String.prefix needle (String c s)) eqn:Hp.
    + injection H as <-. cbn [substring Nat.add append].
      now apply prefix_split.
    + destruct (indexOf needle s) as [j|]; [|discriminate].
      injection H as <-.
      cbn [substring Nat.add sliceFrom append]. f_equal. now apply IH.
Qed.

Lemma indexOf_bound s : forall i,
  indexOf needle s = Some i -> i + String.length needle <= String.length s.
Proof.
  induction s as [|c s IH]; intros i H.
  - rewrite indexOf_empty in H. discriminate.
  - cbn [indexOf] in H.
    destruct (String.prefix needle (String c s)) eqn:Hp.
    + injection H as <-. now apply prefix_length.
    + destruct (indexOf needle s) as [j|]; [|discriminate].
      injection H as <-. specialize (IH j eq_refl). cbn. lia.
Qed.

(** The first occurrence stays the first one when text is appended. *)
Lemma indexOf_app s x : forall i,
  indexOf needle s = Some i -> indexOf needle (s ++ x) = Some i.
Proof.
  induction s as [|c s IH]; intros i H.
  - rewrite indexOf_empty in H. discriminate.
  - pose proof (indexOf_bound _ _ H) as Hb.
    cbn [indexOf append] in H |- *.
    change (String c (s ++ x)) with (String c s ++ x).
    destruct (String.prefix needle (String c s)) eqn:Hp.
    + injection H as <-.
      rewrite prefix_app_long, Hp; [reflexivity|now apply prefix_length].
    + destruct (indexOf needle s) as [j|] eqn:Hj; [|discriminate].
      injection H as <-.
      rewrite prefix_app_long, Hp by lia.
      now rewrite (IH j eq_refl).
Qed.

(** What precedes the first occurrence holds none. *)
Lemma indexOf_before s : forall i,
  indexOf needle s = Some i -> indexOf needle (slice0 i s) = None.
Proof.
  induction s as [|c s IH]; intros i H.
  - rewrite indexOf_empty in H. discriminate.
  - cbn [indexOf] in H.
    destruct (String.prefix needle (String c s)) eqn:Hp.
    + injection H as <-. apply indexOf_empty.
    + destruct (indexOf needle s) as [j|] eqn:Hj; [|discriminate].
      injection H as <-.
      change (slice0 (S j) (String c s)) with (String c (slice0 j s)).
      cbn [indexOf].
      destruct (String.prefix needle (String c (slice0 j s))) eqn:Hq.
      * change (String c (slice0 j s)) with (slice0 (S j) (String c s)) in Hq.
        apply prefix_of_slice0 in Hq. congruence.
      * now rewrite (IH j eq_refl).
Qed.

End IndexFacts.

Section SseFacts.

Import Sse.
Local Open Scope string_scope.

Lemma separator_not_empty : separator <> "".
Proof. discriminate. Qed.

Lemma cutFrames_fuel fuel1 : forall fuel2 s,
  String.length s <= fuel1 -> String.length s <= fuel2 ->
  cutFrames fuel1 s = cutFrames fuel2 s.
Proof.
  induction fuel1 as [|fuel1 IH]; intros fuel2 s H1 H2.
  - destruct s; cbn in H1; [|lia]. now destruct fuel2.
  - destruct fuel2 as [|fuel2].
    + destruct s; cbn in H2; [reflexivity|lia].
    + cbn [cutFrames].
      destruct (indexOf separator s) as [idx|] eqn:Hi; [|reflexivity].
      pose proof (indexOf_bound _ separator_not_empty _ _ Hi) as Hb.
      change (String.length separator) with 2 in Hb.
      rewrite (IH fuel2 (sliceFrom (idx + 2) s));
        [reflexivity | rewrite sliceFrom_length; lia ..].
Qed.

Lemma cutFrames_enough fuel s :
  String.length s <= fuel -> cutFrames fuel s = cut s.
Proof. intros H. unfold cut. now apply cutFrames_fuel. Qed.

Lemma cut_none s : indexOf separator s = None -> cut s = ([], s).
Proof.
  intros H. unfold cut. destruct (String.length s); cbn [cutFrames];
    [reflexivity|].
  now rewrite H.
Qed.

Lemma cut_step s idx :
  indexOf separator s = Some idx ->
  cut s = (slice0 idx s :: fst (cut (sliceFrom (idx + 2) s)),
           snd (cut (sliceFrom (idx + 2) s))).
Proof.
  intros H. pose proof (indexOf_bound _ separator_not_empty _ _ H) as Hb.
  change (String.length separator) with 2 in Hb.
  unfold cut at 1. destruct (String.length s) as [|n] eqn:Hn; [lia|].
  cbn [cutFrames]. rewrite H.
  rewrite cutFrames_enough by (rewrite sliceFrom_length; lia).
  now destruct (cut (sliceFrom (idx + 2) s)).
Qed.

(** Strong induction on the length of the buffer, by cases on whether it
    holds a separator. *)
Lemma cut_ind (P : string -> Prop) :
  (forall s, indexOf separator s = None -> P s) ->
  (forall s idx, indexOf separator s = Some idx ->
                 P (sliceFrom (idx + 2) s) -> P s) ->
  forall s, P s.
Proof.
  intros Hnone Hsome s.
  remember (String.length s) as n eqn:Hn.
  revert s Hn. induction n as [n IH] using lt_wf_ind. intros s Hn.
  destruct (indexOf separator s) as [idx|] eqn:Hi; [|now apply Hnone].
  apply (Hsome s idx Hi).
  pose proof (indexOf_bound _ separator_not_empty _ _ Hi) as Hb.
  change (String.length separator) with 2 in Hb.
  apply (IH (String.length (sliceFrom (idx + 2) s))); [|reflexivity].
  rewrite sliceFrom_length. lia.
Qed.

Lemma cut_rest_clean s : indexOf separator (snd (cut s)) = None.
Proof.
  induction s as [s Hi | s idx Hi IH] using cut_ind.
  - now rewrite cut_none.
  - now rewrite (cut_step s idx Hi).
Qed.

Lemma cut_frames_clean s :
  Forall (fun chunk => indexOf separator chunk = None) (fst (cut s)).
Proof.
  induction s as [s Hi | s idx Hi IH] using cut_ind.
  - rewrite cut_none by trivial. constructor.
  - rewrite (cut_step s idx Hi). cbn [fst]. constructor; [|exact IH].
    now apply indexOf_before.
Qed.

(** Cutting a buffer and then what is left of it with more text appended
    is cutting the whole text. *)
Lemma cut_app x s :
  cut (s ++ x)
  = ((fst (cut s) ++ fst (cut (snd (cut s) ++ x)))%list,
     snd (cut (snd (cut s) ++ x))).
Proof.
  induction s as [s Hi | s idx Hi IH] using cut_ind.
  - rewrite (cut_none s Hi). cbn [fst snd app].
    now destruct (cut (s ++ x)).
  - pose proof (indexOf_bound _ separator_not_empty _ _ Hi) as Hb.
    change (String.length separator) with 2 in Hb.
    rewrite (cut_step (s ++ x) idx (indexOf_app _ separator_not_empty _ _ _ Hi)).
    rewrite (cut_step s idx Hi). cbn [fst snd].
    rewrite sliceFrom_app by lia. rewrite IH. cbn [fst snd].
    rewrite slice0_app by lia. reflexivity.
Qed.

Lemma concat_cons sep y l :
  l <> [] -> String.concat sep (y :: l) = y ++ sep ++ String.concat sep l.
Proof. destruct l; [congruence|reflexivity]. Qed.

(** The frames and the rest, joined by separators, are the buffer. *)
Lemma cut_join s :
  String.concat separator (fst (cut s) ++ [snd (cut s)])%list = s.
Proof.
  induction s as [s Hi | s idx Hi IH] using cut_ind.
  - now rewrite (cut_none s Hi).
  - rewrite (cut_step s idx Hi). cbn [fst snd app].
    rewrite concat_cons by (now destruct (fst (cut (sliceFrom (idx + 2) s)))).
    rewrite IH.
    symmetry. exact (indexOf_split _ separator_not_empty _ _ Hi).
Qed.

(** The state of the generator depends on the text read so far only. *)
Lemma read_all pieces : forall st,
  indexOf separator (buf st) = None ->
  fold_left read pieces st
  = mkState (yielded st ++ fst (cut (buf st ++ LlmAdapter.glue pieces)))%list
            (snd (cut (buf st ++ LlmAdapter.glue pieces))).
Proof.
  induction pieces as [|piece pieces IH]; intros [ys b] Hb; cbn [buf yielded] in *.
  - cbn [fold_left LlmAdapter.glue]. rewrite append_empty_r.
    rewrite (cut_none b Hb). cbn. now rewrite app_nil_r.
  - cbn [fold_left LlmAdapter.glue]. unfold read at 2. cbn [buf yielded].
    destruct (cut (b ++ piece)) as [chunks rest] eqn:Hc.
    rewrite IH; cbn [buf yielded].
    + rewrite <- append_assoc, (cut_app (LlmAdapter.glue pieces) (b ++ piece)).
      rewrite Hc. cbn [fst snd]. now rewrite app_assoc.
    + pose proof (cut_rest_clean (b ++ piece)) as Hr. now rewrite Hc in Hr.
Qed.

Lemma sse_as_cut pieces :
  sseToAsyncIterable pieces
  = (fst (cut (LlmAdapter.glue pieces))
     ++ (if nonEmpty (snd (cut (LlmAdapter.glue pieces)))
         then [snd (cut (LlmAdapter.glue pieces))] else []))%list.
Proof.
  unfold sseToAsyncIterable.
  rewrite read_all by reflexivity. reflexivity.
Qed.

End SseFacts.

(** X1.  What the generator yields depends on the text of the stream and
    not on how the stream is cut into reads: reading the pieces one by one
    yields the same frames as reading their concatenation at once. *)
Theorem X1_sse_read_boundaries :
  forall pieces : list string,
    Sse.sseToAsyncIterable pieces
    = Sse.sseToAsyncIterable [LlmAdapter.glue pieces].
Proof.
  intros pieces. rewrite !sse_as_cut. cbn [LlmAdapter.glue].
  now rewrite append_empty_r.
Qed.

(** X2.  No frame yielded by the generator holds a blank line (two line
    feeds in a row), the unfinished frame yielded at the end of the stream
    included. *)
Theorem X2_sse_frames_hold_no_separator :
  forall pieces : list string,
    Forall (fun chunk => Sse.indexOf Sse.separator chunk = None)
           (Sse.sseToAsyncIterable pieces).
Proof.
  intros pieces. rewrite sse_as_cut. apply Forall_app. split.
  - apply cut_frames_clean.
  - destruct (nonEmpty (snd (Sse.cut (LlmAdapter.glue pieces)))); constructor;
      [apply cut_rest_clean|constructor].
Qed.

(** X3.  The frames joined by blank lines give the text of the stream
    back, up to one blank line at its very end, which the generator
    swallows. *)
Theorem X3_sse_frames_join :
  forall pieces : list string,
    exists ending,
      (ending = EmptyString \/ ending = Sse.separator)
      /\ LlmAdapter.glue pieces
         = String.append
             (String.concat Sse.separator (Sse.sseToAsyncIterable pieces))
             ending.
Proof.
  intros pieces. rewrite sse_as_cut.
  pose proof (cut_join (LlmAdapter.glue pieces)) as Hj.
  destruct (Sse.cut (LlmAdapter.glue pieces)) as [chunks rest].
  cbn [fst snd] in *.
  destruct rest as [|c rest]; cbn [nonEmpty].
  - rewrite app_nil_r.
    destruct chunks as [|chunk chunks] using rev_ind.
    + exists EmptyString. split; [now left|]. now rewrite <- Hj.
    + exists Sse.separator. split; [now right|].
      rewrite <- Hj. clear.
      induction chunks as [|y chunks IH]; [reflexivity|].
      cbn [app]. rewrite !concat_cons by (now destruct chunks).
      rewrite IH. now rewrite !append_assoc.
  - exists EmptyString. split; [now left|].
    now rewrite append_empty_r.
Qed.

(* ====================================================================== *)
(** * Further properties of the scheduler *)
(* ====================================================================== *)

Section LoopFacts.

Import Scheduler.

Lemma nth_error_setNth i pc : forall (ls : list Pc) old,
  nth_error ls i = Some old -> nth_error (setNth i pc ls) i = Some pc.
Proof. intros ls old H. now apply nth_error_setNth_same with (y := old). Qed.

Lemma finished_app lg1 lg2 :
  Runs.finished (lg1 ++ lg2) = Runs.finished lg1 ++ Runs.finished lg2.
Proof. unfold Runs.finished. now rewrite filter_app, map_app. Qed.

Lemma flatten_nil q : flatten q = [] -> q = emptyQueue.
Proof.
  destruct q as [[dh dm dl] [uh um ul]]. unfold flatten. cbn.
  destruct dh, dm, dl, uh, um, ul; cbn; intros H; try discriminate H.
  reflexivity.
Qed.

Lemma getNext_none q : flatten q = [] -> getNext q = None.
Proof.
  intros H. pose proof (dequeue_flatten q) as D. rewrite H in D. tauto.
Qed.

(** An activation that continues after a tick which did some work: it
    finds the loop still running and ticks again. *)
Lemma resume_after_work i s :
  status s = running ->
  nth_error (loops s) i = Some (TickReturned true) ->
  resume i s = tickSync i s.
Proof.
  intros Hs Hpc. unfold resume, loopHead. now rewrite Hpc, Hs.
Qed.

Lemma tickSync_nothing i s :
  flatten (queue s) = [] ->
  tickSync i s = setPc i (TickReturned false) s.
Proof. intros H. unfold tickSync. now rewrite (getNext_none _ H). Qed.

Lemma tickSync_first i s task ts :
  flatten (queue s) = task :: ts ->
  exists l p,
    flatten (queue (tickSync i s)) = ts
    /\ log (tickSync i s) = log s ++ [mkLog LStart (id task) p l]
    /\ loops (tickSync i s) = setNth i (InTask task l p) (loops s)
    /\ status (tickSync i s) = status s.
Proof.
  intros H. pose proof (dequeue_flatten (queue s)) as D. rewrite H in D.
  destruct D as (l & p & rest & Hnext & Hcell & _ & _ & Hfl).
  exists l, p. unfold tickSync. rewrite Hnext, Hcell. cbn.
  repeat split. exact Hfl.
Qed.

(** The loop serving a queue to its end. *)
Lemma serve_queue outcomes : forall s i task l p,
  status s = running ->
  nth_error (loops s) i = Some (InTask task l p) ->
  List.length outcomes = S (List.length (flatten (queue s))) ->
  let s' := run s (Runs.serve i outcomes) in
  started (log s') = started (log s) ++ map id (flatten (queue s))
  /\ Runs.finished (log s')
     = Runs.finished (log s) ++ id task :: map id (flatten (queue s))
  /\ flatten (queue s') = []
  /\ nth_error (loops s') i = Some (TickReturned false)
  /\ status s' = running.
Proof.
  induction outcomes as [|err outcomes IH]; intros s i task l p Hs Hpc Hlen;
    [discriminate|].
  cbv zeta. cbn [Runs.serve flat_map app run fold_left step].
  fold (Runs.serve i outcomes).
  fold (run (resume i (settle i err s)) (Runs.serve i outcomes)).
  assert (Hsettled : settle i err s
                     = setPc i (TickReturned true)
                         (addLog (mkLog (match err with
                                         | None => LEnd
                                         | Some m => LError m
                                         end) (id task) p l) s)).
  { unfold settle. now rewrite Hpc. }
  set (s1 := settle i err s) in *.
  assert (Hs1 : status s1 = running) by (now rewrite Hsettled).
  assert (Hpc1 : nth_error (loops s1) i = Some (TickReturned true)).
  { rewrite Hsettled. cbn. now apply nth_error_setNth with (old := InTask task l p). }
  assert (Hq1 : queue s1 = queue s) by (now rewrite Hsettled).
  assert (Hst1 : started (log s1) = started (log s)).
  { rewrite Hsettled. unfold setPc, addLog. cbn [log]. rewrite started_app.
    destruct err; cbn; now rewrite app_nil_r. }
  assert (Hfin1 : Runs.finished (log s1) = Runs.finished (log s) ++ [id task]).
  { rewrite Hsettled. unfold setPc, addLog. cbn [log]. unfold Runs.finished.
    rewrite filter_app, map_app. now destruct err. }
  rewrite (resume_after_work i s1 Hs1 Hpc1).
  cbn [List.length] in Hlen. injection Hlen as Hlen.
  destruct (flatten (queue s)) as [|next ts] eqn:Hfl.
  - destruct outcomes; [|discriminate].
    rewrite tickSync_nothing by (now rewrite Hq1).
    cbn [Runs.serve flat_map run fold_left].
    cbn [setPc log queue status loops map].
    rewrite Hst1, Hfin1, Hq1, Hfl, Hs1, app_nil_r.
    repeat split; trivial.
    now apply nth_error_setNth with (old := TickReturned true).
  - destruct (tickSync_first i s1 next ts ltac:(now rewrite Hq1))
      as (l' & p' & Hfl' & Hlog' & Hloops' & Hst').
    specialize (IH (tickSync i s1) i next l' p').
    cbv zeta in IH. rewrite Hfl' in IH.
    destruct IH as (K1 & K2 & K3 & K4 & K5).
    + now rewrite Hst'.
    + rewrite Hloops'. now apply nth_error_setNth with (old := TickReturned true).
    + exact Hlen.
    + split; [|split; [|repeat split; assumption]].
      * rewrite K1, Hlog', started_app, Hst1. cbn.
        now rewrite <- app_assoc.
      * rewrite K2, Hlog', finished_app, Hfin1. cbn.
        now rewrite app_nil_r, <- app_assoc.
Qed.

End LoopFacts.

(** X4.  A scheduler that is started while idle, and to which nothing is
    enqueued meanwhile, starts every queued task exactly once, in the order
    domain before ui and high before medium before low, each cell first in
    first out, and sees each of them finish, whether the tasks return or
    throw; after the last one it finds the queue empty and is still
    running. *)
Theorem X4_loop_serves_whole_queue :
  forall (s : Scheduler.t) (outcomes : list (option string)),
    Scheduler.status s = Scheduler.idle ->
    List.length outcomes = List.length (Scheduler.flatten (Scheduler.queue s)) ->
    let i := List.length (Scheduler.loops s) in
    let s' := Scheduler.run s (Scheduler.AStart :: Runs.serve i outcomes) in
    Scheduler.started (Scheduler.log s')
    = Scheduler.started (Scheduler.log s)
      ++ map Scheduler.id (Scheduler.flatten (Scheduler.queue s))
    /\ Runs.finished (Scheduler.log s')
       = Runs.finished (Scheduler.log s)
         ++ map Scheduler.id (Scheduler.flatten (Scheduler.queue s))
    /\ Scheduler.flatten (Scheduler.queue s') = []
    /\ nth_error (Scheduler.loops s') i = Some (Scheduler.TickReturned false)
    /\ Scheduler.status s' = Scheduler.running.
Proof.
  intros s outcomes Hidle Hlen i s'. subst s'.
  cbn [Scheduler.run fold_left Scheduler.step].
  unfold Scheduler.start. rewrite Hidle. fold i.
  unfold Scheduler.loopHead. cbn [Scheduler.status].
  set (s0 := Scheduler.mk Scheduler.running (Scheduler.queue s)
               (Scheduler.notifier s) (Scheduler.loops s ++ [Scheduler.Exited])
               (Scheduler.log s)).
  fold (Scheduler.run (Scheduler.tickSync i s0) (Runs.serve i outcomes)).
  assert (Hpc0 : nth_error (Scheduler.loops s0) i = Some Scheduler.Exited).
  { subst s0 i. cbn. rewrite nth_error_app2 by lia.
    now rewrite Nat.sub_diag. }
  destruct (Scheduler.flatten (Scheduler.queue s)) as [|task ts] eqn:Hfl.
  - destruct outcomes; [|discriminate].
    rewrite tickSync_nothing by exact Hfl.
    cbn [Runs.serve flat_map Scheduler.run fold_left].
    cbn [Scheduler.setPc Scheduler.log Scheduler.queue Scheduler.status
         Scheduler.loops map s0].
    rewrite !app_nil_r, Hfl. repeat split.
    now apply nth_error_setNth with (old := Scheduler.Exited).
  - destruct (tickSync_first i s0 task ts Hfl)
      as (l & p & Hfl' & Hlog' & Hloops' & Hst').
    pose proof (serve_queue outcomes (Scheduler.tickSync i s0) i task l p) as K.
    cbv zeta in K. rewrite Hfl' in K.
    destruct K as (K1 & K2 & K3 & K4 & K5).
    + now rewrite Hst'.
    + rewrite Hloops'. now apply nth_error_setNth with (old := Scheduler.Exited).
    + exact Hlen.
    + split; [|split; [|repeat split; assumption]].
      * rewrite K1, Hlog', started_app. cbn. now rewrite <- app_assoc.
      * rewrite K2, Hlog', finished_app. cbn. now rewrite app_nil_r.
Qed.

Lemma X4_loop_serves_whole_queue_witness :
  let s := Scheduler.run Scheduler.init
             [Scheduler.AEnqueue (Scheduler.mkTask "A") Scheduler.PLow Scheduler.LUi;
              Scheduler.AEnqueue (Scheduler.mkTask "B") Scheduler.PHigh Scheduler.LDomain] in
  Scheduler.status s = Scheduler.idle
  /\ Scheduler.started
       (Scheduler.log
          (Scheduler.run s (Scheduler.AStart
                            :: Runs.serve 0 [Some "boom"; None])))
     = ["B"; "A"].
Proof.
  cbv zeta. split; [reflexivity|].
  exact (proj1
           (X4_loop_serves_whole_queue
              (Scheduler.run Scheduler.init
                 [Scheduler.AEnqueue (Scheduler.mkTask "A") Scheduler.PLow Scheduler.LUi;
                  Scheduler.AEnqueue (Scheduler.mkTask "B") Scheduler.PHigh Scheduler.LDomain])
              [Some "boom"; None] eq_refl eq_refl)).
Defined.

Section WakeFacts.

Import Scheduler.

Lemma tickSync_single i s task l p :
  queue s = setCell emptyQueue l p [task] ->
  loops (tickSync i s) = setNth i (InTask task l p) (loops s)
  /\ log (tickSync i s) = log s ++ [mkLog LStart (id task) p l]
  /\ status (tickSync i s) = status s.
Proof.
  intros Hq. unfold tickSync. rewrite Hq. now destruct l, p.
Qed.

(** An activation woken while a single task is queued runs that task. *)
Lemma woken_runs_task i s task l p :
  nth_error (loops s) i = Some Woken ->
  status s <> stopped ->
  queue s = setCell emptyQueue l p [task] ->
  let s' := resume i s in
  nth_error (loops s') i = Some (InTask task l p)
  /\ started (log s') = started (log s) ++ [id task]
  /\ status s' = running.
Proof.
  intros Hpc Hst Hfl. cbv zeta. unfold resume. rewrite Hpc.
  set (s1 := match status s with idle => setStatus running s | _ => s end).
  assert (H1 : status s1 = running)
    by (subst s1; destruct (status s) eqn:E; trivial; congruence).
  assert (Hq : queue s1 = queue s) by (subst s1; now destruct (status s)).
  assert (Hl : loops s1 = loops s) by (subst s1; now destruct (status s)).
  assert (Hg : log s1 = log s) by (subst s1; now destruct (status s)).
  unfold loopHead. rewrite H1.
  destruct (tickSync_single i s1 task l p ltac:(now rewrite Hq))
    as (Hloops & Hlog & Hstat).
  split; [|split].
  - rewrite Hloops, Hl. now apply nth_error_setNth with (old := Woken).
  - rewrite Hlog, started_app, Hg. reflexivity.
  - now rewrite Hstat.
Qed.

Lemma enqueue_on_empty s task p l :
  flatten (queue s) = [] ->
  queue (enqueue task p l s) = setCell emptyQueue l p [task].
Proof.
  intros H. unfold enqueue. rewrite signal_queue. cbn [queue].
  rewrite (flatten_nil _ H). now destruct l, p.
Qed.

End WakeFacts.

(** X5.  No wake-up is lost.  An activation of the loop has found the queue
    empty and has not yet gone to sleep, nobody else being parked on the
    notifier: a task enqueued at that moment is run as soon as the
    activation continues, the pending signal making its [wait()] return at
    once.  The same holds when the activation is already parked on the
    notifier of an idle scheduler: [enqueue] wakes it and it runs the
    task. *)
Theorem X5_no_lost_wakeup :
  forall (s : Scheduler.t) (i : nat) (task : Scheduler.Task)
         (p : Scheduler.Prio) (l : Scheduler.Lane),
    Scheduler.flatten (Scheduler.queue s) = [] ->
    (Scheduler.status s = Scheduler.running ->
     nth_error (Scheduler.loops s) i = Some (Scheduler.TickReturned false) ->
     Notifier.waitQueue (Scheduler.notifier s) = [] ->
     let s' := Scheduler.run s [Scheduler.AEnqueue task p l;
                                Scheduler.AResume i; Scheduler.AResume i] in
     nth_error (Scheduler.loops s') i = Some (Scheduler.InTask task l p)
     /\ Scheduler.started (Scheduler.log s')
        = Scheduler.started (Scheduler.log s) ++ [Scheduler.id task]
     /\ Scheduler.status s' = Scheduler.running)
    /\ (Scheduler.status s = Scheduler.idle ->
        nth_error (Scheduler.loops s) i = Some Scheduler.Waiting ->
        In i (Notifier.waitQueue (Scheduler.notifier s)) ->
        let s' := Scheduler.run s [Scheduler.AEnqueue task p l;
                                   Scheduler.AResume i] in
        nth_error (Scheduler.loops s') i = Some (Scheduler.InTask task l p)
        /\ Scheduler.started (Scheduler.log s')
           = Scheduler.started (Scheduler.log s) ++ [Scheduler.id task]
        /\ Scheduler.status s' = Scheduler.running).
Proof.
  intros s i task p l Hempty.
  pose proof (enqueue_on_empty s task p l Hempty) as Hq.
  assert (Hlog : Scheduler.log (Scheduler.enqueue task p l s) = Scheduler.log s).
  { unfold Scheduler.enqueue. now rewrite signal_log. }
  assert (Hstat : Scheduler.status (Scheduler.enqueue task p l s)
                  = Scheduler.status s).
  { unfold Scheduler.enqueue. now rewrite signal_status. }
  split.
  - intros Hrun Hpc Hnobody. cbv zeta.
    cbn [Scheduler.run fold_left Scheduler.step].
    set (s1 := Scheduler.enqueue task p l s) in *.
    assert (Hn1 : Scheduler.notifier s1 = Notifier.mk [] true).
    { subst s1. unfold Scheduler.enqueue, Scheduler.signal.
      cbn [Scheduler.notifier]. unfold Notifier.signal. now rewrite Hnobody. }
    assert (Hl1 : Scheduler.loops s1 = Scheduler.loops s).
    { subst s1. unfold Scheduler.enqueue, Scheduler.signal.
      cbn [Scheduler.notifier]. unfold Notifier.signal. now rewrite Hnobody. }
    assert (Hs2 : Scheduler.resume i s1
                  = Scheduler.setPc i Scheduler.Woken
                      (Scheduler.mk Scheduler.idle (Scheduler.queue s1)
                         (Notifier.mk [] false) (Scheduler.loops s)
                         (Scheduler.log s1))).
    { unfold Scheduler.resume. rewrite Hl1, Hpc, Hstat, Hrun.
      cbn [negb andb Scheduler.setStatus Scheduler.notifier Scheduler.status
           Scheduler.queue Scheduler.loops Scheduler.log].
      rewrite Hn1, Hl1. reflexivity. }
    rewrite Hs2.
    match goal with |- context [Scheduler.resume i ?x] =>
      destruct (woken_runs_task i x task l p) as (K1 & K2 & K3)
    end.
    + cbn. now apply nth_error_setNth with (old := Scheduler.TickReturned false).
    + cbn. discriminate.
    + exact Hq.
    + cbn [Scheduler.setPc Scheduler.log] in K2. rewrite Hlog in K2.
      repeat split; assumption.
  - intros Hidle Hpc Hin. cbv zeta.
    cbn [Scheduler.run fold_left Scheduler.step].
    destruct (woken_runs_task i (Scheduler.enqueue task p l s) task l p)
      as (K1 & K2 & K3).
    + unfold Scheduler.enqueue, Scheduler.signal. cbn. now apply wake_parked.
    + rewrite Hstat, Hidle. discriminate.
    + exact Hq.
    + rewrite Hlog in K2. repeat split; assumption.
Qed.

Lemma X5_no_lost_wakeup_witness :
  let s := Scheduler.run Scheduler.init [Scheduler.AStart] in
  Scheduler.flatten (Scheduler.queue s) = []
  /\ Scheduler.started
       (Scheduler.log
          (Scheduler.run s
             [Scheduler.AEnqueue (Scheduler.mkTask "m1") Scheduler.PHigh
                Scheduler.LDomain;
              Scheduler.AResume 0; Scheduler.AResume 0]))
     = ["m1"].
Proof.
  cbv zeta. split; [reflexivity|].
  exact (proj1 (proj2
           (proj1
              (X5_no_lost_wakeup
                 (Scheduler.run Scheduler.init [Scheduler.AStart]) 0
                 (Scheduler.mkTask "m1") Scheduler.PHigh Scheduler.LDomain
                 eq_refl)
              eq_refl eq_refl eq_refl))).
Defined.

(** X6.  A runtime that is stopped and then started again reports itself
    running, but its scheduler stays stopped: the rejection of
    [scheduler.start()] is dropped, and whatever is enqueued or happens
    afterwards no task is started.  Stopping a runtime that is not running
    and starting one that is running change nothing. *)
Theorem X6_runtime_restart_is_dead :
  forall (r : Runtime.t) (acts : list Scheduler.Action),
    Runtime.status r = Runtime.running ->
    let r' := Runtime.start (Runtime.stop r) in
    Runtime.status r' = Runtime.running
    /\ Scheduler.status (Runtime.scheduler r') = Scheduler.stopped
    /\ Scheduler.started
         (Scheduler.log (Scheduler.run (Runtime.scheduler r') acts))
       = Scheduler.started (Scheduler.log (Runtime.scheduler r))
    /\ Runtime.start r = r
    /\ Runtime.stop (Runtime.stop r) = Runtime.stop r.
Proof.
  intros r acts Hrun r'.
  assert (Hst : Scheduler.status (Scheduler.stop (Runtime.scheduler r))
                = Scheduler.stopped).
  { unfold Scheduler.stop. now rewrite signal_status. }
  assert (Hsame : Scheduler.step (Scheduler.stop (Runtime.scheduler r))
                    Scheduler.AStart
                  = Scheduler.stop (Runtime.scheduler r)).
  { cbn [Scheduler.step]. unfold Scheduler.start. now rewrite Hst. }
  assert (Hr' : r' = Runtime.mk Runtime.running
                       (Scheduler.stop (Runtime.scheduler r))).
  { subst r'. unfold Runtime.stop. rewrite Hrun. unfold Runtime.start.
    cbn [Runtime.status Runtime.scheduler]. now rewrite Hsame. }
  rewrite Hr'. cbn [Runtime.status Runtime.scheduler].
  destruct (run_stopped acts _ Hst) as (_ & Hstarted & _).
  unfold Scheduler.stop in Hstarted at 2. rewrite signal_log in Hstarted.
  split; [reflexivity|]. split; [exact Hst|]. split; [exact Hstarted|].
  split.
  - unfold Runtime.start. now rewrite Hrun.
  - unfold Runtime.stop. rewrite Hrun. reflexivity.
Qed.

Lemma X6_runtime_restart_is_dead_witness :
  let r := Runtime.start (Runtime.mk Runtime.idle Scheduler.init) in
  Runtime.status r = Runtime.running
  /\ Scheduler.status (Runtime.scheduler (Runtime.start (Runtime.stop r)))
     = Scheduler.stopped.
Proof.
  cbv zeta. split; [reflexivity|].
  exact (proj1 (proj2
           (X6_runtime_restart_is_dead
              (Runtime.start (Runtime.mk Runtime.idle Scheduler.init))
              [] eq_refl))).
Defined.

(* ====================================================================== *)
(** * Further properties of the model-call adapter *)
(* ====================================================================== *)

Section StreamFacts.

Import LlmAdapter.

(** The events of the streaming loop: two per chunk. *)
Lemma streamChunks_events target reqId cs : forall n out,
  streamChunks target reqId cs n out
  = (n + List.length cs,
     out ++ flat_map (fun chunk => [DEvent (TokenChunk chunk target reqId);
                                    DUi (StreamToken target chunk)]) cs).
Proof.
  induction cs as [|c cs IH]; intros n out; cbn [streamChunks flat_map List.length].
  - now rewrite Nat.add_0_r, app_nil_r.
  - rewrite IH. rewrite <- app_assoc. cbn [app]. f_equal. lia.
Qed.

Lemma streamed_filters target reqId cs :
  let evs := flat_map (fun chunk => [DEvent (TokenChunk chunk target reqId);
                                     DUi (StreamToken target chunk)]) cs in
  filter Runs.isStreamDone evs = []
  /\ filter Runs.isLlmEnd evs = []
  /\ filter Runs.isTerminal evs = []
  /\ Runs.chunkTexts evs = cs
  /\ tokens evs = cs.
Proof.
  induction cs as [|c cs (H1 & H2 & H3 & H4 & H5)]; cbn; [repeat split|].
  cbn in H1, H2, H3, H4, H5. rewrite H1, H2, H3, H4, H5. repeat split.
Qed.

Lemma chunkTexts_app ds1 ds2 :
  Runs.chunkTexts (ds1 ++ ds2) = Runs.chunkTexts ds1 ++ Runs.chunkTexts ds2.
Proof.
  induction ds1 as [|d ds1 IH]; [reflexivity|].
  destruct d as [e|u]; cbn; [|exact IH].
  destruct e; cbn; try exact IH. now rewrite IH.
Qed.

End StreamFacts.

(** X7.  Whether the generation ends or throws, and after however many
    chunks, [run] dispatches [llm-start] first and [llm-end] last, exactly
    one [stream-done], exactly one internal event that ends the request
    ([LlmComplete] or [LlmError]), and every chunk received once as an
    internal [TokenChunk] and once as a [stream-token]; the token count of
    [llm-end] is the number of chunks received. *)
Theorem X7_run_always_closes_stream :
  forall (llm : LlmAdapter.LlmPort) (reqId : string) (ms : nat)
         (prompt target : string),
    let ds := LlmAdapter.dispatched (LlmAdapter.run llm reqId ms prompt target) in
    let cs := LlmAdapter.chunks (llm prompt) in
    (exists middle,
        ds = DUi (LlmStart target reqId (slice0 160 prompt))
             :: middle
             ++ [DUi (LlmEnd target reqId ms (Some (List.length cs)))])
    /\ List.length (filter Runs.isStreamDone ds) = 1
    /\ List.length (filter Runs.isLlmEnd ds) = 1
    /\ List.length (filter Runs.isTerminal ds) = 1
    /\ Runs.chunkTexts ds = cs
    /\ LlmAdapter.tokens ds = cs.
Proof.
  intros llm reqId ms prompt target ds cs. subst ds cs.
  unfold LlmAdapter.run, LlmAdapter.dispatched.
  rewrite streamChunks_events.
  cbn [LlmAdapter.before LlmAdapter.during LlmAdapter.after Nat.add app].
  destruct (streamed_filters target reqId (LlmAdapter.chunks (llm prompt)))
    as (F1 & F2 & F3 & F4 & F5).
  cbv zeta in F1, F2, F3, F4, F5.
  set (evs := flat_map _ (LlmAdapter.chunks (llm prompt))) in *.
  rewrite app_nil_r.
  destruct (LlmAdapter.failure (llm prompt)) as [err|].
  - split.
    { eexists (evs ++ [_; _]). rewrite <- app_assoc. reflexivity. }
    cbn [filter Runs.isStreamDone Runs.isLlmEnd Runs.isTerminal
         Runs.chunkTexts LlmAdapter.tokens].
    rewrite !filter_app, chunkTexts_app, tokens_app, F1, F2, F3, F4, F5.
    cbn. now rewrite !app_nil_r.
  - split.
    { eexists (evs ++ [_; _]). rewrite <- app_assoc. reflexivity. }
    cbn [filter Runs.isStreamDone Runs.isLlmEnd Runs.isTerminal
         Runs.chunkTexts LlmAdapter.tokens].
    rewrite !filter_app, chunkTexts_app, tokens_app, F1, F2, F3, F4, F5.
    cbn. now rewrite !app_nil_r.
Qed.

(** X8.  [runOnce] rejects exactly when the generation throws, with the
    error thrown, and what was gathered before the error is not returned;
    either way it dispatches [llm-start] and a single [llm-end], and never a
    [stream-done], a [TokenChunk] or an event that ends the request. *)
Theorem X8_runOnce_outcomes :
  forall (llm : LlmAdapter.LlmPort) (reqId : string) (ms : nat)
         (prompt target : string),
    let once := LlmAdapter.runOnce llm reqId ms prompt target in
    let ds := LlmAdapter.dispatched once in
    LlmAdapter.result once
    = match LlmAdapter.failure (llm prompt) with
      | Some e => LlmAdapter.Rejected e
      | None =>
          LlmAdapter.Resolved (LlmAdapter.glue (LlmAdapter.chunks (llm prompt)))
      end
    /\ (exists count,
           ds = [DUi (LlmStart target reqId (slice0 160 prompt));
                 DUi (LlmEnd target reqId ms count)]
           /\ (count = None <-> LlmAdapter.failure (llm prompt) <> None))
    /\ filter Runs.isStreamDone ds = []
    /\ filter Runs.isTerminal ds = []
    /\ Runs.chunkTexts ds = [].
Proof.
  intros llm reqId ms prompt target once ds. subst ds once.
  unfold LlmAdapter.runOnce, LlmAdapter.dispatched.
  destruct (LlmAdapter.failure (llm prompt)) as [e|];
    cbn [LlmAdapter.result LlmAdapter.before LlmAdapter.during
         LlmAdapter.after app].
  - split; [reflexivity|]. split; [|repeat split].
    exists None. split; [reflexivity|]. split; [discriminate|reflexivity].
  - split; [now rewrite gather_glue|]. split; [|repeat split].
    eexists. split; [reflexivity|]. split; [discriminate|congruence].
Qed.

(* ====================================================================== *)
(** * Properties of the HTTP port *)
(* ====================================================================== *)

(** X9.  The HTTP port issues a request only for a [url] that begins with
    "http://" or "https://", in lower case: for any other [url], a missing
    one included, it returns [ok = false] with "invalid url" and [fetch] is
    not called.  It never issues more than one request; the request goes to
    the very [url] given, with method "GET" when none is given; and the
    result is a success only when the response was one, its text being the
    data. *)
Theorem X9_http_only_with_scheme :
  forall (fetch : HttpPort.Request -> HttpPort.Fetched)
         (bodyText : option Json -> option string) (args : HttpPort.Args),
    let res := HttpPort.run fetch bodyText args in
    (match HttpPort.url args with
     | Some u => HttpPort.hasScheme u = false
     | None => True
     end ->
     res = ([], FsPort.mkOut false "invalid url"))
    /\ List.length (fst res) <= 1
    /\ (forall req,
           In req (fst res) ->
           HttpPort.url args = Some (HttpPort.reqUrl req)
           /\ HttpPort.hasScheme (HttpPort.reqUrl req) = true
           /\ HttpPort.reqMethod req
              = match HttpPort.method args with Some m => m | None => "GET" end
           /\ (FsPort.ok (snd res) = true ->
               fetch req = HttpPort.Responded true (FsPort.data (snd res))))
    /\ (fst res = [] -> snd res = FsPort.mkOut false "invalid url").
Proof.
  intros fetch bodyText args res. subst res. unfold HttpPort.run.
  destruct (HttpPort.url args) as [u|].
  - destruct (HttpPort.hasScheme u) eqn:Hs; cbn [negb].
    + split; [discriminate|].
      match goal with |- context [fetch ?r] => set (req := r) end.
      destruct (fetch req) as [ok text|message] eqn:Hf; cbn [fst snd];
        (split; [cbn; lia|]); (split; [|discriminate]);
        intros req' [<-|[]]; subst req; cbn [HttpPort.reqUrl HttpPort.reqMethod];
        repeat split; trivial; cbn [FsPort.ok FsPort.data];
        try discriminate.
      intros ->. exact Hf.
    + split; [reflexivity|]. cbn. split; [lia|]. split; [tauto|reflexivity].
  - change (HttpPort.hasScheme "undefined") with false. cbn [negb].
    split; [reflexivity|]. cbn. split; [lia|]. split; [tauto|reflexivity].
Qed.

Lemma X9_http_only_with_scheme_witness :
  let fetch := fun _ : HttpPort.Request => HttpPort.Responded true "hello" in
  let bodyText := fun _ : option Json => @None string in
  HttpPort.run fetch bodyText
    (HttpPort.mkArgs (Some "ftp://example.org/x") None None None)
  = ([], FsPort.mkOut false "invalid url")
  /\ HttpPort.run fetch bodyText
       (HttpPort.mkArgs (Some "HTTP://example.org/x") None None None)
     = ([], FsPort.mkOut false "invalid url").
Proof.
  cbv zeta. split.
  - exact (proj1
             (X9_http_only_with_scheme
                (fun _ => HttpPort.Responded true "hello") (fun _ => None)
                (HttpPort.mkArgs (Some "ftp://example.org/x") None None None))
             eq_refl).
  - reflexivity.
Defined.

(* ====================================================================== *)
(** * Properties of the router and of the tool-call adapter *)
(* ====================================================================== *)

Section RouterFacts.

Import Router.

Context {A : Type}.

Lemma router_get_set_same id (a : A) actors : get id (set id a actors) = Some a.
Proof.
  induction actors as [|[k b] actors IH]; cbn.
  - now rewrite String.eqb_refl.
  - destruct (String.eqb k id) eqn:E; cbn.
    + now rewrite String.eqb_refl.
    + now rewrite E.
Qed.

Lemma router_get_set_other id j (a : A) actors :
  j <> id -> get j (set id a actors) = get j actors.
Proof.
  intros H. apply String.eqb_neq in H.
  induction actors as [|[k b] actors IH]; cbn.
  - now rewrite String.eqb_sym, H.
  - destruct (String.eqb k id) eqn:E; cbn.
    + apply String.eqb_eq in E. subst k.
      now rewrite String.eqb_sym, H.
    + destruct (String.eqb k j); [reflexivity|exact IH].
Qed.

End RouterFacts.

(** X10.  Dispatch through the router.  An event addressed to an id under
    which an actor was registered is handled by the actor registered last
    under that id, and by no other actor; an event addressed to an id
    nobody is registered under throws "Actor not found" and changes no
    actor; an event without a target changes nothing. *)
Theorem X10_router_dispatch :
  forall (A : Type) (on : Event -> A -> A) (actors : Router.Actors A)
         (id : string) (first last : A) (evt : Event),
    Router.targetOf evt = Some id ->
    (exists actors',
        Router.dispatch on evt
          (Router.register id last (Router.register id first actors))
        = Router.Delivered actors'
        /\ Router.get id actors' = Some (on evt last)
        /\ forall j, j <> id -> Router.get j actors' = Router.get j actors)
    /\ (Router.get id actors = None ->
        Router.dispatch on evt actors
        = Router.Thrown (String.append "Actor not found: " id))
    /\ (forall sessionId,
           Router.dispatch on (EStart sessionId) actors = Router.Delivered actors).
Proof.
  intros A on actors id first last evt Ht.
  split; [|split].
  - unfold Router.dispatch, Router.register. rewrite Ht.
    rewrite router_get_set_same. eexists. split; [reflexivity|].
    split; [apply router_get_set_same|].
    intros j Hj. now rewrite !router_get_set_other.
  - intros Hnone. unfold Router.dispatch. now rewrite Ht, Hnone.
  - reflexivity.
Qed.

Lemma X10_router_dispatch_witness :
  let on := fun (e : Event) (n : nat) => S n in
  Router.targetOf (LlmComplete "agent#1" "r") = Some "agent#1"
  /\ Router.dispatch on (LlmComplete "agent#1" "r") []
     = Router.Thrown "Actor not found: agent#1".
Proof.
  cbv zeta. split; [reflexivity|].
  exact (proj1 (proj2
           (X10_router_dispatch nat (fun _ n => S n) [] "agent#1" 0 1
              (LlmComplete "agent#1" "r") eq_refl))
           eq_refl).
Defined.

Section ToolFacts.

Import ToolsAdapter.

Context {World : Type}.

Lemma tools_get_set_same key (port : ToolPort World) reg :
  get key (set key port reg) = Some port.
Proof.
  induction reg as [|[k p] reg IH]; cbn.
  - now rewrite String.eqb_refl.
  - destruct (String.eqb k key) eqn:E; cbn.
    + now rewrite String.eqb_refl.
    + now rewrite E.
Qed.

Lemma tools_get_set_other key j (port : ToolPort World) reg :
  j <> key -> get j (set key port reg) = get j reg.
Proof.
  intros H. apply String.eqb_neq in H.
  induction reg as [|[k p] reg IH]; cbn.
  - now rewrite String.eqb_sym, H.
  - destruct (String.eqb k key) eqn:E; cbn.
    + apply String.eqb_eq in E. subst k.
      now rewrite String.eqb_sym, H.
    + destruct (String.eqb k j); [reflexivity|exact IH].
Qed.

(** A name no registered port bears is not in the registry. *)
Lemma tools_never_registered key (ports : list (ToolPort World)) :
  Forall (fun port => name port <> key) ports ->
  get key (fold_right register [] ports) = None.
Proof.
  induction 1 as [|port ports Hport _ IH]; [reflexivity|].
  cbn [fold_right]. unfold register at 1.
  rewrite tools_get_set_other by congruence. exact IH.
Qed.

End ToolFacts.

(** X11.  A tool call for a registered tool comes back as exactly one
    [ToolResult].  [submit] enqueues one task, of medium priority on the
    domain lane, behind the tasks already there, and dispatches nothing
    itself; running the task calls the port registered last under the
    tool's name, once, on the arguments of the effect, and dispatches one
    [ToolResult] to the target of the effect, with the [ok] and the [data]
    the port returned. *)
Theorem X11_tool_call_round_trip :
  forall (World : Type) (reg : ToolsAdapter.Registry World)
         (earlier port : ToolsAdapter.ToolPort World) (now : nat)
         (tool : Tools) (args : ToolArgs) (target : string),
    ToolsAdapter.name earlier = ToolsAdapter.toolName tool ->
    ToolsAdapter.name port = ToolsAdapter.toolName tool ->
    exists task body,
      ToolsAdapter.submit
        (ToolsAdapter.register port (ToolsAdapter.register earlier reg))
        now (ToolCall tool args target)
      = ToolsAdapter.Enqueue task Scheduler.LDomain Scheduler.PMedium body
      /\ (forall w,
             body w
             = (fst (ToolsAdapter.run port args w),
                ToolResult target (ToolsAdapter.toolName tool) None
                  (FsPort.ok (snd (ToolsAdapter.run port args w)))
                  (FsPort.data (snd (ToolsAdapter.run port args w)))))
      /\ (forall s,
             let done :=
               ToolsAdapter.perform
                 (ToolsAdapter.Enqueue task Scheduler.LDomain
                    Scheduler.PMedium body) s in
             snd done = []
             /\ Scheduler.cell (Scheduler.queue (fst done))
                  Scheduler.LDomain Scheduler.PMedium
                = Scheduler.cell (Scheduler.queue s)
                    Scheduler.LDomain Scheduler.PMedium ++ [task]).
Proof.
  intros World reg earlier port now tool args target Hearlier Hport.
  unfold ToolsAdapter.submit, ToolsAdapter.register.
  rewrite Hport, Hearlier, tools_get_set_same.
  eexists. eexists. split; [reflexivity|]. split.
  - intros w. now destruct (ToolsAdapter.run port args w).
  - intros s. cbv zeta. cbn [ToolsAdapter.perform fst snd].
    split; [reflexivity|apply enqueue_cell].
Qed.

Lemma X11_tool_call_round_trip_witness :
  let port := ToolsAdapter.fsPort "/work/app" "/work/app" in
  let tree := FsPort.mkFS ["/work"; "/work/app"] [("/work/app/x", "hello")] in
  ToolsAdapter.name port = ToolsAdapter.toolName fs
  /\ exists task body,
       ToolsAdapter.submit
         (ToolsAdapter.register port (ToolsAdapter.register port []))
         7 (ToolCall fs (FsArgsOf "read" "x" None) "agent#1")
       = ToolsAdapter.Enqueue task Scheduler.LDomain Scheduler.PMedium body
       /\ body tree = (tree, ToolResult "agent#1" "fs" None true "hello").
Proof.
  cbv zeta. split; [reflexivity|].
  destruct (X11_tool_call_round_trip FsPort.FS []
              (ToolsAdapter.fsPort "/work/app" "/work/app")
              (ToolsAdapter.fsPort "/work/app" "/work/app")
              7 fs (FsArgsOf "read" "x" None) "agent#1" eq_refl eq_refl)
    as (task & body & Hsub & Hbody & _).
  exists task, body. split; [exact Hsub|].
  rewrite Hbody. vm_compute. reflexivity.
Defined.

(** X12.  A tool call for a tool under whose name no port was registered is
    answered at once: [submit] dispatches a [ToolResult] with [ok = false]
    and "unknown tool" to the target of the effect and leaves the scheduler
    as it is; an effect that is not a tool call is ignored. *)
Theorem X12_unknown_tool :
  forall (World : Type) (ports : list (ToolsAdapter.ToolPort World))
         (now : nat) (tool : Tools) (args : ToolArgs) (target : string)
         (s : Scheduler.t),
    Forall (fun port => ToolsAdapter.name port <> ToolsAdapter.toolName tool)
           ports ->
    let reg := fold_right ToolsAdapter.register [] ports in
    ToolsAdapter.perform
      (ToolsAdapter.submit reg now (ToolCall tool args target)) s
    = (s, [ToolResult target (ToolsAdapter.toolName tool) None false
             "unknown tool"])
    /\ (forall prompt,
           ToolsAdapter.perform
             (ToolsAdapter.submit reg now (LlmGenerate prompt target)) s
           = (s, [])).
Proof.
  intros World ports now tool args target s Hnone reg. subst reg.
  unfold ToolsAdapter.submit.
  rewrite (tools_never_registered _ _ Hnone). split; reflexivity.
Qed.

Lemma X12_unknown_tool_witness :
  let ports := [ToolsAdapter.fsPort "/work/app" "/work/app"] in
  Forall (fun port => ToolsAdapter.name port <> ToolsAdapter.toolName http) ports
  /\ ToolsAdapter.perform
       (ToolsAdapter.submit (fold_right ToolsAdapter.register [] ports) 0
          (ToolCall http (HttpArgsOf "https://example.org" "GET" None None)
             "agent#1"))
       Scheduler.init
     = (Scheduler.init,
        [ToolResult "agent#1" "http" None false "unknown tool"]).
Proof.
  cbv zeta.
  assert (H : Forall (fun port : ToolsAdapter.ToolPort FsPort.FS =>
                        ToolsAdapter.name port <> ToolsAdapter.toolName http)
                [ToolsAdapter.fsPort "/work/app" "/work/app"]).
  { repeat constructor. discriminate. }
  split; [exact H|].
  exact (proj1
           (X12_unknown_tool FsPort.FS
              [ToolsAdapter.fsPort "/work/app" "/work/app"] 0 http
              (HttpArgsOf "https://example.org" "GET" None None) "agent#1"
              Scheduler.init H)).
Defined.

(* ====================================================================== *)
(** * Further properties of the filesystem port *)
(* ====================================================================== *)

Section TreeFacts.

Import FsPort.

Lemma lookup_putFile_same fl p c : lookupFile (putFile fl p c) p = Some c.
Proof.
  induction fl as [|[q d] fl IH]; cbn.
  - now rewrite String.eqb_refl.
  - destruct (String.eqb q p) eqn:E; cbn.
    + now rewrite String.eqb_refl.
    + now rewrite E.
Qed.

Lemma lookup_putFile_other fl p c q :
  q <> p -> lookupFile (putFile fl p c) q = lookupFile fl q.
Proof.
  intros H. apply String.eqb_neq in H.
  induction fl as [|[k d] fl IH]; cbn.
  - now rewrite String.eqb_sym, H.
  - destruct (String.eqb k p) eqn:E; cbn.
    + apply String.eqb_eq in E. subst k.
      now rewrite String.eqb_sym, H.
    + destruct (String.eqb k q); [reflexivity|exact IH].
Qed.

Lemma mkdirAll_tree target paths : forall t t',
  mkdirAll t target paths = Done t' ->
  files t' = files t
  /\ (forall d, isDir t d = true -> isDir t' d = true).
Proof.
  induction paths as [|p paths IH]; intros t t' H; cbn in H.
  - injection H as <-. now split.
  - destruct (isFile t p); [now destruct paths|].
    destruct (isDir t p).
    + now apply IH.
    + apply IH in H. destruct H as [Hf Hd]. cbn in Hf. split; [exact Hf|].
      intros d Hdir. apply Hd. unfold isDir in *. cbn [dirs].
      rewrite existsb_app. apply orb_true_iff in Hdir.
      destruct Hdir as [-> | ->]; [reflexivity|].
      cbn. now rewrite !orb_true_r.
Qed.

Lemma storeFile_done t p f t' :
  storeFile t p f = Done t' ->
  t' = mkFS (dirs t) (putFile (files t) p (f (lookupFile (files t) p)))
  /\ isDir t p = false.
Proof.
  unfold storeFile. intros H.
  destruct (isDir t p); [discriminate|].
  destruct (underFile t p); [discriminate|].
  destruct (negb (isDir t (dirname p))); [discriminate|].
  injection H as <-. now split.
Qed.

Lemma safe_done cwd root p full :
  safe cwd root p = Done full ->
  full = fullPath cwd root p
  /\ String.prefix (resolve cwd root) full = true.
Proof.
  unfold safe, fullPath. intros H.
  destruct (String.prefix (resolve cwd root) (resolve cwd (join [root; p])))
    eqn:E; cbn in H; [|discriminate].
  injection H as <-. now split.
Qed.

Lemma isFile_putFile fl p c q dirs0 dirs1 :
  isFile (mkFS dirs0 fl) q = true ->
  isFile (mkFS dirs1 (putFile fl p c)) q = true.
Proof.
  unfold isFile. cbn [files]. intros H.
  destruct (string_dec q p) as [-> | Hne].
  - now rewrite lookup_putFile_same.
  - now rewrite lookup_putFile_other.
Qed.

(** What a successful store leaves behind. *)
Lemma read_after_store t p f t' :
  storeFile t p f = Done t' ->
  readFile t' p = Done (f (lookupFile (files t) p)).
Proof.
  intros H. apply storeFile_done in H. destruct H as [-> Hdir].
  unfold readFile. unfold isDir in *. cbn [dirs files].
  now rewrite Hdir, lookup_putFile_same.
Qed.

End TreeFacts.

(** X13.  What the filesystem port can change.  Whatever the arguments, one
    call changes the content of at most one path: the full path resolved
    from the arguments, which begins with the text of the resolved root,
    and only in a call with [op] "write" or "append" that returned
    [ok = true].  No file and no directory is ever removed, and only a call
    with [op] "write" creates directories. *)
Theorem X13_fs_port_footprint :
  forall (cwd root : string) (args : FsPort.Args) (t : FsPort.FS),
    let t' := fst (FsPort.run cwd root args t) in
    let out := snd (FsPort.run cwd root args t) in
    (forall q,
        FsPort.lookupFile (FsPort.files t') q
        <> FsPort.lookupFile (FsPort.files t) q ->
        q = FsPort.fullPath cwd root (FsPort.path args)
        /\ String.prefix (FsPort.resolve cwd root) q = true
        /\ (FsPort.op args = "write"%string \/ FsPort.op args = "append"%string)
        /\ FsPort.ok out = true)
    /\ (forall q, FsPort.isFile t q = true -> FsPort.isFile t' q = true)
    /\ (forall d, FsPort.isDir t d = true -> FsPort.isDir t' d = true)
    /\ (FsPort.op args <> "write"%string -> FsPort.dirs t' = FsPort.dirs t).
Proof.
  intros cwd root args t t' out. subst t' out. unfold FsPort.run.
  destruct (String.eqb (FsPort.op args) "read") eqn:Eread.
  { destruct (FsPort.safe cwd root (FsPort.path args)) as [full|m];
      [destruct (FsPort.readFile t full)|]; cbn [fst snd];
      (split; [intros q Hq; now contradiction Hq|]); auto. }
  destruct (String.eqb (FsPort.op args) "write") eqn:Ewrite.
  { apply String.eqb_eq in Ewrite.
    destruct (FsPort.mkdir t _) as [t1|m] eqn:Emk; cbn [fst snd].
    2:{ split; [intros q Hq; now contradiction Hq|]. auto. }
    apply mkdirAll_tree in Emk. destruct Emk as [Hfiles Hdirs].
    assert (Hkeep : forall q, FsPort.isFile t q = true -> FsPort.isFile t1 q = true).
    { intros q. unfold FsPort.isFile. now rewrite Hfiles. }
    destruct (FsPort.safe cwd root (FsPort.path args)) as [full|m] eqn:Esafe;
      cbn [fst snd].
    2:{ split; [intros q Hq; rewrite Hfiles in Hq; now contradiction Hq|].
        split; [exact Hkeep|]. split; [exact Hdirs|]. intros H. now contradiction H. }
    apply safe_done in Esafe. destruct Esafe as [-> Hpre].
    destruct (FsPort.writeFile t1 _ _) as [t2|m] eqn:Ew; cbn [fst snd].
    2:{ split; [intros q Hq; rewrite Hfiles in Hq; now contradiction Hq|].
        split; [exact Hkeep|]. split; [exact Hdirs|]. intros H. now contradiction H. }
    apply storeFile_done in Ew. destruct Ew as [-> Hnodir].
    split; [|split; [|split]].
    - intros q Hq. cbn [FsPort.files] in Hq.
      destruct (string_dec q (FsPort.fullPath cwd root (FsPort.path args)))
        as [-> | Hne].
      + repeat split; auto.
      + rewrite lookup_putFile_other, Hfiles in Hq by exact Hne.
        now contradiction Hq.
    - intros q Hq. apply Hkeep in Hq. destruct t1 as [d1 f1].
      now apply isFile_putFile with (dirs0 := d1).
    - intros d Hd. apply Hdirs in Hd. exact Hd.
    - intros H. now contradiction H. }
  destruct (String.eqb (FsPort.op args) "append") eqn:Eappend.
  { apply String.eqb_eq in Eappend.
    destruct (FsPort.safe cwd root (FsPort.path args)) as [full|m] eqn:Esafe;
      cbn [fst snd].
    2:{ split; [intros q Hq; now contradiction Hq|]. auto. }
    apply safe_done in Esafe. destruct Esafe as [-> Hpre].
    destruct (FsPort.appendFile t _ _) as [t1|m] eqn:Ea; cbn [fst snd].
    2:{ split; [intros q Hq; now contradiction Hq|]. auto. }
    apply storeFile_done in Ea. destruct Ea as [-> Hnodir].
    split; [|split; [|split]].
    - intros q Hq. cbn [FsPort.files] in Hq.
      destruct (string_dec q (FsPort.fullPath cwd root (FsPort.path args)))
        as [-> | Hne].
      + repeat split; auto.
      + rewrite lookup_putFile_other in Hq by exact Hne.
        now contradiction Hq.
    - intros q Hq. destruct t as [d0 f0].
      now apply isFile_putFile with (dirs0 := d0).
    - intros d Hd. exact Hd.
    - reflexivity. }
  cbn [fst snd]. split; [intros q Hq; now contradiction Hq|]. auto.
Qed.

Lemma X13_fs_port_footprint_witness :
  let t := FsPort.mkFS ["/work"; "/work/app"] [] in
  let args := FsPort.mkArgs "write" "a.txt" (Some "hi") in
  let t' := fst (FsPort.run "/work/app" "/work/app" args t) in
  FsPort.lookupFile (FsPort.files t') "/work/app/a.txt"
  <> FsPort.lookupFile (FsPort.files t) "/work/app/a.txt"
  /\ "/work/app/a.txt" = FsPort.fullPath "/work/app" "/work/app" "a.txt"
  /\ String.prefix (FsPort.resolve "/work/app" "/work/app") "/work/app/a.txt"
     = true.
Proof.
  cbv zeta.
  assert (H : FsPort.lookupFile
                (FsPort.files
                   (fst (FsPort.run "/work/app" "/work/app"
                           (FsPort.mkArgs "write" "a.txt" (Some "hi"))
                           (FsPort.mkFS ["/work"; "/work/app"] []))))
                "/work/app/a.txt"
              <> FsPort.lookupFile
                   (FsPort.files (FsPort.mkFS ["/work"; "/work/app"] []))
                   "/work/app/a.txt") by (vm_compute; discriminate).
  split; [exact H|].
  pose proof (proj1 (X13_fs_port_footprint "/work/app" "/work/app"
                       (FsPort.mkArgs "write" "a.txt" (Some "hi"))
                       (FsPort.mkFS ["/work"; "/work/app"] []))
                "/work/app/a.txt" H) as (H1 & H2 & _).
  split; [exact H1|exact H2].
Defined.

(** X14.  Write, then read.  After a call with [op] "write" that returned
    [ok = true] (its data is then "ok"), a call with [op] "read" on the same
    path returns [ok = true] with exactly the text written, the empty text
    when [content] was missing, and leaves the tree as it is. *)
Theorem X14_fs_write_then_read :
  forall (cwd root p : string) (c c' : option string) (t t' : FsPort.FS)
         (d : string),
    FsPort.run cwd root (FsPort.mkArgs "write" p c) t
    = (t', FsPort.mkOut true d) ->
    d = "ok"%string
    /\ FsPort.run cwd root (FsPort.mkArgs "read" p c') t'
       = (t', FsPort.mkOut true (FsPort.text c)).
Proof.
  intros cwd root p c c' t t' d H.
  unfold FsPort.run in *. cbn [FsPort.op FsPort.path FsPort.content] in *.
  change (String.eqb "write" "read") with false in H.
  change (String.eqb "write" "write") with true in H.
  change (String.eqb "read" "read") with true.
  cbv iota in H. cbv iota.
  destruct (FsPort.mkdir t _) as [t1|m]; [|discriminate].
  destruct (FsPort.safe cwd root p) as [full|m]; [|discriminate].
  destruct (FsPort.writeFile t1 full (FsPort.text c)) as [t2|m] eqn:Ew;
    [|discriminate].
  injection H as <- <-. split; [reflexivity|].
  unfold FsPort.writeFile in Ew. now rewrite (read_after_store _ _ _ _ Ew).
Qed.

Lemma X14_fs_write_then_read_witness :
  let t := FsPort.mkFS ["/work"] [] in
  let t' := FsPort.mkFS ["/work"; "/work/app"; "/work/app/notes"]
              [("/work/app/notes/a.txt", "hello")] in
  FsPort.run "/work/app" "/work/app"
    (FsPort.mkArgs "write" "notes/a.txt" (Some "hello")) t
  = (t', FsPort.mkOut true "ok")
  /\ FsPort.run "/work/app" "/work/app"
       (FsPort.mkArgs "read" "notes/a.txt" None) t'
     = (t', FsPort.mkOut true "hello").
Proof.
  cbv zeta.
  assert (H : FsPort.run "/work/app" "/work/app"
                (FsPort.mkArgs "write" "notes/a.txt" (Some "hello"))
                (FsPort.mkFS ["/work"] [])
              = (FsPort.mkFS ["/work"; "/work/app"; "/work/app/notes"]
                   [("/work/app/notes/a.txt", "hello")],
                 FsPort.mkOut true "ok")) by (vm_compute; reflexivity).
  split; [exact H|].
  exact (proj2 (X14_fs_write_then_read _ _ _ _ None _ _ _ H)).
Defined.

(** X15.  Append, then read.  After a call with [op] "append" that returned
    [ok = true], a call with [op] "read" on the same path returns what the
    file held before followed by the text appended; just the text appended
    when there was no such file.  Unlike "write", "append" creates no
    directory: the directories are those of before. *)
Theorem X15_fs_append_then_read :
  forall (cwd root p : string) (c c' : option string) (t t' : FsPort.FS)
         (d : string),
    FsPort.run cwd root (FsPort.mkArgs "append" p c) t
    = (t', FsPort.mkOut true d) ->
    let old := FsPort.lookupFile (FsPort.files t) (FsPort.fullPath cwd root p) in
    FsPort.run cwd root (FsPort.mkArgs "read" p c') t'
    = (t', FsPort.mkOut true
             (match old with
              | Some before => String.append before (FsPort.text c)
              | None => FsPort.text c
              end))
    /\ FsPort.dirs t' = FsPort.dirs t.
Proof.
  intros cwd root p c c' t t' d H old. subst old.
  unfold FsPort.run in *. cbn [FsPort.op FsPort.path FsPort.content] in *.
  change (String.eqb "append" "read") with false in H.
  change (String.eqb "append" "write") with false in H.
  change (String.eqb "append" "append") with true in H.
  change (String.eqb "read" "read") with true.
  cbv iota in H. cbv iota.
  destruct (FsPort.safe cwd root p) as [full|m] eqn:Esafe; [|discriminate].
  apply safe_done in Esafe. destruct Esafe as [-> _].
  destruct (FsPort.appendFile t _ (FsPort.text c)) as [t1|m] eqn:Ea;
    [|discriminate].
  injection H as <- <-.
  unfold FsPort.appendFile in Ea.
  rewrite (read_after_store _ _ _ _ Ea).
  split; [reflexivity|].
  apply storeFile_done in Ea. destruct Ea as [-> _]. reflexivity.
Qed.

Lemma X15_fs_append_then_read_witness :
  let t := FsPort.mkFS ["/work"; "/work/app"] [("/work/app/log", "one")] in
  let t' := FsPort.mkFS ["/work"; "/work/app"] [("/work/app/log", "onetwo")] in
  FsPort.run "/work/app" "/work/app"
    (FsPort.mkArgs "append" "log" (Some "two")) t
  = (t', FsPort.mkOut true "ok")
  /\ FsPort.run "/work/app" "/work/app" (FsPort.mkArgs "read" "log" None) t'
     = (t', FsPort.mkOut true "onetwo").
Proof.
  cbv zeta.
  assert (H : FsPort.run "/work/app" "/work/app"
                (FsPort.mkArgs "append" "log" (Some "two"))
                (FsPort.mkFS ["/work"; "/work/app"] [("/work/app/log", "one")])
              = (FsPort.mkFS ["/work"; "/work/app"] [("/work/app/log", "onetwo")],
                 FsPort.mkOut true "ok")) by (vm_compute; reflexivity).
  split; [exact H|].
  exact (proj1 (X15_fs_append_then_read _ _ _ _ None _ _ _ H)).
Defined.

(* ====================================================================== *)
(** * The agent over whole runs *)
(* ====================================================================== *)

Section AdvanceFacts.

Import BuilderAgent.
Local Open Scope string_scope.

Variable parseTurn : string -> PlannerTurn + string.
Variable stringify : PlannerMsg -> string.
Variable trim : string -> string.

Abbreviation llmResolved := (llmResolved parseTurn stringify trim).
Abbreviation parseOrRepair := (parseOrRepair parseTurn stringify trim).
Abbreviation step := (step parseTurn stringify trim).
Abbreviation run := (run parseTurn stringify trim).

Lemma owed_cons k w p :
  Runs.owed ((k, w) :: p) = Runs.repairsLeft w + Runs.owed p.
Proof. reflexivity. Qed.

Lemma advance_refl a : Runs.advance 0 a a.
Proof.
  unfold Runs.advance. split; [reflexivity|].
  split; [exists []; split; [now rewrite app_nil_r|constructor]|].
  split; [exists []; split; [now rewrite app_nil_r|constructor]|].
  split; [lia|]. intros H. repeat split; trivial; lia.
Qed.

Lemma advance_trans j k a b c :
  Runs.advance j a b -> Runs.advance k b c -> Runs.advance (j + k) a c.
Proof.
  intros (Hid1 & (m1 & Hc1 & Hf1) & (o1 & Ho1 & Ha1) & Hs1 & Hi1)
         (Hid2 & (m2 & Hc2 & Hf2) & (o2 & Ho2 & Ha2) & Hs2 & Hi2).
  unfold Runs.advance. split; [congruence|].
  split.
  { exists (m1 ++ m2)%list. split; [now rewrite Hc2, Hc1, app_assoc|].
    apply Forall_app. now split. }
  split.
  { exists (o1 ++ o2)%list. split; [now rewrite Ho2, Ho1, app_assoc|].
    apply Forall_app. split; [exact Ha1|]. now rewrite <- Hid1. }
  split; [lia|].
  intros H. destruct (Hi1 H) as (Hb & Hsb & Hcb).
  destruct (Hi2 Hb) as (Hc & Hsc & Hcc).
  split; [exact Hc|]. split; [congruence|lia].
Qed.

Lemma advance_weaken j k a b :
  j <= k -> Runs.advance j a b -> Runs.advance k a b.
Proof.
  intros Hjk (Hid & Hc & Ho & Hs & Hi).
  unfold Runs.advance. repeat split; trivial; try lia.
  - now apply Hi.
  - now apply Hi.
  - destruct (Hi H) as (_ & _ & H'). lia.
Qed.

(** Two steps that add nothing. *)
Lemma advance_then a b c :
  Runs.advance 0 a b -> Runs.advance 0 b c -> Runs.advance 0 a c.
Proof. intros H1 H2. exact (advance_trans 0 0 a b c H1 H2). Qed.

(** A change that touches the transcript and the trace only, and calls no
    model. *)
Lemma advance_fields a a' moreC moreO :
  id a' = id a -> interrupted a' = interrupted a -> steps a' = steps a ->
  pending a' = pending a ->
  convo a' = (convo a ++ moreC)%list ->
  Forall (fun e => role e <> system) moreC ->
  out a' = (out a ++ moreO)%list ->
  Forall (Runs.addressed (id a)) moreO ->
  modelCalls moreO = [] ->
  Runs.advance 0 a a'.
Proof.
  intros Hid Hi Hs Hp Hc Hf Ho Ha Hm.
  assert (Hcalls : Runs.calls a' = Runs.calls a).
  { unfold Runs.calls. rewrite Ho, modelCalls_app, Hm. now rewrite app_nil_r. }
  unfold Runs.advance, Runs.budget. rewrite Hcalls, Hp, Hs, Hi.
  split; [exact Hid|]. split; [now exists moreC|]. split; [now exists moreO|].
  split; [lia|]. intros H. repeat split; trivial. lia.
Qed.

Lemma advance_onUpdate u a : Runs.advance 0 a (onUpdate u a).
Proof.
  apply advance_fields with (moreC := []) (moreO := [OUi u]);
    try reflexivity.
  - cbn. now rewrite app_nil_r.
  - constructor.
  - repeat constructor.
Qed.

Lemma advance_submitEffect tool args a :
  Runs.advance 0 a (submitEffect (ToolCall tool args (id a)) a).
Proof.
  apply advance_fields
    with (moreC := []) (moreO := [OEffect (ToolCall tool args (id a))]);
    try reflexivity.
  - cbn. now rewrite app_nil_r.
  - constructor.
  - repeat constructor.
Qed.

Lemma advance_push r c a : r <> system -> Runs.advance 0 a (push r c a).
Proof.
  intros Hr.
  apply advance_fields with (moreC := [mkEntry r c]) (moreO := []);
    try reflexivity.
  - now repeat constructor.
  - cbn. now rewrite app_nil_r.
  - constructor.
Qed.

Lemma stopEvents_calls a reason detail :
  modelCalls (stopEvents a reason detail) = [].
Proof.
  unfold stopEvents. destruct (currentReqId a) as [r|]; [|reflexivity].
  now destruct (nonEmpty r).
Qed.

Lemma stopEvents_addressed a reason detail :
  Forall (Runs.addressed (id a)) (stopEvents a reason detail).
Proof.
  unfold stopEvents. destruct (currentReqId a) as [r|]; [|constructor].
  destruct (nonEmpty r); repeat constructor.
Qed.

Lemma advance_emitPlanningStop reason detail a :
  Runs.advance 0 a (emitPlanningStop reason detail a).
Proof.
  destruct (emitPlanningStop_frame reason detail a)
    as (Hid & Hi & Hs & Hc & Hp & _).
  apply advance_fields with (moreC := [])
                            (moreO := stopEvents a reason detail); trivial.
  - now rewrite app_nil_r.
  - apply emitPlanningStop_out.
  - apply stopEvents_addressed.
  - apply stopEvents_calls.
Qed.

Lemma advance_plannerError message a :
  Runs.advance 0 a (plannerError message a).
Proof.
  unfold plannerError.
  eapply advance_then; [apply advance_onUpdate|apply advance_emitPlanningStop].
Qed.

(** A round started: the call it makes and the repairs it may need are
    paid for by the step it uses up. *)
Lemma advance_loop a : Runs.advance 0 a (loop a).
Proof.
  unfold loop. destruct (interrupted a) eqn:Ei.
  { eapply advance_then; [apply advance_onUpdate|apply advance_emitPlanningStop]. }
  destruct (Nat.leb MAX_STEPS (steps a)) eqn:Es.
  { eapply advance_then; [apply advance_onUpdate|apply advance_emitPlanningStop]. }
  apply Nat.leb_gt in Es.
  unfold Runs.advance, Runs.calls, Runs.budget.
  cbn [llmOnce setSteps emit id interrupted steps convo out pending nextCall].
  rewrite owed_cons. cbn [Runs.repairsLeft].
  rewrite modelCalls_app, length_app. cbn [modelCalls List.length].
  split; [reflexivity|].
  split; [exists []; split; [now rewrite app_nil_r|constructor]|].
  split; [eexists; split; [reflexivity|repeat constructor]|].
  split; [unfold MAX_STEPS, MAX_REPAIRS in *; lia|].
  rewrite Ei. discriminate.
Qed.

Lemma advance_handleMessage msg a :
  Runs.advance 0 a (handleMessage trim msg a).
Proof.
  destruct msg as [n goal say|n toolcall_id tool args say
                  |n kind value meta say|n summary deliverables];
    cbn [handleMessage].
  - eapply advance_then; [apply advance_onUpdate|apply advance_loop].
  - eapply advance_then; [apply advance_onUpdate|].
    exact (advance_submitEffect tool args
             (onUpdate (ActionEv n tool toolcall_id args (spread say)) a)).
  - eapply advance_then; [apply advance_onUpdate|apply advance_loop].
  - eapply advance_then; [apply advance_onUpdate|apply advance_emitPlanningStop].
Qed.

Lemma advance_accepted turn a :
  Runs.advance 0 a (accepted stringify trim turn a).
Proof.
  unfold accepted.
  eapply advance_then; [|apply advance_handleMessage].
  apply advance_push. discriminate.
Qed.

Lemma advance_exhausted lastErr a : Runs.advance 0 a (exhausted lastErr a).
Proof. unfold exhausted. apply advance_plannerError. Qed.

(** A repair asked for: one call, and the repairs left after it. *)
Lemma advance_ask i hint a :
  Runs.advance (S (MAX_REPAIRS - S i)) a (ask i hint a).
Proof.
  unfold Runs.advance, Runs.calls, Runs.budget, ask.
  cbn [llmOnce push emit id interrupted steps convo out pending nextCall].
  rewrite owed_cons. cbn [Runs.repairsLeft].
  rewrite modelCalls_app, length_app. cbn [modelCalls List.length].
  split; [reflexivity|].
  split; [eexists; split; [reflexivity|repeat constructor; discriminate]|].
  split; [eexists; split; [reflexivity|repeat constructor]|].
  split; [lia|]. intros H. repeat split; trivial. lia.
Qed.

Lemma advance_parseOrRepair i lastErr raw a :
  Runs.advance (MAX_REPAIRS - i) a (parseOrRepair i lastErr raw a).
Proof.
  unfold BuilderAgent.parseOrRepair.
  destruct (Nat.leb i MAX_REPAIRS) eqn:Ei.
  - apply Nat.leb_le in Ei.
    destruct (parseTurn raw) as [turn|hint].
    + apply advance_weaken with (j := 0); [lia|apply advance_accepted].
    + destruct (Nat.eqb i MAX_REPAIRS) eqn:Ee.
      * apply advance_weaken with (j := 0); [lia|apply advance_exhausted].
      * apply Nat.eqb_neq in Ee.
        apply advance_weaken with (j := S (MAX_REPAIRS - S i));
          [lia|apply advance_ask].
  - apply advance_weaken with (j := 0); [lia|apply advance_exhausted].
Qed.

Lemma owed_remove c w : forall p,
  lookup c p = Some w ->
  Runs.owed p = Runs.repairsLeft w + Runs.owed (remove c p).
Proof.
  induction p as [|[k v] p IH]; cbn [lookup remove]; [discriminate|].
  destruct (Nat.eqb k c).
  - intros [= ->]. reflexivity.
  - intros H. apply IH in H. rewrite !owed_cons. lia.
Qed.

(** An activation resumed: what it was owed is what it may spend. *)
Lemma advance_settle c w a a' :
  lookup c (pending a) = Some w ->
  Runs.advance (Runs.repairsLeft w) (setPending (remove c (pending a)) a) a' ->
  Runs.advance 0 a a'.
Proof.
  intros Hl (Hid & Hc & Ho & Hs & Hi).
  pose proof (owed_remove c w _ Hl) as Howed.
  unfold Runs.advance, Runs.calls, Runs.budget in *.
  cbn [setPending id interrupted steps convo out pending] in *.
  split; [exact Hid|]. split; [exact Hc|]. split; [exact Ho|].
  split; [lia|].
  intros H. destruct (Hi H) as (H1 & H2 & H3). repeat split; trivial. lia.
Qed.

Lemma advance_llmResolved c text a : Runs.advance 0 a (llmResolved c text a).
Proof.
  unfold BuilderAgent.llmResolved.
  destruct (lookup c (pending a)) as [[|i lastErr]|] eqn:El;
    [| |apply advance_refl].
  - eapply advance_settle; [exact El|]. apply advance_parseOrRepair.
  - eapply advance_settle; [exact El|]. apply advance_parseOrRepair.
Qed.

Lemma advance_llmRejected c message a :
  Runs.advance 0 a (llmRejected c message a).
Proof.
  unfold llmRejected.
  destruct (lookup c (pending a)) as [[|i lastErr]|] eqn:El;
    [| |apply advance_refl];
    (eapply advance_settle; [exact El|]);
    (apply advance_weaken with (j := 0); [lia|apply advance_plannerError]).
Qed.

Lemma advance_interrupt a : Runs.advance 0 a (interrupt a).
Proof.
  unfold Runs.advance, Runs.calls, Runs.budget, interrupt.
  cbn [setInterrupted id interrupted steps convo out pending].
  split; [reflexivity|].
  split; [exists []; split; [now rewrite app_nil_r|constructor]|].
  split; [exists []; split; [now rewrite app_nil_r|constructor]|].
  split; [lia|]. intros _. repeat split; lia.
Qed.

Lemma advance_on event now a :
  Runs.opensTurn (id a) (IOn event now) = false ->
  Runs.advance 0 a (on event now a).
Proof.
  intros Hopen. destruct event; cbn [on]; try apply advance_refl.
  - destruct (String.eqb target (id a)); [|apply advance_refl].
    eapply advance_then; [apply advance_onUpdate|apply advance_emitPlanningStop].
  - cbn in Hopen. rewrite Hopen. apply advance_refl.
  - destruct (String.eqb target (id a)); [|apply advance_refl].
    eapply advance_then; [|apply advance_loop].
    eapply advance_then; [|apply advance_onUpdate].
    apply advance_push. discriminate.
Qed.

Lemma advance_step a i :
  Runs.opensTurn (id a) i = false -> Runs.advance 0 a (step a i).
Proof.
  intros H. destruct i as [event now| |c text|c message]; cbn [BuilderAgent.step].
  - now apply advance_on.
  - apply advance_interrupt.
  - apply advance_llmResolved.
  - apply advance_llmRejected.
Qed.

Lemma advance_run inputs : forall a,
  Runs.userTurns (id a) inputs = 0 -> Runs.advance 0 a (run a inputs).
Proof.
  induction inputs as [|i inputs IH]; intros a H; [apply advance_refl|].
  unfold Runs.userTurns in H. cbn [filter] in H.
  destruct (Runs.opensTurn (id a) i) eqn:Eo; [discriminate|].
  pose proof (advance_step a i Eo) as Hstep.
  change (run a (i :: inputs)) with (run (step a i) inputs).
  eapply advance_then; [exact Hstep|]. apply IH.
  destruct Hstep as (-> & _). exact H.
Qed.

(** A user turn opened: the step counter starts again, which allows a full
    turn of model calls more. *)
Lemma turn_opened a i :
  Runs.opensTurn (id a) i = true ->
  id (step a i) = id a
  /\ (exists more,
         convo (step a i) = (convo a ++ more)%list
         /\ Forall (fun e => role e <> system) more)
  /\ (exists more,
         out (step a i) = (out a ++ more)%list
         /\ Forall (Runs.addressed (id a)) more)
  /\ Runs.calls (step a i) + Runs.budget (step a i)
     <= Runs.calls a + Runs.budget a + Runs.fullTurn.
Proof.
  destruct i as [event now| |c text|c message]; try discriminate.
  destruct event; try discriminate. cbn [Runs.opensTurn]. intros Ht.
  apply String.eqb_eq in Ht. subst target. cbn [BuilderAgent.step].
  destruct (turn_start a text reqId now)
    as ((Hi & Hk & Hp & Hn) & Hid & _ & prompt & Hout).
  split; [exact Hid|].
  split.
  { exists [mkEntry user text]. split; [|repeat constructor; discriminate].
    unfold on. rewrite String.eqb_refl. now rewrite loop_convo. }
  split; [eexists; split; [exact Hout|repeat constructor]|].
  unfold Runs.calls, Runs.budget, Runs.fullTurn.
  rewrite Hout, Hp, Hk, owed_cons, modelCalls_app, length_app.
  cbn [modelCalls List.length Runs.repairsLeft].
  unfold MAX_STEPS, MAX_REPAIRS. lia.
Qed.

(** Any run: a full turn of model calls for every user turn opened. *)
Lemma run_grows inputs : forall a,
  id (run a inputs) = id a
  /\ (exists more,
         convo (run a inputs) = (convo a ++ more)%list
         /\ Forall (fun e => role e <> system) more)
  /\ (exists more,
         out (run a inputs) = (out a ++ more)%list
         /\ Forall (Runs.addressed (id a)) more)
  /\ Runs.calls (run a inputs) + Runs.budget (run a inputs)
     <= Runs.calls a + Runs.budget a
        + Runs.fullTurn * Runs.userTurns (id a) inputs.
Proof.
  induction inputs as [|i inputs IH]; intros a.
  { cbn. split; [reflexivity|].
    split; [exists []; split; [now rewrite app_nil_r|constructor]|].
    split; [exists []; split; [now rewrite app_nil_r|constructor]|]. lia. }
  change (run a (i :: inputs)) with (run (step a i) inputs).
  destruct (IH (step a i)) as (Hid & (m2 & Hc2 & Hf2) & (o2 & Ho2 & Ha2) & Hs2).
  assert (Hstep : id (step a i) = id a
                  /\ (exists more,
                         convo (step a i) = (convo a ++ more)%list
                         /\ Forall (fun e => role e <> system) more)
                  /\ (exists more,
         out (step a i) = (out a ++ more)%list
         /\ Forall (Runs.addressed (id a)) more)
                  /\ Runs.calls (step a i) + Runs.budget (step a i)
                     <= Runs.calls a + Runs.budget a
                        + Runs.fullTurn
                          * (if Runs.opensTurn (id a) i then 1 else 0)).
  { destruct (Runs.opensTurn (id a) i) eqn:Eo.
    - destruct (turn_opened a i Eo) as (H1 & H2 & H3 & H4).
      split; [exact H1|]. split; [exact H2|]. split; [exact H3|]. lia.
    - destruct (advance_step a i Eo) as (H1 & H2 & H3 & H4 & _).
      split; [exact H1|]. split; [exact H2|]. split; [exact H3|]. lia. }
  destruct Hstep as (Hid1 & (m1 & Hc1 & Hf1) & (o1 & Ho1 & Ha1) & Hs1).
  rewrite Hid1 in *.
  split; [exact Hid|].
  split.
  { exists (m1 ++ m2)%list. split; [now rewrite Hc2, Hc1, app_assoc|].
    apply Forall_app. now split. }
  split.
  { exists (o1 ++ o2)%list. split; [now rewrite Ho2, Ho1, app_assoc|].
    apply Forall_app. now split. }
  unfold Runs.userTurns in *. cbn [filter].
  destruct (Runs.opensTurn (id a) i); cbn [List.length]; nia.
Qed.

End AdvanceFacts.

(** X16.  The model calls of an agent are bounded by the user turns it is
    given.  A step pays for one round, which is one call and at most
    [MAX_REPAIRS] repairs, and only a user input gives the steps back: so
    over any inputs, in any order, calls made and calls still possible
    together grow by at most a full turn, [MAX_STEPS] rounds of
    [1 + MAX_REPAIRS] calls, that is 36, for every user input addressed to
    the agent.  A fresh agent has one such turn in hand before any user
    input, as a tool result alone starts a round. *)
Theorem X16_model_calls_bounded :
  forall (SYSTEM : string)
         (parseTurn : string -> BuilderAgent.PlannerTurn + string)
         (stringify : BuilderAgent.PlannerMsg -> string)
         (trim : string -> string)
         (agentId : string) (a : BuilderAgent.Agent)
         (inputs : list BuilderAgent.Input),
    let a' := BuilderAgent.run parseTurn stringify trim a inputs in
    let fresh := BuilderAgent.run parseTurn stringify trim
                   (BuilderAgent.init SYSTEM agentId) inputs in
    Runs.calls a' + Runs.budget a'
    <= Runs.calls a + Runs.budget a
       + Runs.fullTurn * Runs.userTurns (BuilderAgent.id a) inputs
    /\ Runs.calls fresh <= 36 * S (Runs.userTurns agentId inputs)
    /\ Runs.fullTurn = 36.
Proof.
  intros SYSTEM parseTurn stringify trim agentId a inputs a' fresh.
  subst a' fresh. split; [|split; [|reflexivity]].
  - now destruct (run_grows parseTurn stringify trim inputs a) as (_ & _ & _ & H).
  - destruct (run_grows parseTurn stringify trim inputs
                (BuilderAgent.init SYSTEM agentId)) as (_ & _ & _ & H).
    change (BuilderAgent.id (BuilderAgent.init SYSTEM agentId)) with agentId in H.
    change (Runs.calls (BuilderAgent.init SYSTEM agentId)) with 0 in H.
    change (Runs.budget (BuilderAgent.init SYSTEM agentId)) with 36 in H.
    change Runs.fullTurn with 36 in H. lia.
Qed.

(** X17.  An interrupt lasts until the next user input, and it stops rounds
    from starting, not the rounds in flight.  After [interrupt()], whatever
    reaches the agent short of a user input addressed to it, the flag stays
    set and the step counter does not move; the only model calls made are
    repairs of rounds that were already waiting for the model, at most
    [MAX_REPAIRS] for one that waited for its first answer.  With no round
    in flight there is no model call at all. *)
Theorem X17_interrupt_holds :
  forall (parseTurn : string -> BuilderAgent.PlannerTurn + string)
         (stringify : BuilderAgent.PlannerMsg -> string)
         (trim : string -> string)
         (b : BuilderAgent.Agent) (inputs : list BuilderAgent.Input),
    Runs.userTurns (BuilderAgent.id b) inputs = 0 ->
    let a' := BuilderAgent.run parseTurn stringify trim
                (BuilderAgent.interrupt b) inputs in
    BuilderAgent.interrupted a' = true
    /\ BuilderAgent.steps a' = BuilderAgent.steps b
    /\ Runs.calls a' + Runs.owed (BuilderAgent.pending a')
       <= Runs.calls b + Runs.owed (BuilderAgent.pending b)
    /\ (BuilderAgent.pending b = [] ->
        BuilderAgent.modelCalls (BuilderAgent.out a')
        = BuilderAgent.modelCalls (BuilderAgent.out b)).
Proof.
  intros parseTurn stringify trim b inputs Hnone a'. subst a'.
  destruct (advance_run parseTurn stringify trim inputs
              (BuilderAgent.interrupt b) Hnone)
    as (_ & _ & (more & Hout & _) & _ & Hint).
  destruct (Hint eq_refl) as (H1 & H2 & H3).
  change (BuilderAgent.steps (BuilderAgent.interrupt b))
    with (BuilderAgent.steps b) in H2.
  change (BuilderAgent.pending (BuilderAgent.interrupt b))
    with (BuilderAgent.pending b) in H3.
  change (Runs.calls (BuilderAgent.interrupt b)) with (Runs.calls b) in H3.
  change (BuilderAgent.out (BuilderAgent.interrupt b))
    with (BuilderAgent.out b) in Hout.
  split; [exact H1|]. split; [exact H2|]. split; [lia|].
  intros Hp. rewrite Hp in H3. unfold Runs.calls in H3.
  rewrite Hout, modelCalls_app in *. rewrite length_app in H3.
  cbn in H3.
  destruct (BuilderAgent.modelCalls more); [now rewrite app_nil_r|].
  cbn in H3. lia.
Qed.

Lemma X17_interrupt_holds_witness :
  let b := BuilderAgent.run BuilderAgent.Sample.rejectAll
             BuilderAgent.Sample.stringify BuilderAgent.Sample.trim
             (BuilderAgent.init BuilderAgent.Sample.SYSTEM "agent#1")
             [BuilderAgent.IOn (UserInput "build it" "agent#1" None) 0] in
  let inputs := [BuilderAgent.ILlmResolved 0 "x";
                 BuilderAgent.IOn (ToolResult "agent#1" "fs" None true "data") 1;
                 BuilderAgent.ILlmResolved 1 "y";
                 BuilderAgent.ILlmResolved 2 "z"] in
  let a' := BuilderAgent.run BuilderAgent.Sample.rejectAll
              BuilderAgent.Sample.stringify BuilderAgent.Sample.trim
              (BuilderAgent.interrupt b) inputs in
  Runs.userTurns (BuilderAgent.id b) inputs = 0
  /\ BuilderAgent.modelCalls (BuilderAgent.out a') = [0; 1; 2]
  /\ BuilderAgent.interrupted a' = true.
Proof.
  cbv zeta. split; [reflexivity|]. split; [vm_compute; reflexivity|].
  exact (proj1
           (X17_interrupt_holds BuilderAgent.Sample.rejectAll
              BuilderAgent.Sample.stringify BuilderAgent.Sample.trim
              (BuilderAgent.run BuilderAgent.Sample.rejectAll
                 BuilderAgent.Sample.stringify BuilderAgent.Sample.trim
                 (BuilderAgent.init BuilderAgent.Sample.SYSTEM "agent#1")
                 [BuilderAgent.IOn (UserInput "build it" "agent#1" None) 0])
              [BuilderAgent.ILlmResolved 0 "x";
               BuilderAgent.IOn (ToolResult "agent#1" "fs" None true "data") 1;
               BuilderAgent.ILlmResolved 1 "y";
               BuilderAgent.ILlmResolved 2 "z"]
              eq_refl)).
Defined.

(** X18.  The transcript and the trace only grow.  Over any inputs, nothing
    already in the transcript is dropped or rewritten and nothing already
    done is undone; the agent keeps its id; and the transcript of an agent
    that started fresh begins with the system prompt, which is its only
    entry of the system role. *)
Theorem X18_transcript_only_grows :
  forall (SYSTEM : string)
         (parseTurn : string -> BuilderAgent.PlannerTurn + string)
         (stringify : BuilderAgent.PlannerMsg -> string)
         (trim : string -> string)
         (agentId : string) (a : BuilderAgent.Agent)
         (inputs : list BuilderAgent.Input),
    let a' := BuilderAgent.run parseTurn stringify trim a inputs in
    let fresh := BuilderAgent.run parseTurn stringify trim
                   (BuilderAgent.init SYSTEM agentId) inputs in
    BuilderAgent.id a' = BuilderAgent.id a
    /\ (exists more,
           BuilderAgent.convo a' = BuilderAgent.convo a ++ more
           /\ Forall (fun e => BuilderAgent.role e <> BuilderAgent.system) more)
    /\ (exists more, BuilderAgent.out a' = BuilderAgent.out a ++ more)
    /\ (exists more,
           BuilderAgent.convo fresh
           = BuilderAgent.mkEntry BuilderAgent.system SYSTEM :: more
           /\ Forall (fun e => BuilderAgent.role e <> BuilderAgent.system) more).
Proof.
  intros SYSTEM parseTurn stringify trim agentId a inputs a' fresh.
  subst a' fresh.
  destruct (run_grows parseTurn stringify trim inputs a)
    as (H1 & H2 & (more & H3 & _) & _).
  destruct (run_grows parseTurn stringify trim inputs
              (BuilderAgent.init SYSTEM agentId)) as (_ & H4 & _).
  split; [exact H1|]. split; [exact H2|]. split; [now exists more|exact H4].
Qed.

(** X19.  The agent addresses only itself, and it never asks for a streamed
    generation.  Over any inputs, every tool call the agent submits and
    every model call it makes names the agent itself as its target, so that
    the result comes back to it, and no effect it submits is of the
    [LlmGenerate] kind. *)
Theorem X19_agent_addresses_itself :
  forall (parseTurn : string -> BuilderAgent.PlannerTurn + string)
         (stringify : BuilderAgent.PlannerMsg -> string)
         (trim : string -> string)
         (a : BuilderAgent.Agent) (inputs : list BuilderAgent.Input),
    let a' := BuilderAgent.run parseTurn stringify trim a inputs in
    exists more,
      BuilderAgent.out a' = BuilderAgent.out a ++ more
      /\ Forall (Runs.addressed (BuilderAgent.id a)) more
      /\ (forall prompt target,
             ~ In (BuilderAgent.OEffect (LlmGenerate prompt target)) more)
      /\ (forall tool args target,
             In (BuilderAgent.OEffect (ToolCall tool args target)) more ->
             target = BuilderAgent.id a)
      /\ (forall call prompt target,
             In (BuilderAgent.OLlmOnce call prompt target) more ->
             target = BuilderAgent.id a).
Proof.
  intros parseTurn stringify trim a inputs a'. subst a'.
  destruct (run_grows parseTurn stringify trim inputs a)
    as (_ & _ & (more & Hout & Haddr) & _).
  exists more. split; [exact Hout|]. split; [exact Haddr|].
  rewrite Forall_forall in Haddr. split; [|split].
  - intros prompt target Hin. exact (Haddr _ Hin).
  - intros tool args target Hin. exact (Haddr _ Hin).
  - intros call prompt target Hin. exact (Haddr _ Hin).
Qed.

(* ====================================================================== *)
(** * The agent and the adapters together *)
(* ====================================================================== *)

Section ScenarioFacts.

Import BuilderAgent.
Local Open Scope string_scope.

Variable parseTurn : string -> PlannerTurn + string.
Variable stringify : PlannerMsg -> string.
Variable trim : string -> string.

Abbreviation llmResolved := (llmResolved parseTurn stringify trim).

(** The first answer of a round validates. *)
Lemma first_answer_accepted c text p a turn :
  pending a = (c, AwaitRaw) :: p ->
  parseTurn text = inl turn ->
  llmResolved c text a
  = handleMessage trim (message turn)
      (push assistant (stringify (message turn)) (setPending p a)).
Proof.
  intros Hp Hparse.
  rewrite (llmResolved_raw parseTurn stringify trim c text p a Hp).
  rewrite (parseOrRepair_accept parseTurn stringify trim 0 "" text turn _
             (Nat.le_0_l _) Hparse).
  reflexivity.
Qed.

(** A round that reaches the model, in terms of the fields. *)
Lemma loop_round a :
  interrupted a = false ->
  steps a < MAX_STEPS ->
  out (loop a)
  = (out a ++ [OLlmOnce (nextCall a) (loopPrompt (convo a)) (id a)])%list
  /\ pending (loop a) = (nextCall a, AwaitRaw) :: pending a
  /\ steps (loop a) = S (steps a)
  /\ nextCall (loop a) = S (nextCall a)
  /\ currentReqId (loop a) = currentReqId a
  /\ interrupted (loop a) = false.
Proof.
  intros Hi Hs. rewrite (loop_calls a Hi Hs). cbn. now rewrite Hi.
Qed.

End ScenarioFacts.

(** X20.  A tool call, there and back.  When the first answer of a round
    validates as an [action] message, the agent records it in the
    transcript, reports it and submits one [ToolCall] addressed to itself,
    and makes no model call: the round is over.  Given to the tool adapter,
    the effect becomes one task; the event the task dispatches is addressed
    to the agent, which puts the outcome in the transcript as a user entry,
    the data cut to 2000 code units, reports it as an observation and, when
    it is not interrupted and has steps left, starts exactly one round,
    whose prompt renders the transcript ending in that entry. *)
Theorem X20_action_round_trip :
  forall (World : Type)
         (parseTurn : string -> BuilderAgent.PlannerTurn + string)
         (stringify : BuilderAgent.PlannerMsg -> string)
         (trim : string -> string)
         (reg : ToolsAdapter.Registry World) (port : ToolsAdapter.ToolPort World)
         (w : World) (now now' : nat)
         (a : BuilderAgent.Agent) (c : nat) (p : list (nat * BuilderAgent.Await))
         (text : string) (n : nat) (toolcall_id : string) (tool : Tools)
         (args : ToolArgs) (say : option string),
    BuilderAgent.pending a = (c, BuilderAgent.AwaitRaw) :: p ->
    parseTurn text
    = inl (BuilderAgent.mkTurn
             (BuilderAgent.MAction n toolcall_id tool args say)) ->
    ToolsAdapter.name port = ToolsAdapter.toolName tool ->
    let msg := BuilderAgent.MAction n toolcall_id tool args say in
    let eff := ToolCall tool args (BuilderAgent.id a) in
    let a1 := BuilderAgent.llmResolved parseTurn stringify trim c text a in
    let res := snd (ToolsAdapter.run port args w) in
    let entry :=
      BuilderAgent.mkEntry BuilderAgent.user
        (String.append "TOOL("
           (String.append (ToolsAdapter.toolName tool)
              (String.append ") -> "
                 (String.append (if FsPort.ok res then "ok" else "error")
                    (String.append nl (slice0 2000 (FsPort.data res))))))) in
    BuilderAgent.out a1
    = BuilderAgent.out a
      ++ [BuilderAgent.OUi (ActionEv n tool toolcall_id args (spread say));
          BuilderAgent.OEffect eff]
    /\ BuilderAgent.pending a1 = p
    /\ BuilderAgent.steps a1 = BuilderAgent.steps a
    /\ exists task body,
         ToolsAdapter.submit (ToolsAdapter.register port reg) now eff
         = ToolsAdapter.Enqueue task Scheduler.LDomain Scheduler.PMedium body
         /\ Router.targetOf (snd (body w)) = Some (BuilderAgent.id a)
         /\ let a2 := BuilderAgent.on (snd (body w)) now' a1 in
            BuilderAgent.convo a2
            = BuilderAgent.convo a
              ++ [BuilderAgent.mkEntry BuilderAgent.assistant (stringify msg);
                  entry]
            /\ exists rest,
                 BuilderAgent.out a2
                 = BuilderAgent.out a1
                   ++ BuilderAgent.OUi
                        (Observation (ToolsAdapter.toolName tool)
                           (FsPort.ok res) (slice0 2000 (FsPort.data res)))
                      :: rest
                 /\ (BuilderAgent.interrupted a = false ->
                     BuilderAgent.steps a < BuilderAgent.MAX_STEPS ->
                     rest
                     = [BuilderAgent.OLlmOnce (BuilderAgent.nextCall a)
                          (BuilderAgent.loopPrompt (BuilderAgent.convo a2))
                          (BuilderAgent.id a)]
                     /\ BuilderAgent.pending a2
                        = (BuilderAgent.nextCall a, BuilderAgent.AwaitRaw) :: p).
Proof.
  intros World parseTurn stringify trim reg port w now now' a c p text n
         toolcall_id tool args say Hp Hparse Hname msg eff a1 res entry.
  assert (Ha1 : a1
                = BuilderAgent.submitEffect eff
                    (BuilderAgent.onUpdate
                       (ActionEv n tool toolcall_id args (spread say))
                       (BuilderAgent.push BuilderAgent.assistant (stringify msg)
                          (BuilderAgent.setPending p a)))).
  { subst a1.
    now rewrite (first_answer_accepted parseTurn stringify trim c text p a _
                   Hp Hparse). }
  split.
  { rewrite Ha1. cbn. now rewrite <- app_assoc. }
  split; [now rewrite Ha1|]. split; [now rewrite Ha1|].
  unfold ToolsAdapter.submit, ToolsAdapter.register. subst eff. cbv beta.
  rewrite Hname, tools_get_set_same.
  eexists. eexists. split; [reflexivity|].
  cbv beta. fold res.
  assert (Hev : forall (out : World * FsPort.ToolOut),
             snd (let (w', o) := out in
                  (w', ToolResult (BuilderAgent.id a) (ToolsAdapter.toolName tool)
                         None (FsPort.ok o) (FsPort.data o)))
             = ToolResult (BuilderAgent.id a) (ToolsAdapter.toolName tool) None
                 (FsPort.ok (snd out)) (FsPort.data (snd out))).
  { now intros [w' o]. }
  rewrite Hev. fold res. clear Hev.
  split; [reflexivity|].
  cbv zeta.
  assert (Hid : BuilderAgent.id a1 = BuilderAgent.id a) by now rewrite Ha1.
  unfold BuilderAgent.on. rewrite Hid, String.eqb_refl.
  split.
  { rewrite loop_convo. rewrite Ha1. cbn. subst entry msg.
    now rewrite <- app_assoc. }
  set (a1' := BuilderAgent.onUpdate _ (BuilderAgent.push _ _ a1)).
  assert (Hi : BuilderAgent.interrupted a1' = BuilderAgent.interrupted a)
    by (subst a1'; now rewrite Ha1).
  assert (Hs : BuilderAgent.steps a1' = BuilderAgent.steps a)
    by (subst a1'; now rewrite Ha1).
  destruct (loop_out a1') as (more & Hmore).
  assert (Hout' : BuilderAgent.out a1'
                  = BuilderAgent.out a1
                    ++ [BuilderAgent.OUi
                          (Observation (ToolsAdapter.toolName tool)
                             (FsPort.ok res) (slice0 2000 (FsPort.data res)))])
    by reflexivity.
  exists more. split.
  { rewrite Hmore, Hout', <- app_assoc. reflexivity. }
  intros Hint Hsteps.
  destruct (loop_round a1') as (Hl1 & Hl2 & _);
    [congruence|now rewrite Hs|].
  rewrite Hmore in Hl1. apply app_inv_head in Hl1.
  split.
  - rewrite Hl1. rewrite loop_convo.
    subst a1'. rewrite Ha1. reflexivity.
  - rewrite Hl2. subst a1'. rewrite Ha1. reflexivity.
Qed.

Lemma X20_action_round_trip_witness :
  let parseTurn := fun _ : string =>
    @inl BuilderAgent.PlannerTurn string
      (BuilderAgent.mkTurn
         (BuilderAgent.MAction 1 "call-1" fs (FsArgsOf "read" "x" None) None)) in
  let a := BuilderAgent.run parseTurn
             BuilderAgent.Sample.stringify BuilderAgent.Sample.trim
             (BuilderAgent.init BuilderAgent.Sample.SYSTEM "agent#1")
             [BuilderAgent.IOn (UserInput "read x" "agent#1" None) 0] in
  let a1 := BuilderAgent.llmResolved parseTurn
              BuilderAgent.Sample.stringify BuilderAgent.Sample.trim 0 "{}" a in
  BuilderAgent.pending a = [(0, BuilderAgent.AwaitRaw)]
  /\ BuilderAgent.pending a1 = []
  /\ BuilderAgent.modelCalls (BuilderAgent.out a1) = [0].
Proof.
  cbv zeta. split; [reflexivity|].
  split; [|vm_compute; reflexivity].
  exact (proj1 (proj2
           (X20_action_round_trip FsPort.FS
              (fun _ => inl (BuilderAgent.mkTurn
                               (BuilderAgent.MAction 1 "call-1" fs
                                  (FsArgsOf "read" "x" None) None)))
              BuilderAgent.Sample.stringify BuilderAgent.Sample.trim
              [] (ToolsAdapter.fsPort "/work/app" "/work/app")
              (FsPort.mkFS ["/work"; "/work/app"] [("/work/app/x", "hello")])
              7 8
              (BuilderAgent.run
                 (fun _ => inl (BuilderAgent.mkTurn
                                  (BuilderAgent.MAction 1 "call-1" fs
                                     (FsArgsOf "read" "x" None) None)))
                 BuilderAgent.Sample.stringify BuilderAgent.Sample.trim
                 (BuilderAgent.init BuilderAgent.Sample.SYSTEM "agent#1")
                 [BuilderAgent.IOn (UserInput "read x" "agent#1" None) 0])
              0 [] "{}" 1 "call-1" fs (FsArgsOf "read" "x" None) None
              eq_refl eq_refl eq_refl))).
Defined.

(** X21.  A repaired round.  When the first answer of a round does not
    validate and the second does, as a [step] message, the round has made
    two model calls and used one step.  The request for repair stays in the
    transcript as a user entry, its hint cut to 2000 code units, followed by
    the accepted message as an assistant entry; the second call is made on
    the transcript with the request for repair in it, and the next round
    starts on the transcript with both. *)
Theorem X21_repaired_round :
  forall (parseTurn : string -> BuilderAgent.PlannerTurn + string)
         (stringify : BuilderAgent.PlannerMsg -> string)
         (trim : string -> string)
         (a : BuilderAgent.Agent) (c : nat) (p : list (nat * BuilderAgent.Await))
         (bad good hint : string) (n : nat) (goal : string)
         (say : option string),
    BuilderAgent.pending a = (c, BuilderAgent.AwaitRaw) :: p ->
    BuilderAgent.interrupted a = false ->
    BuilderAgent.steps a < BuilderAgent.MAX_STEPS ->
    parseTurn bad = inr hint ->
    parseTurn good
    = inl (BuilderAgent.mkTurn (BuilderAgent.MStep n goal say)) ->
    let k := BuilderAgent.nextCall a in
    let a' := BuilderAgent.run parseTurn stringify trim a
                [BuilderAgent.ILlmResolved c bad;
                 BuilderAgent.ILlmResolved k good] in
    let asked :=
      BuilderAgent.convo a
      ++ [BuilderAgent.mkEntry BuilderAgent.user
            (BuilderAgent.repairMsg (slice0 2000 hint))] in
    let kept :=
      asked
      ++ [BuilderAgent.mkEntry BuilderAgent.assistant
            (stringify (BuilderAgent.MStep n goal say))] in
    BuilderAgent.convo a' = kept
    /\ BuilderAgent.out a'
       = BuilderAgent.out a
         ++ [BuilderAgent.OLlmOnce k (BuilderAgent.repairPrompt asked)
               (BuilderAgent.id a);
             BuilderAgent.OUi (StepEv n goal (spread say));
             BuilderAgent.OLlmOnce (S k) (BuilderAgent.loopPrompt kept)
               (BuilderAgent.id a)]
    /\ BuilderAgent.steps a' = S (BuilderAgent.steps a)
    /\ BuilderAgent.pending a' = (S k, BuilderAgent.AwaitRaw) :: p.
Proof.
  intros parseTurn stringify trim a c p bad good hint n goal say
         Hp Hi Hs Hbad Hgood k a' asked kept.
  subst a'. unfold BuilderAgent.run. cbn [fold_left BuilderAgent.step].
  rewrite (llmResolved_raw parseTurn stringify trim c bad p a Hp).
  rewrite (parseOrRepair_retry parseTurn stringify trim 0 "" bad hint _
             ltac:(unfold BuilderAgent.MAX_REPAIRS; lia) Hbad).
  set (b := BuilderAgent.ask 0 (slice0 2000 hint) (BuilderAgent.setPending p a)).
  assert (Hpb : BuilderAgent.pending b
                = (k, BuilderAgent.AwaitRepair 0 (slice0 2000 hint)) :: p)
    by reflexivity.
  rewrite (llmResolved_repair parseTurn stringify trim k 0 _ good p b Hpb).
  rewrite (parseOrRepair_accept parseTurn stringify trim 1 _ good _ _
             ltac:(unfold BuilderAgent.MAX_REPAIRS; lia) Hgood).
  unfold BuilderAgent.accepted. cbn [BuilderAgent.message BuilderAgent.handleMessage].
  set (b1 := BuilderAgent.onUpdate _ (BuilderAgent.push _ _ (BuilderAgent.setPending p b))).
  assert (Hb1i : BuilderAgent.interrupted b1 = false) by exact Hi.
  assert (Hb1s : BuilderAgent.steps b1 < BuilderAgent.MAX_STEPS) by exact Hs.
  destruct (loop_round b1 Hb1i Hb1s) as (H1 & H2 & H3 & _).
  rewrite loop_convo, H1, H2, H3.
  subst b1 b asked kept k. cbn.
  rewrite <- !app_assoc. repeat split.
Qed.

Lemma X21_repaired_round_witness :
  let parseTurn := fun text : string =>
    if String.eqb text "{}"
    then inl (BuilderAgent.mkTurn (BuilderAgent.MStep 1 "plan" None))
    else inr "Unexpected token" in
  let a := BuilderAgent.run parseTurn
             BuilderAgent.Sample.stringify BuilderAgent.Sample.trim
             (BuilderAgent.init BuilderAgent.Sample.SYSTEM "agent#1")
             [BuilderAgent.IOn (UserInput "build it" "agent#1" None) 0] in
  let a' := BuilderAgent.run parseTurn
              BuilderAgent.Sample.stringify BuilderAgent.Sample.trim a
              [BuilderAgent.ILlmResolved 0 "oops";
               BuilderAgent.ILlmResolved 1 "{}"] in
  BuilderAgent.pending a = [(0, BuilderAgent.AwaitRaw)]
  /\ BuilderAgent.steps a' = 2
  /\ BuilderAgent.modelCalls (BuilderAgent.out a') = [0; 1; 2].
Proof.
  cbv zeta. split; [reflexivity|].
  split; [|vm_compute; reflexivity].
  exact (proj1 (proj2 (proj2
           (X21_repaired_round
              (fun text : string =>
                 if String.eqb text "{}"
                 then inl (BuilderAgent.mkTurn (BuilderAgent.MStep 1 "plan" None))
                 else inr "Unexpected token")
              BuilderAgent.Sample.stringify BuilderAgent.Sample.trim
              (BuilderAgent.run
                 (fun text : string =>
                    if String.eqb text "{}"
                    then inl (BuilderAgent.mkTurn
                                (BuilderAgent.MStep 1 "plan" None))
                    else inr "Unexpected token")
                 BuilderAgent.Sample.stringify BuilderAgent.Sample.trim
                 (BuilderAgent.init BuilderAgent.Sample.SYSTEM "agent#1")
                 [BuilderAgent.IOn (UserInput "build it" "agent#1" None) 0])
              0 [] "oops" "{}" "Unexpected token" 1 "plan" None
              eq_refl eq_refl ltac:(vm_compute; lia) eq_refl eq_refl)))).
Defined.

(** X22.  How the end of a model call reaches the planner.  With [llmOnce]
    wired to [runOnce], a generation that throws ends the round that made
    the call, whatever was generated before being dropped: the agent
    reports a planner error and closes the turn, with the message thrown
    when the round waited for its first answer and with the message thrown
    behind "planner output invalid: " when it waited for a repair; it makes
    no further call and the transcript is as before.  A generation that
    ends hands the planner the chunks joined in order. *)
Theorem X22_generation_outcome_reaches_planner :
  forall (parseTurn : string -> BuilderAgent.PlannerTurn + string)
         (stringify : BuilderAgent.PlannerMsg -> string)
         (trim : string -> string)
         (llm : LlmAdapter.LlmPort) (reqId : string) (ms : nat)
         (prompt : string)
         (a : BuilderAgent.Agent) (c : nat) (w : BuilderAgent.Await)
         (p : list (nat * BuilderAgent.Await)),
    BuilderAgent.pending a = (c, w) :: p ->
    let once := LlmAdapter.runOnce llm reqId ms prompt (BuilderAgent.id a) in
    let a' := BuilderAgent.step parseTurn stringify trim a
                (Runs.settled c (LlmAdapter.result once)) in
    match LlmAdapter.failure (llm prompt) with
    | Some e =>
        let message :=
          match w with
          | BuilderAgent.AwaitRaw => e
          | BuilderAgent.AwaitRepair _ _ =>
              String.append "planner output invalid: " e
          end in
        BuilderAgent.out a'
        = BuilderAgent.out a
          ++ BuilderAgent.OUi (ErrorEv PhPlanner message)
             :: BuilderAgent.stopEvents a RError (Some message)
        /\ BuilderAgent.pending a' = p
        /\ BuilderAgent.convo a' = BuilderAgent.convo a
        /\ BuilderAgent.steps a' = BuilderAgent.steps a
    | None =>
        a' = BuilderAgent.llmResolved parseTurn stringify trim c
               (LlmAdapter.glue (LlmAdapter.chunks (llm prompt))) a
    end.
Proof.
  intros parseTurn stringify trim llm reqId ms prompt a c w p Hp once a'.
  subst a' once. unfold LlmAdapter.runOnce.
  destruct (LlmAdapter.failure (llm prompt)) as [e|];
    cbn [LlmAdapter.result Runs.settled BuilderAgent.step].
  - unfold BuilderAgent.llmRejected. rewrite Hp.
    cbn [BuilderAgent.lookup BuilderAgent.remove]. rewrite Nat.eqb_refl.
    destruct w as [|i lastErr]; unfold BuilderAgent.plannerError;
      rewrite emitPlanningStop_out;
      match goal with
      | |- context [BuilderAgent.emitPlanningStop ?r ?d ?x] =>
          destruct (emitPlanningStop_frame r d x) as (_ & _ & Hs & Hc & Hq & _)
      end;
      rewrite Hs, Hc, Hq; cbn; rewrite <- app_assoc; repeat split.
  - now rewrite gather_glue.
Qed.

Lemma X22_generation_outcome_reaches_planner_witness :
  let llm := fun _ : string => LlmAdapter.mkGen ["par"; "tial"] (Some "socket closed") in
  let a := BuilderAgent.run BuilderAgent.Sample.rejectAll
             BuilderAgent.Sample.stringify BuilderAgent.Sample.trim
             (BuilderAgent.init BuilderAgent.Sample.SYSTEM "agent#1")
             [BuilderAgent.IOn (UserInput "build it" "agent#1" None) 5] in
  let a' := BuilderAgent.step BuilderAgent.Sample.rejectAll
              BuilderAgent.Sample.stringify BuilderAgent.Sample.trim a
              (Runs.settled 0
                 (LlmAdapter.result
                    (LlmAdapter.runOnce llm "llm-once-1" 3 "p" "agent#1"))) in
  BuilderAgent.pending a = [(0, BuilderAgent.AwaitRaw)]
  /\ BuilderAgent.uiEvents (BuilderAgent.out a')
     = [UserTurn "agent#1" "turn-5" "build it";
        PlanningStart "agent#1" "turn-5";
        ErrorEv PhPlanner "socket closed";
        PlanningStop "agent#1" "turn-5" RError (Some "socket closed")]
  /\ BuilderAgent.pending a' = [].
Proof.
  cbv zeta. split; [reflexivity|].
  split; [vm_compute; reflexivity|].
  exact (proj1 (proj2
           (X22_generation_outcome_reaches_planner
              BuilderAgent.Sample.rejectAll
              BuilderAgent.Sample.stringify BuilderAgent.Sample.trim
              (fun _ => LlmAdapter.mkGen ["par"; "tial"] (Some "socket closed"))
              "llm-once-1" 3 "p"
              (BuilderAgent.run BuilderAgent.Sample.rejectAll
                 BuilderAgent.Sample.stringify BuilderAgent.Sample.trim
                 (BuilderAgent.init BuilderAgent.Sample.SYSTEM "agent#1")
                 [BuilderAgent.IOn (UserInput "build it" "agent#1" None) 5])
              0 BuilderAgent.AwaitRaw [] eq_refl))).
Defined.

(* ====================================================================== *)
(** * Properties of the model port *)
(* ====================================================================== *)

Section PortFacts.

Import OpenAIPort.
Local Open Scope string_scope.

Variable trim : string -> string.
Variable interpret : string -> Reading.

Abbreviation readFrame := (readFrame trim interpret).
Abbreviation readFrames := (readFrames trim interpret).
Abbreviation pump := (pump trim interpret).
Abbreviation readAll := (readAll trim interpret).
Abbreviation generate := (generate trim interpret).

(** The inner loop reads the complete frames of the buffer, and leaves
    what follows them when it goes on. *)
Lemma pump_frames fuel : forall buf,
  String.length buf <= fuel ->
  fst (pump fuel buf) = readFrames (fst (Sse.cut buf))
  /\ (snd (fst (pump fuel buf)) = Go ->
      snd (pump fuel buf) = snd (Sse.cut buf)).
Proof.
  induction fuel as [|fuel IH]; intros buf Hlen.
  - destruct buf; [|cbn in Hlen; lia]. now split.
  - cbn [OpenAIPort.pump].
    destruct (Sse.indexOf Sse.separator buf) as [sep|] eqn:Hi.
    + rewrite (cut_step buf sep Hi). cbn [fst snd OpenAIPort.readFrames].
      pose proof (indexOf_bound _ separator_not_empty _ _ Hi) as Hb.
      change (String.length Sse.separator) with 2 in Hb.
      assert (Hrest : String.length (Sse.sliceFrom (sep + 2) buf) <= fuel)
        by (rewrite sliceFrom_length; lia).
      destruct (IH _ Hrest) as [IH1 IH2].
      destruct (readFrame (slice0 sep buf)) as [ys [| |message]];
        try (split; [reflexivity|discriminate]).
      rewrite <- IH1.
      destruct (pump fuel (Sse.sliceFrom (sep + 2) buf)) as [[ys' st] rest].
      cbn [fst snd] in *. split; [reflexivity|exact IH2].
    + rewrite (cut_none buf Hi). now split.
Qed.

Lemma readFrames_app frames1 frames2 :
  readFrames (frames1 ++ frames2)
  = match readFrames frames1 with
    | (ys, Go) =>
        let (ys', st) := readFrames frames2 in ((ys ++ ys')%list, st)
    | (ys, st) => (ys, st)
    end.
Proof.
  induction frames1 as [|frame frames1 IH]; cbn [app OpenAIPort.readFrames].
  - now destruct (readFrames frames2).
  - destruct (readFrame frame) as [ys [| |message]]; try reflexivity.
    rewrite IH.
    destruct (readFrames frames1) as [ys1 [| |message]]; try reflexivity.
    destruct (readFrames frames2) as [ys2 st]. now rewrite app_assoc.
Qed.

(** The reads together: the complete frames of the whole text. *)
Lemma readAll_frames pieces : forall buf,
  Sse.indexOf Sse.separator buf = None ->
  readAll pieces buf
  = readFrames (fst (Sse.cut (buf ++ LlmAdapter.glue pieces))).
Proof.
  induction pieces as [|piece pieces IH]; intros buf Hb;
    cbn [OpenAIPort.readAll LlmAdapter.glue].
  - rewrite append_empty_r, (cut_none buf Hb). reflexivity.
  - rewrite <- append_assoc, (cut_app (LlmAdapter.glue pieces) (buf ++ piece)).
    cbn [fst]. rewrite readFrames_app.
    destruct (pump_frames (String.length (buf ++ piece)) (buf ++ piece)
                (Nat.le_refl _)) as [H1 H2].
    destruct (pump (String.length (buf ++ piece)) (buf ++ piece))
      as [[ys st] rest].
    cbn [fst snd] in H1, H2. rewrite <- H1.
    destruct st as [| |message]; try reflexivity.
    rewrite H2 by reflexivity.
    rewrite IH by apply cut_rest_clean. reflexivity.
Qed.

(** Once the generator has returned or thrown, nothing more is read. *)
Lemma readAll_stopped pieces more : forall buf,
  snd (readAll pieces buf) <> Go ->
  readAll (pieces ++ more) buf = readAll pieces buf.
Proof.
  induction pieces as [|piece pieces IH]; intros buf H;
    cbn [app OpenAIPort.readAll] in *.
  - now contradiction H.
  - destruct (pump (String.length (buf ++ piece)) (buf ++ piece))
      as [[ys st] rest].
    destruct st as [| |message]; try reflexivity.
    specialize (IH rest).
    destruct (readAll pieces rest) as [ys' st'] eqn:E.
    cbn [snd] in H. rewrite IH by exact H. reflexivity.
Qed.

(** A line whose data is [DONE] makes the generator return. *)
Lemma readLine_done rawLine :
  String.prefix "data:" (trim rawLine) = true ->
  trim (Sse.sliceFrom 5 (trim rawLine)) = "[DONE]" ->
  readLine trim interpret rawLine = Done.
Proof.
  intros Hp Hd. unfold readLine. rewrite Hp, Hd. reflexivity.
Qed.

(** A line whose data is an error event of the provider makes it throw. *)
Lemma readLine_error rawLine message :
  String.prefix "data:" (trim rawLine) = true ->
  nonEmpty (trim (Sse.sliceFrom 5 (trim rawLine))) = true ->
  trim (Sse.sliceFrom 5 (trim rawLine)) <> "[DONE]" ->
  interpret (trim (Sse.sliceFrom 5 (trim rawLine))) = ProviderError message ->
  readLine trim interpret rawLine = Throw message.
Proof.
  intros Hp Hn Hd Hi. unfold readLine. rewrite Hp, Hn, Hi.
  apply String.eqb_neq in Hd. rewrite Hd. reflexivity.
Qed.

(** The lines after a line that ends the reading are not read. *)
Lemma readLines_stops lines1 rawLine lines2 st :
  (readLine trim interpret rawLine = Done /\ st = Return)
  \/ (exists message,
         readLine trim interpret rawLine = Throw message /\ st = Raise message) ->
  readLines trim interpret (lines1 ++ rawLine :: lines2)
  = match readLines trim interpret lines1 with
    | (ys, Go) => (ys, st)
    | r => r
    end.
Proof.
  intros H. induction lines1 as [|l lines1 IH]; cbn [app OpenAIPort.readLines].
  - destruct H as [[-> ->]|(message & -> & ->)]; reflexivity.
  - destruct (readLine trim interpret l); try reflexivity; [exact IH|].
    rewrite IH.
    destruct (readLines trim interpret lines1) as [ys [| |message]];
      reflexivity.
Qed.

(** Nor are the frames after a frame that ends the reading. *)
Lemma readFrames_stops frames1 frame frames2 :
  snd (readFrame frame) <> Go ->
  readFrames (frames1 ++ frame :: frames2)
  = match readFrames frames1 with
    | (ys1, Go) => ((ys1 ++ fst (readFrame frame))%list, snd (readFrame frame))
    | r => r
    end.
Proof.
  intros H. rewrite readFrames_app. cbn [OpenAIPort.readFrames].
  destruct (readFrame frame) as [ys [| |message]]; cbn [fst snd] in *;
    [now contradiction H| |];
    destruct (readFrames frames1) as [ys1 [| |m1]]; reflexivity.
Qed.

End PortFacts.

(** X23.  The model port reads the stream frame by frame however the
    stream is cut into reads.  What [generate] yields and how it ends is
    what reading the complete frames of the text one after the other
    gives; the text after the last blank line is never looked at, so that
    a stream without a blank line yields nothing; and reading the pieces
    one by one gives what reading their concatenation at once gives. *)
Theorem X23_openai_reads_complete_frames :
  forall (trim : string -> string)
         (interpret : string -> OpenAIPort.Reading)
         (pieces : list string) (failure : option string),
    let g := OpenAIPort.generate trim interpret
               (OpenAIPort.Streaming pieces failure) in
    let text := LlmAdapter.glue pieces in
    g = OpenAIPort.finish
          (OpenAIPort.readFrames trim interpret (fst (Sse.cut text))) failure
    /\ g = OpenAIPort.generate trim interpret
             (OpenAIPort.Streaming [text] failure)
    /\ (Sse.indexOf Sse.separator text = None ->
        g = LlmAdapter.mkGen [] failure).
Proof.
  intros trim interpret pieces failure g text. subst g text.
  assert (H : forall ps,
             OpenAIPort.generate trim interpret (OpenAIPort.Streaming ps failure)
             = OpenAIPort.finish
                 (OpenAIPort.readFrames trim interpret
                    (fst (Sse.cut (LlmAdapter.glue ps)))) failure).
  { intros ps. cbn [OpenAIPort.generate].
    now rewrite (readAll_frames trim interpret ps EmptyString eq_refl). }
  split; [apply H|]. split.
  - rewrite (H pieces), (H [LlmAdapter.glue pieces]).
    cbn [LlmAdapter.glue]. now rewrite append_empty_r.
  - intros Hnone. rewrite (H pieces), (cut_none _ Hnone). reflexivity.
Qed.

Lemma X23_openai_reads_complete_frames_witness :
  let interpret := fun data : string => OpenAIPort.Delta data in
  let trim := fun s : string => s in
  let pieces := ["data:hel"; "lo"; String.append nl "da"; "ta:wor"] in
  Sse.indexOf Sse.separator (LlmAdapter.glue pieces) = None
  /\ OpenAIPort.generate trim interpret (OpenAIPort.Streaming pieces None)
     = LlmAdapter.mkGen [] None.
Proof.
  cbv zeta.
  assert (H : Sse.indexOf Sse.separator
                (LlmAdapter.glue
                   ["data:hel"; "lo"; String.append nl "da"; "ta:wor"])
              = None) by (vm_compute; reflexivity).
  split; [exact H|].
  exact (proj2 (proj2
           (X23_openai_reads_complete_frames (fun s => s)
              (fun data => OpenAIPort.Delta data)
              ["data:hel"; "lo"; String.append nl "da"; "ta:wor"] None))
           H).
Defined.

(** X24.  A line whose data is [DONE], or whose data is an error event of
    the provider, ends the reading.  Let a complete frame of the stream hold
    a line that, trimmed, begins with "data:" and whose data, trimmed, is
    [DONE], or is not empty and is read as an error event.  Then whatever
    follows in the stream does not matter: nothing more is yielded, no later
    event makes the generator throw, and an error of the stream itself is
    not raised.  When no earlier line has ended the reading, what is yielded
    is what the lines before that line yield, and the generator returns
    at [DONE] and throws the message of the error event otherwise. *)
Theorem X24_openai_done_is_final :
  forall (trim : string -> string)
         (interpret : string -> OpenAIPort.Reading)
         (pieces more : list string) (failure : option string)
         (frames1 : list string) (frame : string) (frames2 : list string)
         (lines1 : list string) (rawLine : string) (lines2 : list string)
         (thrown : option string),
    fst (Sse.cut (LlmAdapter.glue pieces)) = frames1 ++ frame :: frames2 ->
    OpenAIPort.splitLines frame EmptyString = lines1 ++ rawLine :: lines2 ->
    String.prefix "data:" (trim rawLine) = true ->
    (let data := trim (Sse.sliceFrom 5 (trim rawLine)) in
     match thrown with
     | None => data = "[DONE]"%string
     | Some message =>
         nonEmpty data = true
         /\ data <> "[DONE]"%string
         /\ interpret data = OpenAIPort.ProviderError message
     end) ->
    let g := OpenAIPort.generate trim interpret
               (OpenAIPort.Streaming (pieces ++ more) failure) in
    g = OpenAIPort.generate trim interpret (OpenAIPort.Streaming pieces None)
    /\ (snd (OpenAIPort.readFrames trim interpret frames1) = OpenAIPort.Go ->
        snd (OpenAIPort.readLines trim interpret lines1) = OpenAIPort.Go ->
        g = LlmAdapter.mkGen
              (fst (OpenAIPort.readFrames trim interpret frames1)
               ++ fst (OpenAIPort.readLines trim interpret lines1))
              thrown).
Proof.
  intros trim interpret pieces more failure frames1 frame frames2
         lines1 rawLine lines2 thrown Hframes Hlines Hprefix Hdata g.
  cbv zeta in Hdata.
  set (st := match thrown with
             | None => OpenAIPort.Return
             | Some message => OpenAIPort.Raise message
             end).
  assert (Hline : (OpenAIPort.readLine trim interpret rawLine = OpenAIPort.Done
                   /\ st = OpenAIPort.Return)
                  \/ (exists message,
                         OpenAIPort.readLine trim interpret rawLine
                         = OpenAIPort.Throw message
                         /\ st = OpenAIPort.Raise message)).
  { subst st. destruct thrown as [message|].
    - right. exists message. destruct Hdata as (Hn & Hd & Hi).
      split; [now apply readLine_error|reflexivity].
    - left. split; [now apply readLine_done|reflexivity]. }
  assert (Hst : st <> OpenAIPort.Go) by (subst st; now destruct thrown).
  assert (Hframe : OpenAIPort.readFrame trim interpret frame
                   = match OpenAIPort.readLines trim interpret lines1 with
                     | (ys, OpenAIPort.Go) => (ys, st)
                     | r => r
                     end).
  { unfold OpenAIPort.readFrame. rewrite Hlines.
    now apply readLines_stops. }
  assert (Hstop : snd (OpenAIPort.readFrame trim interpret frame)
                  <> OpenAIPort.Go).
  { rewrite Hframe.
    destruct (OpenAIPort.readLines trim interpret lines1) as [ys [| |m]];
      cbn [snd]; [exact Hst|discriminate|discriminate]. }
  assert (Hall : OpenAIPort.readAll trim interpret pieces EmptyString
                 = match OpenAIPort.readFrames trim interpret frames1 with
                   | (ys1, OpenAIPort.Go) =>
                       (ys1 ++ fst (OpenAIPort.readFrame trim interpret frame),
                        snd (OpenAIPort.readFrame trim interpret frame))
                   | r => r
                   end).
  { rewrite (readAll_frames trim interpret pieces EmptyString eq_refl).
    change (String.append EmptyString (LlmAdapter.glue pieces))
      with (LlmAdapter.glue pieces).
    rewrite Hframes. now apply readFrames_stops. }
  assert (Hgo : snd (OpenAIPort.readAll trim interpret pieces EmptyString)
                <> OpenAIPort.Go).
  { rewrite Hall.
    destruct (OpenAIPort.readFrames trim interpret frames1) as [ys1 [| |m]];
      cbn [snd]; [exact Hstop|discriminate|discriminate]. }
  assert (Hg : g = OpenAIPort.generate trim interpret
                     (OpenAIPort.Streaming pieces None)).
  { subst g. cbn [OpenAIPort.generate].
    rewrite (readAll_stopped trim interpret pieces more EmptyString Hgo).
    unfold OpenAIPort.finish.
    destruct (snd (OpenAIPort.readAll trim interpret pieces EmptyString));
      [now contradiction Hgo|reflexivity|reflexivity]. }
  split; [exact Hg|].
  intros Hgo1 Hgo2. rewrite Hg. cbn [OpenAIPort.generate].
  rewrite Hall, Hframe.
  destruct (OpenAIPort.readFrames trim interpret frames1) as [ys1 st1].
  destruct (OpenAIPort.readLines trim interpret lines1) as [ys2 st2].
  cbn [fst snd] in *. subst st1 st2. cbn [fst snd].
  unfold OpenAIPort.finish. cbn [fst snd]. subst st.
  now destruct thrown.
Qed.

Lemma X24_openai_done_is_final_witness :
  let interpret := fun data : string => OpenAIPort.Delta data in
  let trim := fun s : string => s in
  let pieces := [String.append "data:one" (String.append nl nl);
                 String.append "data:[DONE]" (String.append nl nl)] in
  let more := [String.append "data:two" (String.append nl nl)] in
  fst (Sse.cut (LlmAdapter.glue pieces)) = ["data:one"; "data:[DONE]"]
  /\ OpenAIPort.splitLines "data:[DONE]" EmptyString = ["data:[DONE]"]
  /\ OpenAIPort.generate trim interpret
       (OpenAIPort.Streaming (pieces ++ more) (Some "socket closed"))
     = LlmAdapter.mkGen ["one"] None.
Proof.
  cbv zeta.
  assert (H1 : fst (Sse.cut
                      (LlmAdapter.glue
                         [String.append "data:one" (String.append nl nl);
                          String.append "data:[DONE]" (String.append nl nl)]))
               = ["data:one"] ++ "data:[DONE]"%string :: [])
    by (vm_compute; reflexivity).
  assert (H2 : OpenAIPort.splitLines "data:[DONE]" EmptyString
               = [] ++ "data:[DONE]"%string :: [])
    by (vm_compute; reflexivity).
  split; [exact H1|]. split; [exact H2|].
  exact (proj2
           (X24_openai_done_is_final (fun s => s)
              (fun data => OpenAIPort.Delta data)
              [String.append "data:one" (String.append nl nl);
               String.append "data:[DONE]" (String.append nl nl)]
              [String.append "data:two" (String.append nl nl)]
              (Some "socket closed")
              ["data:one"] "data:[DONE]" [] [] "data:[DONE]" [] None
              H1 H2 eq_refl eq_refl)
           eq_refl eq_refl).
Defined.

(* ====================================================================== *)
(** * Properties of the presentation helpers *)
(* ====================================================================== *)

(** X25.  [truncate] returns a value of at most [max] code units as it is,
    and of a longer one its first [max] code units followed by an ellipsis:
    the result can be one code unit longer than [max], never more, and
    truncating it again changes nothing. *)
Theorem X25_truncate_bound :
  forall (unit : Type) (ellipsis : unit) (value : list unit) (max : nat),
    let r := UiMessages.truncate ellipsis value max in
    List.length r <= S max
    /\ (List.length value <= max -> r = value)
    /\ (max < List.length value ->
        r = firstn max value ++ [ellipsis] /\ List.length r = S max)
    /\ UiMessages.truncate ellipsis r max = r.
Proof.
  intros unit ellipsis value max r. subst r. unfold UiMessages.truncate.
  destruct (Nat.leb (List.length value) max) eqn:E.
  - apply Nat.leb_le in E. rewrite (proj2 (Nat.leb_le _ _) E).
    repeat split; trivial; lia.
  - apply Nat.leb_gt in E.
    assert (Hlen : List.length (firstn max value ++ [ellipsis]) = S max).
    { rewrite length_app, firstn_length_le by lia. cbn. lia. }
    rewrite Hlen.
    assert (Hgt : Nat.leb (S max) max = false) by (apply Nat.leb_gt; lia).
    rewrite Hgt.
    split; [lia|]. split; [|split].
    + lia.
    + intros _. now split.
    + f_equal. rewrite firstn_app, firstn_firstn, Nat.min_id.
      rewrite firstn_length_le by lia. rewrite Nat.sub_diag. cbn.
      now rewrite app_nil_r.
Qed.
